(** * Kiki blockchain: a shallow embedding of the ledger engine

    The development follows the JavaScript sources module by module:
    the crypto helpers, the Merkle trees, the Bloom filters, the two
    transaction and block models, and the two ledgers ([Blockchain] and
    [EnhancedBlockchain]).  JavaScript numbers are modelled by [Z]: every
    quantity the ledger handles is an integer, and the model covers the
    range in which JavaScript computes on integers exactly.  The fee
    computations are given a second time on doubles ([Double],
    [DoubleTransaction], [DoubleBlock], [DoubleBlockchain]), operation by
    operation as JavaScript performs them; the facts on fees are stated about
    these, and they say where the two readings agree.  The digest
    of node's crypto module is a parameter of the model (class [Crypto]);
    [SHA256] gives the instance the program runs with. *)

From Stdlib Require Import ZArith String Ascii List Lia QArith Qround.
From Stdlib Require Import Sorted.
From Stdlib Require Import Qabs Qpower Lqa.
From Stdlib Require SpecFloat.
From stdpp Require Import base option list gmap strings.
Import ListNotations.

Local Open Scope string_scope.
Local Open Scope Z_scope.

(** ** JavaScript helpers *)

(** [x || d] on a number that may be missing: [undefined], [null] and [0]
    are falsy and give the default. *)
Definition orDefault (x : option Z) (d : Z) : Z :=
  match x with
  | Some v => if v =? 0 then d else v
  | None => d
  end.

(** [!s] on a string that may be missing: [null] and the empty string are falsy. *)
Definition falsyStr (s : option string) : bool :=
  match s with
  | Some (String _ _) => false
  | _ => true
  end.

(** [s.startsWith(p)] *)
Fixpoint startsWith (p s : string) : bool :=
  match p, s with
  | EmptyString, _ => true
  | String a p', String b s' => if Ascii.eqb a b then startsWith p' s' else false
  | String _ _, EmptyString => false
  end.

(** ['0'.repeat(n)] *)
Definition repeat0 (n : N) : string :=
  Nat.iter (N.to_nat n) (String "0"%char) EmptyString.

(** [s.substring(0, n)] *)
Fixpoint substring0 (n : nat) (s : string) : string :=
  match n, s with
  | S n', String a s' => String a (substring0 n' s')
  | _, _ => EmptyString
  end.

(** Decimal digits of a natural number, as [Number.prototype.toString] prints
    an integer. *)
Fixpoint digitsAux (fuel : nat) (n : N) (acc : string) : string :=
  match fuel with
  | O => acc
  | S f =>
      let d := ascii_of_N (48 + n mod 10)%N in
      let acc' := String d acc in
      if (n <? 10)%N then acc' else digitsAux f (n / 10)%N acc'
  end.

Definition showN (n : N) : string := digitsAux (S (N.to_nat (N.log2 n))) n EmptyString.

Definition showZ (z : Z) : string :=
  if z <? 0 then String "-"%char (showN (Z.to_N (- z))) else showN (Z.to_N z).

(** *** JSON.stringify on the values the ledger serialises *)

Definition hexDigit (n : N) : ascii :=
  if (n <? 10)%N then ascii_of_N (48 + n) else ascii_of_N (87 + n).

(** A string literal: quotes and backslashes are escaped, control characters
    are written with their short escape or as a four-digit code. *)
Fixpoint jsonEscape (s : string) : string :=
  match s with
  | EmptyString => EmptyString
  | String a r =>
      let c := N_of_ascii a in
      let rest := jsonEscape r in
      if (c =? 34)%N then String "\"%char (String a rest)
      else if (c =? 92)%N then String "\"%char (String a rest)
      else if (c =? 8)%N then String "\"%char (String "b"%char rest)
      else if (c =? 12)%N then String "\"%char (String "f"%char rest)
      else if (c =? 10)%N then String "\"%char (String "n"%char rest)
      else if (c =? 13)%N then String "\"%char (String "r"%char rest)
      else if (c =? 9)%N then String "\"%char (String "t"%char rest)
      else if (c <? 32)%N then
        String "\"%char (String "u"%char (String "0"%char (String "0"%char
          (String (hexDigit (c / 16)) (String (hexDigit (c mod 16)) rest)))))
      else String a rest
  end.

Definition dq : string := String (ascii_of_N 34) EmptyString.

Definition jsonString (s : string) : string := dq +:+ jsonEscape s +:+ dq.

Definition jsonOptString (s : option string) : string :=
  match s with Some v => jsonString v | None => "null" end.

Definition jsonOptNumber (z : option Z) : string :=
  match z with Some v => showZ v | None => "null" end.

(** One ["key":value] member and a whole object. *)
Definition jsonField (k v : string) : string := jsonString k +:+ ":" +:+ v.

Fixpoint jsonJoin (fs : list string) : string :=
  match fs with
  | [] => EmptyString
  | [f] => f
  | f :: r => f +:+ "," +:+ jsonJoin r
  end.

Definition jsonObject (fs : list (string * string)) : string :=
  "{" +:+ jsonJoin (map (fun kv => jsonField (fst kv) (snd kv)) fs) +:+ "}".

Definition jsonArray (vs : list string) : string := "[" +:+ jsonJoin vs +:+ "]".

(** [Buffer.byteLength]: the strings of the model are byte strings. *)
Definition byteLength (s : string) : Z := Z.of_nat (String.length s).

(** ** utils/crypto.js *)

(** The digest of node's crypto module, [createHash('sha256')...digest('hex')]. *)
Class Crypto := { sha256 : string -> string }.

Module CryptoUtils.
Section WithCrypto.
Context {crypto : Crypto}.

Definition doubleSha256 (data : string) : string := sha256 (sha256 data).

End WithCrypto.
End CryptoUtils.

(** ** SHA-256 (FIPS 180-4), the digest node computes

    Words are 32-bit integers held in [Z]; additions wrap around. *)
Module SHA256.

Definition mask32 : Z := 4294967295.
Definition add32 (x y : Z) : Z := Z.land (x + y) mask32.
Definition rotr (n x : Z) : Z :=
  Z.lor (Z.shiftr x n) (Z.land (Z.shiftl x (32 - n)) mask32).
Definition Ch (x y z : Z) : Z := Z.lxor (Z.land x y) (Z.land (Z.lxor x mask32) z).
Definition Maj (x y z : Z) : Z := Z.lxor (Z.lxor (Z.land x y) (Z.land x z)) (Z.land y z).
Definition bigSigma0 (x : Z) : Z := Z.lxor (Z.lxor (rotr 2 x) (rotr 13 x)) (rotr 22 x).
Definition bigSigma1 (x : Z) : Z := Z.lxor (Z.lxor (rotr 6 x) (rotr 11 x)) (rotr 25 x).
Definition smallSigma0 (x : Z) : Z := Z.lxor (Z.lxor (rotr 7 x) (rotr 18 x)) (Z.shiftr x 3).
Definition smallSigma1 (x : Z) : Z := Z.lxor (Z.lxor (rotr 17 x) (rotr 19 x)) (Z.shiftr x 10).

(** The round constants are the first 32 bits of the fractional parts of the
    cube roots of the first 64 primes; the initial state takes the square
    roots of the first 8. *)
Definition isPrime (n : nat) : bool :=
  forallb (fun d => negb (Nat.eqb (n mod d) 0)) (seq 2 (n - 2)).

Definition primes64 : list Z :=
  Eval vm_compute in map Z.of_nat (filter isPrime (seq 2 310)).

(** Largest [r] below [2^bits] with [r^3 <= n], found bit by bit. *)
Fixpoint cbrtBits (bits : nat) (n r : Z) : Z :=
  match bits with
  | O => r
  | S b =>
      let r' := r + 2 ^ Z.of_nat b in
      cbrtBits b n (if r' * r' * r' <=? n then r' else r)
  end.

Definition K : list Z :=
  Eval vm_compute in map (fun p => Z.land (cbrtBits 36 (p * 2 ^ 96) 0) mask32) primes64.

Definition H0 : list Z :=
  Eval vm_compute in map (fun p => Z.land (Z.sqrt (p * 2 ^ 64)) mask32) (firstn 8 primes64).

Definition bytesOf (s : string) : list Z :=
  map (fun a => Z.of_N (N_of_ascii a)) (list_ascii_of_string s).

(** The length in bits as eight big-endian bytes. *)
Definition lengthBytes (bits : Z) : list Z :=
  map (fun i => Z.land (Z.shiftr bits (8 * (7 - Z.of_nat i))) 255) (seq 0 8).

Definition pad (msg : list Z) : list Z :=
  let len := Z.of_nat (length msg) in
  let zeros := Z.to_nat ((55 - len) mod 64) in
  msg ++ [128] ++ repeat 0 zeros ++ lengthBytes (8 * len).

Fixpoint toWords (fuel : nat) (bs : list Z) : list Z :=
  match fuel, bs with
  | S f, a :: b :: c :: d :: r =>
      (Z.shiftl a 24 + Z.shiftl b 16 + Z.shiftl c 8 + d) :: toWords f r
  | _, _ => []
  end.

(** The message schedule, newest word first. *)
Fixpoint schedule (n : nat) (w : list Z) : list Z :=
  match n with
  | O => w
  | S n' =>
      let x := add32 (add32 (smallSigma1 (nth 1 w 0)) (nth 6 w 0))
                     (add32 (smallSigma0 (nth 14 w 0)) (nth 15 w 0)) in
      schedule n' (x :: w)
  end.

Record regs := Regs { ra : Z; rb : Z; rc : Z; rd : Z; re : Z; rf : Z; rg : Z; rh : Z }.

Definition round (s : regs) (kw : Z * Z) : regs :=
  let '(Regs a b c d e f g h) := s in
  let t1 := add32 (add32 (add32 h (bigSigma1 e)) (add32 (Ch e f g) (fst kw))) (snd kw) in
  let t2 := add32 (bigSigma0 a) (Maj a b c) in
  Regs (add32 t1 t2) a b c (add32 d t1) e f g.

Definition compress (s : regs) (block : list Z) : regs :=
  let w := rev (schedule 48 (rev block)) in
  let '(Regs a b c d e f g h) := fold_left round (combine K w) s in
  Regs (add32 (ra s) a) (add32 (rb s) b) (add32 (rc s) c) (add32 (rd s) d)
       (add32 (re s) e) (add32 (rf s) f) (add32 (rg s) g) (add32 (rh s) h).

Fixpoint blocks (fuel : nat) (s : regs) (ws : list Z) : regs :=
  match fuel, ws with
  | S f, _ :: _ => blocks f (compress s (firstn 16 ws)) (skipn 16 ws)
  | _, _ => s
  end.

Definition hexWord (w : Z) : string :=
  string_of_list_ascii
    (map (fun i => hexDigit (Z.to_N (Z.land (Z.shiftr w (4 * (7 - Z.of_nat i))) 15))) (seq 0 8)).

Definition initial : regs :=
  match H0 with
  | [a; b; c; d; e; f; g; h] => Regs a b c d e f g h
  | _ => Regs 0 0 0 0 0 0 0 0
  end.

Definition digest (s : string) : string :=
  let bs := pad (bytesOf s) in
  let ws := toWords (length bs) bs in
  let '(Regs a b c d e f g h) := blocks (length ws) initial ws in
  String.concat EmptyString (map hexWord [a; b; c; d; e; f; g; h]).

End SHA256.

(** The digest the program runs with. *)
Definition nodeCrypto : Crypto := {| sha256 := SHA256.digest |}.

(** ** utils/merkleTree.js and utils/enhancedMerkleTree.js

    The two classes differ in the node hash ([doubleSha256] for [MerkleTree],
    [sha256] for [EnhancedMerkleTree]) and in a few bookkeeping fields; the
    tree algorithms are the same text and are modelled once, over the node
    hash. *)
Module MerkleCore.
Section WithHash.
Variable H : string -> string.

(** A leaf that is not a string is replaced by the hash of its JSON text; the
    only such leaf the ledgers produce is the [null] hash of an unsigned
    transaction. *)
Definition leafOf (tx : option string) : string :=
  match tx with
  | Some h => h
  | None => H "null"
  end.

(** The inner [for] loop of [_buildTree]: nodes are hashed in pairs and a last
    node without a partner is paired with itself. *)
Fixpoint nextLevel (level : list string) : list string :=
  match level with
  | [] => []
  | [lft] => [H (lft +:+ lft)]
  | lft :: rgt :: rest => H (lft +:+ rgt) :: nextLevel rest
  end.

(** The [while (currentLevel.length > 1)] loop. *)
Fixpoint levelsFrom (fuel : nat) (currentLevel : list string) : list (list string) :=
  match fuel with
  | O => []
  | S f =>
      if (1 <? length currentLevel)%nat
      then let next := nextLevel currentLevel in next :: levelsFrom f next
      else []
  end.

Definition _buildTree (transactions : list (option string)) : list (list string) :=
  match transactions with
  | [] => []
  | _ =>
      let leaves := map leafOf transactions in
      leaves :: levelsFrom (length leaves) leaves
  end.

(** [tree.length > 0 ? tree[tree.length - 1][0] : null] *)
Definition rootOf (tree : list (list string)) : option string :=
  match last tree with
  | Some (h :: _) => Some h
  | _ => None
  end.

(** [array.findIndex(hash => hash === x)] *)
Fixpoint findIndex (x : string) (l : list string) : option nat :=
  match l with
  | [] => None
  | h :: r => if String.eqb h x then Some O else S <$> findIndex x r
  end.

(** A proof object: [path[i]] tells whether the node is a right child at level
    [i]; [siblings[i]] is whatever [tree[level][siblingIndex]] held, which is
    [undefined] ([None]) when the index is past the end of the level. *)
Record proof := Proof { path : list bool; siblings : list (option string) }.

(** The loop [for (level = 0; level < tree.length - 1; level++)] of [getProof]. *)
Fixpoint proofSteps (tree : list (list string)) (index : nat) : list (bool * option string) :=
  match tree with
  | [] => []
  | level :: upper =>
      match upper with
      | [] => []
      | _ :: _ =>
          let isRight := Nat.odd index in
          let siblingIndex := if isRight then (index - 1)%nat else (index + 1)%nat in
          (isRight, level !! siblingIndex) :: proofSteps upper (index / 2)%nat
      end
  end.

Definition getProof (tree : list (list string)) (transactionHash : string) : option proof :=
  match tree with
  | [] => None
  | leaves :: _ =>
      match findIndex transactionHash leaves with
      | None => None
      | Some index =>
          let steps := proofSteps tree index in
          Some (Proof (map fst steps) (map snd steps))
      end
  end.

(** String concatenation with a value that may be [undefined]. *)
Definition strOf (v : option string) : string :=
  match v with
  | Some s => s
  | None => "undefined"
  end.

(** The loop of [verifyProof]; [siblings[i]] past the end is [undefined] too. *)
Fixpoint verifySteps (path : list bool) (i : nat) (sibs : list (option string))
  (currentHash : string) : string :=
  match path with
  | [] => currentHash
  | isRight :: rest =>
      let sibling := strOf (mjoin (sibs !! i)) in
      verifySteps rest (S i) sibs
        (if isRight then H (sibling +:+ currentHash) else H (currentHash +:+ sibling))
  end.

Definition verifyProof (transactionHash : string) (p : proof) (root : option string) : bool :=
  match root with
  | Some r => String.eqb (verifySteps (path p) 0 (siblings p) transactionHash) r
  | None => false
  end.

End WithHash.
End MerkleCore.

Module MerkleTree.
Section WithCrypto.
Context {crypto : Crypto}.

Record t := Make {
  transactions : list (option string);
  tree : list (list string);
  root : option string
}.

Definition _buildTree := MerkleCore._buildTree CryptoUtils.doubleSha256.

Definition new (txs : list (option string)) : t :=
  let tr := _buildTree txs in
  Make txs tr (MerkleCore.rootOf tr).

Definition getRoot (m : t) : option string := root m.

Definition getProof (m : t) (transactionHash : string) : option MerkleCore.proof :=
  MerkleCore.getProof (tree m) transactionHash.

Definition verifyProof := MerkleCore.verifyProof CryptoUtils.doubleSha256.

Definition addTransaction (m : t) (transactionHash : string) : t :=
  new (transactions m ++ [Some transactionHash]).

End WithCrypto.
End MerkleTree.

Module EnhancedMerkleTree.
Section WithCrypto.
Context {crypto : Crypto}.

Record t := Make {
  transactions : list (option string);
  name : string;
  tree : list (list string);
  root : option string;
  leafCount : nat;
  height : nat
}.

Definition _buildTree := MerkleCore._buildTree sha256.

Definition new (txs : list (option string)) (nm : string) : t :=
  let tr := _buildTree txs in
  Make txs nm tr (MerkleCore.rootOf tr) (length txs) (length tr).

Definition getRoot (m : t) : option string := root m.

(** The proof object also records [leafIndex]; it plays no part in
    verification and is returned next to the proof. *)
Definition getProof (m : t) (transactionHash : string) : option (MerkleCore.proof * nat) :=
  match MerkleCore.getProof (tree m) transactionHash, tree m with
  | Some p, leaves :: _ =>
      match MerkleCore.findIndex transactionHash leaves with
      | Some i => Some (p, i)
      | None => None
      end
  | _, _ => None
  end.

(** A missing proof is refused before the loop. *)
Definition verifyProof (transactionHash : string) (p : option MerkleCore.proof)
  (r : option string) : bool :=
  match p with
  | Some pr => MerkleCore.verifyProof sha256 transactionHash pr r
  | None => false
  end.

Definition addTransaction (m : t) (transactionHash : string) : t :=
  new (transactions m ++ [Some transactionHash]) (name m).

(** [verifyTransactionInclusion]: [(found, valid)] *)
Definition verifyTransactionInclusion (m : t) (transactionHash : string) : bool * bool :=
  match getProof m transactionHash with
  | None => (false, false)
  | Some (p, _) => (true, verifyProof transactionHash (Some p) (root m))
  end.

End WithCrypto.
End EnhancedMerkleTree.

(** ** utils/bloomFilter.js and utils/enhancedBloomFilter.js *)

(** [parseInt(s, 16)] on the text of a digest: the value of the longest prefix
    of hexadecimal digits, [NaN] ([None]) when there is none.  (Signs, blanks
    and a [0x] prefix, which [parseInt] also accepts, do not occur in a
    digest.) *)
Definition hexValue (a : ascii) : option N :=
  let c := N_of_ascii a in
  if ((48 <=? c) && (c <=? 57))%N then Some (c - 48)%N
  else if ((97 <=? c) && (c <=? 102))%N then Some (c - 87)%N
  else if ((65 <=? c) && (c <=? 70))%N then Some (c - 55)%N
  else None.

Fixpoint parseHex (s : string) (acc : option N) : option N :=
  match s with
  | EmptyString => acc
  | String a r =>
      match hexValue a with
      | Some d => parseHex r (Some (16 * default 0%N acc + d)%N)
      | None => acc
      end
  end.

Definition parseInt16 (s : string) : option N := parseHex s None.

(** [x % size] on a number that may be [NaN]; the remainder by zero is [NaN]. *)
Definition jsRem (x : option N) (size : N) : option N :=
  match x with
  | Some n => if (size =? 0)%N then None else Some (n mod size)%N
  | None => None
  end.

(** A string operand that may be [null]. *)
Definition strOfNull (v : option string) : string :=
  match v with
  | Some s => s
  | None => "null"
  end.

(** The bit array is a JavaScript array: an object from property keys to
    values.  The keys the filter uses are array indices ([Some i]) and, when a
    position is not a number, the property [NaN] ([None]).  [new
    Array(size).fill(0)] holds [0] at every index below [size]. *)
Definition zeroArray (size : N) : gmap (option N) Z :=
  list_to_map (map (fun i => (Some (N.of_nat i), 0)) (seq 0 (N.to_nat size))).

Module BloomFilter.
Section WithCrypto.
Context {crypto : Crypto}.

Record t := Make {
  size : N;
  hashCount : nat;
  bitArray : gmap (option N) Z;
  itemCount : Z
}.

Definition new (sz : N) (k : nat) : t := Make sz k (zeroArray sz) 0.

Definition _getHashes (f : t) (item : option string) : list (option N) :=
  map (fun i =>
         let hash := sha256 (strOfNull item +:+ showN (N.of_nat i)) in
         let hashInt := parseInt16 (substring0 8 hash) in
         jsRem hashInt (size f))
      (seq 0 (hashCount f)).

Definition add (f : t) (item : option string) : t :=
  let hashes := _getHashes f item in
  Make (size f) (hashCount f)
       (fold_left (fun arr hash => <[hash := 1]> arr) hashes (bitArray f))
       (itemCount f + 1).

(** The loop returns [false] at the first position that holds [0]. *)
Definition mightContain (f : t) (item : option string) : bool :=
  forallb (fun hash => negb (bool_decide (bitArray f !! hash = Some 0)))
          (_getHashes f item).

End WithCrypto.
End BloomFilter.

Module EnhancedBloomFilter.
Section WithCrypto.
Context {crypto : Crypto}.

Record t := Make {
  size : N;
  hashCount : nat;
  bitArray : gmap (option N) Z;
  itemCount : Z;
  name : string;
  insertedItems : gset string
}.

Definition new (sz : N) (k : nat) (nm : string) : t := Make sz k (zeroArray sz) 0 nm ∅.

Definition _getHashes (f : t) (item : string) : list (option N) :=
  map (fun i =>
         let hash := sha256 (item +:+ showN (N.of_nat i) +:+ name f) in
         let hashInt := parseInt16 (substring0 8 hash) in
         jsRem hashInt (size f))
      (seq 0 (hashCount f)).

(** [add] refuses an item that is falsy or not a string and reports it. *)
Definition add (f : t) (item : option string) : bool * t :=
  match item with
  | Some (String _ _ as s) =>
      let hashes := _getHashes f s in
      (true,
       Make (size f) (hashCount f)
            (fold_left (fun arr hash => <[hash := 1]> arr) hashes (bitArray f))
            (itemCount f + 1) (name f) ({[ s ]} ∪ insertedItems f))
  | _ => (false, f)
  end.

Definition mightContain (f : t) (item : option string) : bool :=
  match item with
  | Some (String _ _ as s) =>
      forallb (fun hash => negb (bool_decide (bitArray f !! hash = Some 0)))
              (_getHashes f s)
  | _ => false
  end.

(** The flags of the result of [search]. *)
Record searchResult := SearchResult {
  r_mightContain : bool;
  r_actuallyInserted : bool;
  r_isFalsePositive : bool
}.

Definition search (f : t) (item : option string) : searchResult :=
  let mightContain := mightContain f item in
  let actuallyInserted :=
    match item with
    | Some s => bool_decide (s ∈ insertedItems f)
    | None => false
    end in
  SearchResult mightContain actuallyInserted (mightContain && negb actuallyInserted).

End WithCrypto.
End EnhancedBloomFilter.

(** ** models/transaction.js *)
Module Transaction.

Record t := Make {
  from : string;
  to : string;
  value : Z;
  gasLimit : Z;
  maxPriorityFeePerGas : Z;
  maxFeePerGas : Z;
  data : string;
  nonce : Z;
  type : Z;
  chainId : Z;
  hash : option string;
  signature : option string;
  v : option Z;
  r : option string;
  s : option string
}.

(** The parameters of the constructor; a number left out is [None].  Signing
    (the [privateKey] parameter) goes through node's RSA signer and fills
    [hash], [signature], [v], [r] and [s]; a signed transaction enters the
    model as a record with these fields given. *)
Record params := Params {
  p_from : string;
  p_to : string;
  p_value : option Z;
  p_gasLimit : option Z;
  p_maxPriorityFeePerGas : option Z;
  p_maxFeePerGas : option Z;
  p_data : option string;
  p_nonce : option Z
}.

(** [new Transaction(params)] without a private key. *)
Definition new (p : params) : t :=
  Make (p_from p) (p_to p)
       (orDefault (p_value p) 0)
       (orDefault (p_gasLimit p) 21000)
       (orDefault (p_maxPriorityFeePerGas p) 0)
       (orDefault (p_maxFeePerGas p) 0)
       (match p_data p with Some (String _ _ as d) => d | _ => EmptyString end)
       (orDefault (p_nonce p) 0)
       2 1 None None None None None.

(** The fee methods, read on exact integers.  [DoubleTransaction] below
    computes them in doubles as the source does; the two readings agree in
    the range of the exact integers ([getEffectiveGasPrice_exact],
    [getGasCost_exact], [isValidForBaseFee_exact]). *)
Definition getEffectiveGasPrice (tx : t) (baseFeePerGas : Z) : Z :=
  let priorityFeePerGas := Z.min (maxPriorityFeePerGas tx) (maxFeePerGas tx - baseFeePerGas) in
  baseFeePerGas + priorityFeePerGas.

Definition getGasCost (tx : t) (baseFeePerGas : Z) : Z :=
  let effectiveGasPrice := getEffectiveGasPrice tx baseFeePerGas in
  gasLimit tx * effectiveGasPrice.

Definition isValidForBaseFee (tx : t) (baseFeePerGas : Z) : bool :=
  let effectiveGasPrice := getEffectiveGasPrice tx baseFeePerGas in
  (effectiveGasPrice <=? maxFeePerGas tx) && (effectiveGasPrice >=? baseFeePerGas).

Definition getPriority (tx : t) (baseFeePerGas : Z) : Z :=
  let effectiveGasPrice := getEffectiveGasPrice tx baseFeePerGas in
  effectiveGasPrice - baseFeePerGas.

(** [JSON.stringify(tx.toJSON())] *)
Definition toJSON (tx : t) : string :=
  jsonObject
    [("hash", jsonOptString (hash tx));
     ("from", jsonString (from tx));
     ("to", jsonString (to tx));
     ("value", showZ (value tx));
     ("gasLimit", showZ (gasLimit tx));
     ("maxPriorityFeePerGas", showZ (maxPriorityFeePerGas tx));
     ("maxFeePerGas", showZ (maxFeePerGas tx));
     ("data", jsonString (data tx));
     ("nonce", showZ (nonce tx));
     ("type", showZ (type tx));
     ("chainId", showZ (chainId tx));
     ("v", jsonOptNumber (v tx));
     ("r", jsonOptString (r tx));
     ("s", jsonOptString (s tx));
     ("signature", jsonOptString (signature tx))].

End Transaction.

(** ** JavaScript numbers that may leave the integers

    A division by zero gives an infinity or [NaN]; [calculateNextBaseFee] is
    the one place of the ledger where that can happen. *)
Inductive num := Int (z : Z) | PosInfinity | NegInfinity | NaN.

(** [Math.floor(x / t / 8)] on integers [x] and [t], read on exact numbers:
    the quotient is taken in the rationals and floored once.  The doubles of
    the source give the same as long as [x] is below [2^53]
    ([floor_div_div8]). *)
Definition floorDiv8 (x t : Z) : num :=
  if t =? 0 then
    if 0 <? x then PosInfinity else if x <? 0 then NegInfinity else NaN
  else Int (Qfloor (Qdiv (Qdiv (inject_Z x) (inject_Z t)) (inject_Z 8))).

(** ** models/block.js *)
Module Block.
Section WithCrypto.
Context {crypto : Crypto}.

(** A block holds transaction objects or, in the form [_calculateMerkleRoot]
    also accepts, bare transaction hashes. *)
Inductive entry := TxHash (h : string) | TxObj (tx : Transaction.t).

Record t := Make {
  index : Z;
  previousHash : option string;
  transactions : list entry;
  timestamp : Z;
  difficulty : N;
  baseFeePerGas : Z;
  nonce : Z;
  hash : option string;
  merkleRoot : option string
}.

Record params := Params {
  p_index : Z;
  p_previousHash : option string;
  p_transactions : option (list entry);
  p_timestamp : option Z;
  p_difficulty : option N;
  p_baseFeePerGas : option Z
}.

(** [typeof tx === 'string' ? tx : tx.hash] *)
Definition entryHash (e : entry) : option string :=
  match e with
  | TxHash h => Some h
  | TxObj tx => Transaction.hash tx
  end.

Definition merkleRootOf (txs : list entry) : option string :=
  MerkleTree.getRoot (MerkleTree.new (map entryHash txs)).

Definition _calculateMerkleRoot (b : t) : t :=
  Make (index b) (previousHash b) (transactions b) (timestamp b) (difficulty b)
       (baseFeePerGas b) (nonce b) (hash b) (merkleRootOf (transactions b)).

(** [new Block(params)]; [now] is what [Date.now()] returns. *)
Definition new (now : Z) (p : params) : t :=
  _calculateMerkleRoot
    (Make (p_index p) (p_previousHash p)
          (default [] (p_transactions p))
          (orDefault (p_timestamp p) now)
          (match p_difficulty p with Some d => if (d =? 0)%N then 4%N else d | None => 4%N end)
          (orDefault (p_baseFeePerGas p) 0)
          0 None None).

Definition getBlockData (b : t) : string :=
  jsonObject
    [("index", showZ (index b));
     ("previousHash", jsonOptString (previousHash b));
     ("merkleRoot", jsonOptString (merkleRoot b));
     ("timestamp", showZ (timestamp b));
     ("difficulty", showN (difficulty b));
     ("baseFeePerGas", showZ (baseFeePerGas b));
     ("nonce", showZ (nonce b))].

Definition withHash (b : t) (h : option string) : t :=
  Make (index b) (previousHash b) (transactions b) (timestamp b) (difficulty b)
       (baseFeePerGas b) (nonce b) h (merkleRoot b).

Definition withNonce (b : t) (n : Z) : t :=
  Make (index b) (previousHash b) (transactions b) (timestamp b) (difficulty b)
       (baseFeePerGas b) n (hash b) (merkleRoot b).

(** The loop of [mine]: every attempt stores the digest in [hash]; a miss
    increments [nonce].  The result is what [mine] returns and the block as
    the loop leaves it. *)
Fixpoint mineLoop (attempts : nat) (b : t) : bool * t :=
  match attempts with
  | O => (false, b)
  | S n =>
      let h := CryptoUtils.doubleSha256 (getBlockData b) in
      let b' := withHash b (Some h) in
      if startsWith (repeat0 (difficulty b)) h then (true, b')
      else mineLoop n (withNonce b' (nonce b' + 1))
  end.

Definition defaultMaxAttempts : nat := Z.to_nat 1000000.

Definition mine (b : t) : bool * t := mineLoop defaultMaxAttempts b.

Definition verifyHash (b : t) : bool :=
  let calculatedHash := CryptoUtils.doubleSha256 (getBlockData b) in
  bool_decide (Some calculatedHash = hash b).

Definition verifyProofOfWork (b : t) : bool :=
  match hash b with
  | Some (String _ _ as h) => startsWith (repeat0 (difficulty b)) h
  | _ => false
  end.

Definition verifyMerkleRoot (b : t) : bool :=
  bool_decide (merkleRootOf (transactions b) = merkleRoot b).

Definition addTransaction (b : t) (transaction : Transaction.t) : t :=
  _calculateMerkleRoot
    (Make (index b) (previousHash b) (transactions b ++ [TxObj transaction]) (timestamp b)
          (difficulty b) (baseFeePerGas b) (nonce b) (hash b) (merkleRoot b)).

Definition getTotalGasUsed (b : t) : Z :=
  fold_left (fun total e =>
               let gasUsed := match e with TxObj tx => Transaction.gasLimit tx | TxHash _ => 21000 end in
               total + gasUsed)
            (transactions b) 0.

(** [calculateNextBaseFee], read on exact integers; [DoubleBlock] below
    computes it in doubles, and [calculateNextBaseFee_agrees] says where the
    two readings agree. *)
Definition calculateNextBaseFee (b : t) (targetGasUsed : Z) : num :=
  let gasUsed := getTotalGasUsed b in
  let currentBaseFee := baseFeePerGas b in
  if gasUsed =? targetGasUsed then Int currentBaseFee
  else if targetGasUsed <? gasUsed then
    match floorDiv8 (currentBaseFee * (gasUsed - targetGasUsed)) targetGasUsed with
    | Int increase => Int (currentBaseFee + increase)
    | other => other
    end
  else
    match floorDiv8 (currentBaseFee * (targetGasUsed - gasUsed)) targetGasUsed with
    | Int decrease => Int (Z.max 0 (currentBaseFee - decrease))
    | PosInfinity => Int 0
    | NegInfinity => PosInfinity
    | NaN => NaN
    end.

End WithCrypto.
End Block.

(** ** The result of a ledger call

    A call returns a value and leaves a state, or throws (a [TypeError] on a
    missing object) and leaves the state it had reached. *)
Inductive outcome (S A : Type) :=
| Returned (a : A) (s : S)
| Threw (s : S).
Arguments Returned {S A} a s.
Arguments Threw {S A} s.

(** A JavaScript [Map] keeps its entries in insertion order; the mempool is
    iterated in that order, so it is kept as an association list with at most
    one entry for a key. *)
Section JsMap.
Context {K V : Type} `{EqDecision K}.

Definition mapHas (k : K) (m : list (K * V)) : bool :=
  existsb (fun kv => bool_decide (fst kv = k)) m.

Fixpoint mapSet (k : K) (x : V) (m : list (K * V)) : list (K * V) :=
  match m with
  | [] => [(k, x)]
  | (k', y) :: r => if decide (k' = k) then (k, x) :: r else (k', y) :: mapSet k x r
  end.

Definition mapDelete (k : K) (m : list (K * V)) : list (K * V) :=
  filter (fun kv => fst kv ≠ k) m.

Definition mapValues (m : list (K * V)) : list V := map snd m.

(** [map.get(k)]: [undefined] ([None]) on an absent key. *)
Definition mapGet (k : K) (m : list (K * V)) : option V :=
  snd <$> find (fun kv => bool_decide (fst kv = k)) m.

End JsMap.

(** ** blockchain.js *)
Module Blockchain.
Section WithCrypto.
Context {crypto : Crypto}.

Record t := Make {
  chain : list Block.t;
  pendingTransactions : list Transaction.t;
  mempool : list (option string * Transaction.t);
  utxoSet : gmap string Z;
  difficulty : N;
  miningReward : Z;
  blockTime : Z;
  maxBlockSize : Z;
  maxTransactionsPerBlock : Z;
  baseFeePerGas : Z;
  targetGasUsed : Z;
  bloomFilter : BloomFilter.t
}.

Record config := Config {
  c_difficulty : option N;
  c_miningReward : option Z;
  c_blockTime : option Z;
  c_maxBlockSize : option Z;
  c_maxTransactionsPerBlock : option Z;
  c_baseFeePerGas : option Z;
  c_targetGasUsed : option Z
}.

Definition systemAddress : string := "0x0000000000000000000000000000000000000000".

Definition withChain (bc : t) (c : list Block.t) : t :=
  Make c (pendingTransactions bc) (mempool bc) (utxoSet bc) (difficulty bc) (miningReward bc)
       (blockTime bc) (maxBlockSize bc) (maxTransactionsPerBlock bc) (baseFeePerGas bc)
       (targetGasUsed bc) (bloomFilter bc).

Definition withUtxoSet (bc : t) (u : gmap string Z) : t :=
  Make (chain bc) (pendingTransactions bc) (mempool bc) u (difficulty bc) (miningReward bc)
       (blockTime bc) (maxBlockSize bc) (maxTransactionsPerBlock bc) (baseFeePerGas bc)
       (targetGasUsed bc) (bloomFilter bc).

Definition withPool (bc : t) (p : list Transaction.t) (m : list (option string * Transaction.t))
  (f : BloomFilter.t) : t :=
  Make (chain bc) p m (utxoSet bc) (difficulty bc) (miningReward bc)
       (blockTime bc) (maxBlockSize bc) (maxTransactionsPerBlock bc) (baseFeePerGas bc)
       (targetGasUsed bc) f.

(** [_createGenesisBlock]: the block is pushed whatever [mine] returns. *)
Definition _createGenesisBlock (now : Z) (bc : t) : t :=
  let genesisBlock :=
    Block.new now
      (Block.Params 0 (Some (repeat0 64)) (Some []) (Some now) (Some (difficulty bc))
                    (Some (baseFeePerGas bc))) in
  withChain bc (chain bc ++ [snd (Block.mine genesisBlock)]).

(** [new Blockchain(config)] *)
Definition new (now : Z) (c : config) : t :=
  _createGenesisBlock now
    (Make [] [] [] ∅
          (match c_difficulty c with Some d => if (d =? 0)%N then 4%N else d | None => 4%N end)
          (orDefault (c_miningReward c) 50)
          (orDefault (c_blockTime c) 60000)
          (orDefault (c_maxBlockSize c) 1000000)
          (orDefault (c_maxTransactionsPerBlock c) 1000)
          (orDefault (c_baseFeePerGas c) 0)
          (orDefault (c_targetGasUsed c) 15000000)
          (BloomFilter.new 1024 3)).

(** [chain[chain.length - 1]], [undefined] on an empty chain. *)
Definition getLatestBlock (bc : t) : option Block.t := last (chain bc).

(** [utxoSet.get(address) || 0] *)
Definition getBalance (bc : t) (address : string) : Z :=
  orDefault (utxoSet bc !! address) 0.

Definition _validateTransaction (bc : t) (transaction : Transaction.t) : bool :=
  if falsyStr (Transaction.signature transaction) then false
  else
    let senderBalance := getBalance bc (Transaction.from transaction) in
    let totalCost :=
      Transaction.value transaction + Transaction.getGasCost transaction (baseFeePerGas bc) in
    if senderBalance <? totalCost then false
    else if (0 <? baseFeePerGas bc)
            && negb (Transaction.isValidForBaseFee transaction (baseFeePerGas bc))
    then false
    else true.

(** [addTransaction]: the last statement logs [transaction.hash.substring],
    which throws on a [null] hash after the pool has been updated. *)
Definition addTransaction (bc : t) (transaction : Transaction.t) : outcome t bool :=
  if negb (_validateTransaction bc transaction) then Returned false bc
  else if mapHas (Transaction.hash transaction) (mempool bc) then Returned false bc
  else
    let bc' :=
      withPool bc
        (pendingTransactions bc ++ [transaction])
        (mapSet (Transaction.hash transaction) transaction (mempool bc))
        (BloomFilter.add (bloomFilter bc) (Transaction.hash transaction)) in
    match Transaction.hash transaction with
    | Some _ => Returned true bc'
    | None => Threw bc'
    end.

(** [Array.prototype.sort] with the comparator [priorityB - priorityA]: a
    stable sort by decreasing priority. *)
Fixpoint insertByPriority (base : Z) (tx : Transaction.t) (sorted : list Transaction.t)
  : list Transaction.t :=
  match sorted with
  | [] => [tx]
  | a :: rest =>
      if Transaction.getPriority a base <? Transaction.getPriority tx base
      then tx :: a :: rest
      else a :: insertByPriority base tx rest
  end.

Definition sortByPriority (base : Z) (txs : list Transaction.t) : list Transaction.t :=
  fold_left (fun sorted tx => insertByPriority base tx sorted) txs [].

Definition txSize (tx : Transaction.t) : Z := byteLength (Transaction.toJSON tx).

(** The selection loop; [selected] is kept in push order. *)
Fixpoint selectLoop (bc : t) (transactions selected : list Transaction.t)
  (totalSize totalGas : Z) : list Transaction.t :=
  match transactions with
  | [] => selected
  | tx :: rest =>
      let gasUsed := Transaction.gasLimit tx in
      if (totalSize + txSize tx <=? maxBlockSize bc)
         && (totalGas + gasUsed <=? targetGasUsed bc)
         && (Z.of_nat (length selected) <? maxTransactionsPerBlock bc)
      then selectLoop bc rest (selected ++ [tx]) (totalSize + txSize tx) (totalGas + gasUsed)
      else selectLoop bc rest selected totalSize totalGas
  end.

Definition _selectTransactionsForBlock (bc : t) : list Transaction.t :=
  let transactions := sortByPriority (baseFeePerGas bc) (mapValues (mempool bc)) in
  selectLoop bc transactions [] 0 0.

Definition _validateBlock (bc : t) (latestBlock block : Block.t) : bool :=
  if negb (Block.index block =? Block.index latestBlock + 1) then false
  else if negb (bool_decide (Block.previousHash block = Block.hash latestBlock)) then false
  else if negb (Block.verifyProofOfWork block) then false
  else if negb (Block.verifyHash block) then false
  else if negb (Block.verifyMerkleRoot block) then false
  else true.

(** [addBlock]; the latest block is the one [_validateBlock] reads. *)
Definition addBlock (bc : t) (latestBlock block : Block.t) : bool * t :=
  if negb (_validateBlock bc latestBlock block) then (false, bc)
  else (true, withChain bc (chain bc ++ [block])).

(** [_updateUTXOSet]: a bare hash in the block has no [getGasCost] to call and
    the loop throws there; the flag tells whether the loop ran to its end. *)
Fixpoint updateLoop (base : Z) (txs : list Block.entry) (u : gmap string Z)
  : gmap string Z * bool :=
  match txs with
  | [] => (u, true)
  | Block.TxHash _ :: _ => (u, false)
  | Block.TxObj tx :: rest =>
      let u1 :=
        if bool_decide (Transaction.from tx ≠ systemAddress) then
          let senderBalance := orDefault (u !! Transaction.from tx) 0 in
          let totalCost := Transaction.value tx + Transaction.getGasCost tx base in
          <[Transaction.from tx := senderBalance - totalCost]> u
        else u in
      let recipientBalance := orDefault (u1 !! Transaction.to tx) 0 in
      updateLoop base rest (<[Transaction.to tx := recipientBalance + Transaction.value tx]> u1)
  end.

Definition _updateUTXOSet (bc : t) (block : Block.t) : t * bool :=
  let '(u, finished) :=
    updateLoop (Block.baseFeePerGas block) (Block.transactions block) (utxoSet bc) in
  (withUtxoSet bc u, finished).

(** [pendingTransactions.splice(index, 1)] at the first entry with the hash. *)
Fixpoint removeFirst (h : option string) (pending : list Transaction.t) : list Transaction.t :=
  match pending with
  | [] => []
  | tx :: rest =>
      if bool_decide (Transaction.hash tx = h) then rest else tx :: removeFirst h rest
  end.

Definition _removeMinedTransactions (bc : t) (minedTransactions : list Transaction.t) : t :=
  fold_left (fun s tx =>
               withPool s
                 (removeFirst (Transaction.hash tx) (pendingTransactions s))
                 (mapDelete (Transaction.hash tx) (mempool s))
                 (bloomFilter s))
            minedTransactions bc.

Definition rewardTransaction (bc : t) (minerAddress : string) : Transaction.t :=
  Transaction.new
    (Transaction.Params systemAddress minerAddress (Some (miningReward bc))
                        (Some 0) (Some 0) (Some 0) None (Some 0)).

(** The base fee the new block is created with: [params.baseFeePerGas || 0]
    maps [NaN] to [0]. *)
Definition feeOf (n : num) : option Z :=
  match n with
  | Int z => Some z
  | NaN => Some 0
  | _ => None
  end.

(** The block [mineBlock] assembles before mining. *)
Definition candidateBlock (now : Z) (bc : t) (latestBlock : Block.t) : Block.t :=
  let hasTransactions := (0 <? length (pendingTransactions bc))%nat in
  let nextBaseFee := Block.calculateNextBaseFee latestBlock (targetGasUsed bc) in
  let selectedTransactions :=
    if hasTransactions then _selectTransactionsForBlock bc else [] in
  Block.new now
    (Block.Params (Block.index latestBlock + 1) (Block.hash latestBlock)
                  (Some (map Block.TxObj selectedTransactions)) (Some now)
                  (Some (difficulty bc)) (feeOf nextBaseFee)).

(** [mineBlock(minerAddress)].  The array [selectedTransactions] is the very
    array the block holds, so the reward transaction pushed onto the block is
    also in the list handed to [_removeMinedTransactions]. *)
Definition mineBlock (now : Z) (bc : t) (minerAddress : string) : outcome t (option Block.t) :=
  let hasTransactions := (0 <? length (pendingTransactions bc))%nat in
  match getLatestBlock bc with
  | None => Threw bc
  | Some latestBlock =>
      let selectedTransactions :=
        if hasTransactions then _selectTransactionsForBlock bc else [] in
      let '(mined, newBlock0) := Block.mine (candidateBlock now bc latestBlock) in
      if mined then
        let reward := rewardTransaction bc minerAddress in
        let newBlock := Block.addTransaction newBlock0 reward in
        let bc1 := snd (addBlock bc latestBlock newBlock) in
        let '(bc2, finished) := _updateUTXOSet bc1 newBlock in
        if finished then
          let bc3 :=
            if hasTransactions
            then _removeMinedTransactions bc2 (selectedTransactions ++ [reward])
            else bc2 in
          Returned (Some newBlock) bc3
        else Threw bc2
      else Returned None bc
  end.

(** The loop of [isChainValid] from block [i] on, [previousBlock] being
    [chain[i - 1]]. *)
Fixpoint validFrom (previousBlock : Block.t) (rest : list Block.t) : bool :=
  match rest with
  | [] => true
  | currentBlock :: rest' =>
      if negb (bool_decide (Block.previousHash currentBlock = Block.hash previousBlock))
      then false
      else if negb (Block.verifyHash currentBlock) then false
      else if negb (Block.verifyProofOfWork currentBlock) then false
      else validFrom currentBlock rest'
  end.

Definition isChainValid (bc : t) : bool :=
  match chain bc with
  | [] => true
  | first :: rest => validFrom first rest
  end.

(** The transaction objects of a block; a bare hash has no [hash] property
    and never equals the hash looked for. *)
Definition objectsOf (b : Block.t) : list Transaction.t :=
  flat_map (fun e => match e with Block.TxObj tx => [tx] | Block.TxHash _ => [] end)
           (Block.transactions b).

(** [getTransaction(hash)]: the mempool first, then the blocks in order. *)
Definition getTransaction (bc : t) (hash : option string) : option Transaction.t :=
  if mapHas hash (mempool bc) then mapGet hash (mempool bc)
  else find (fun tx => bool_decide (Transaction.hash tx = hash))
            (flat_map objectsOf (chain bc)).

Definition mightContainTransaction (bc : t) (hash : option string) : bool :=
  BloomFilter.mightContain (bloomFilter bc) hash.

End WithCrypto.
End Blockchain.

(** ** models/enhancedTransaction.js *)
Module EnhancedTransaction.
Section WithCrypto.
Context {crypto : Crypto}.

Record t := Make {
  from : string;
  to : string;
  value : Z;
  baseFee : Z;
  priorityFee : Z;
  nonce : Z;
  data : string;
  witness : option string;
  hash : option string;
  witnessHash : option string;
  totalCost : Z
}.

(** The parameters of the constructor without the private key (see
    [Transaction.params]). *)
Record params := Params {
  p_from : string;
  p_to : string;
  p_value : option Z;
  p_baseFee : option Z;
  p_priorityFee : option Z;
  p_nonce : option Z;
  p_data : option string
}.

Definition _hash (d : string) : string := sha256 d.

Definition signMessageOf (f t' : string) (v bf pf n : Z) (d : string) (tc : Z) : string :=
  jsonObject
    [("from", jsonString f);
     ("to", jsonString t');
     ("value", showZ v);
     ("baseFee", showZ bf);
     ("priorityFee", showZ pf);
     ("nonce", showZ n);
     ("data", jsonString d);
     ("totalCost", showZ tc)].

Definition _getSignMessage (tx : t) : string :=
  signMessageOf (from tx) (to tx) (value tx) (baseFee tx) (priorityFee tx) (nonce tx)
                (data tx) (totalCost tx).

(** [new EnhancedTransaction(params)] without a private key: the hash is the
    witness hash. *)
Definition new (p : params) : t :=
  let v := orDefault (p_value p) 0 in
  let bf := orDefault (p_baseFee p) 2 in
  let pf := orDefault (p_priorityFee p) 3 in
  let n := orDefault (p_nonce p) 0 in
  let d := match p_data p with Some (String _ _ as d) => d | _ => EmptyString end in
  let tc := v + bf + pf in
  let wh := _hash (signMessageOf (p_from p) (p_to p) v bf pf n d tc) in
  Make (p_from p) (p_to p) v bf pf n d None (Some wh) (Some wh) tc.

(** [JSON.stringify(tx.getWitnessTransaction())] *)
Definition getWitnessTransaction (tx : t) : string :=
  jsonObject
    [("from", jsonString (from tx));
     ("to", jsonString (to tx));
     ("value", showZ (value tx));
     ("baseFee", showZ (baseFee tx));
     ("priorityFee", showZ (priorityFee tx));
     ("nonce", showZ (nonce tx));
     ("data", jsonString (data tx));
     ("totalCost", showZ (totalCost tx));
     ("witnessHash", jsonOptString (witnessHash tx))].

Inductive validationError := InsufficientBalance | NonPositiveValue | InvalidAddresses.

(** The properties every object inherits from [Object.prototype]. *)
Definition objectPrototypeNames : list string :=
  ["constructor"; "__defineGetter__"; "__defineSetter__"; "hasOwnProperty";
   "__lookupGetter__"; "__lookupSetter__"; "isPrototypeOf"; "propertyIsEnumerable";
   "toString"; "valueOf"; "__proto__"; "toLocaleString"].

(** [senderBalance < this.totalCost] with [senderBalance] read as
    [balances[this.from] || 0] on the plain object the ledger passes,
    [Object.fromEntries(this.balances)].  A sender with an entry has that
    balance.  A sender without one has 0, unless its name is a property of
    [Object.prototype]: then a function is read (for ["__proto__"] the
    prototype itself), which is truthy and compares as [NaN], and the
    comparison is false. *)
Definition insufficientBalance (tx : t) (balances : gmap string Z) : bool :=
  match balances !! from tx with
  | Some v => orDefault (Some v) 0 <? totalCost tx
  | None =>
      if bool_decide (from tx ∈ objectPrototypeNames) then false
      else 0 <? totalCost tx
  end.

(** The [errors] array of [validate(balances)]; [isValid] is its emptiness.
    (The warnings do not enter any decision.) *)
Definition validateErrors (tx : t) (balances : gmap string Z) : list validationError :=
  (if insufficientBalance tx balances then [InsufficientBalance] else [])
  ++ (if value tx <=? 0 then [NonPositiveValue] else [])
  ++ (if falsyStr (Some (from tx)) || falsyStr (Some (to tx)) then [InvalidAddresses] else []).

Definition isValid (tx : t) (balances : gmap string Z) : bool :=
  match validateErrors tx balances with
  | [] => true
  | _ => false
  end.

Definition withHash (tx : t) (h : option string) : t :=
  Make (from tx) (to tx) (value tx) (baseFee tx) (priorityFee tx) (nonce tx) (data tx)
       (witness tx) h (witnessHash tx) (totalCost tx).

End WithCrypto.
End EnhancedTransaction.

(** ** models/enhancedBlock.js *)
Module EnhancedBlock.
Section WithCrypto.
Context {crypto : Crypto}.

Record t := Make {
  index : Z;
  previousHash : option string;
  transactions : list EnhancedTransaction.t;
  timestamp : Z;
  difficulty : N;
  minerAddress : string;
  witnessData : list (nat * string);
  witnessMerkleRoot : option string;
  nonce : Z;
  hash : option string;
  merkleRoot : option string;
  totalBaseFees : Z;
  totalPriorityFees : Z;
  blockReward : Z
}.

Record params := Params {
  p_index : Z;
  p_previousHash : option string;
  p_transactions : option (list EnhancedTransaction.t);
  p_timestamp : option Z;
  p_difficulty : option N;
  p_minerAddress : string
}.

(** The witness entries: [(transactionIndex, witness)] for every transaction
    with a truthy witness. *)
Fixpoint witnessEntries (i : nat) (txs : list EnhancedTransaction.t) : list (nat * string) :=
  match txs with
  | [] => []
  | tx :: rest =>
      match EnhancedTransaction.witness tx with
      | Some (String _ _ as w) => (i, w) :: witnessEntries (S i) rest
      | _ => witnessEntries (S i) rest
      end
  end.

(** [x || 0] on a number *)
Definition orZero (x : Z) : Z := orDefault (Some x) 0.

Definition sumBaseFees (txs : list EnhancedTransaction.t) : Z :=
  fold_left (fun acc tx => acc + orZero (EnhancedTransaction.baseFee tx)) txs 0.

Definition sumPriorityFees (txs : list EnhancedTransaction.t) : Z :=
  fold_left (fun acc tx => acc + orZero (EnhancedTransaction.priorityFee tx)) txs 0.

(** [_processTransactions]: more than four transactions are cut to the first
    four, then the witness data and the fee totals are rebuilt. *)
Definition _processTransactions (b : t) : t :=
  let txs :=
    if (4 <? length (transactions b))%nat then firstn 4 (transactions b) else transactions b in
  Make (index b) (previousHash b) txs (timestamp b) (difficulty b) (minerAddress b)
       (witnessEntries 0 txs) (witnessMerkleRoot b) (nonce b) (hash b) (merkleRoot b)
       (sumBaseFees txs) (sumPriorityFees txs) (blockReward b).

(** [tx.witnessHash || tx.hash] *)
Definition witnessLeaf (tx : EnhancedTransaction.t) : option string :=
  if falsyStr (EnhancedTransaction.witnessHash tx) then EnhancedTransaction.hash tx
  else EnhancedTransaction.witnessHash tx.

Definition witnessRootOf (txs : list EnhancedTransaction.t) : option string :=
  EnhancedMerkleTree.getRoot (EnhancedMerkleTree.new (map witnessLeaf txs) EmptyString).

Definition transactionRootOf (txs : list EnhancedTransaction.t) : option string :=
  EnhancedMerkleTree.getRoot
    (EnhancedMerkleTree.new (map EnhancedTransaction.hash txs) EmptyString).

Definition _calculateMerkleRoots (b : t) : t :=
  Make (index b) (previousHash b) (transactions b) (timestamp b) (difficulty b)
       (minerAddress b) (witnessData b) (witnessRootOf (transactions b)) (nonce b) (hash b)
       (transactionRootOf (transactions b))
       (totalBaseFees b) (totalPriorityFees b) (blockReward b).

(** [new EnhancedBlock(params)] *)
Definition new (now : Z) (p : params) : t :=
  _calculateMerkleRoots
    (_processTransactions
       (Make (p_index p) (p_previousHash p)
             (default [] (p_transactions p))
             (orDefault (p_timestamp p) now)
             (match p_difficulty p with Some d => if (d =? 0)%N then 2%N else d | None => 2%N end)
             (p_minerAddress p)
             [] None 0 None None 0 0 50)).

Definition getBlockData (b : t) : string :=
  jsonObject
    [("index", showZ (index b));
     ("previousHash", jsonOptString (previousHash b));
     ("witnessMerkleRoot", jsonOptString (witnessMerkleRoot b));
     ("transactionMerkleRoot", jsonOptString (merkleRoot b));
     ("timestamp", showZ (timestamp b));
     ("difficulty", showN (difficulty b));
     ("minerAddress", jsonString (minerAddress b));
     ("nonce", showZ (nonce b));
     ("totalBaseFees", showZ (totalBaseFees b));
     ("totalPriorityFees", showZ (totalPriorityFees b));
     ("blockReward", showZ (blockReward b))].

Definition withHash (b : t) (h : option string) : t :=
  Make (index b) (previousHash b) (transactions b) (timestamp b) (difficulty b)
       (minerAddress b) (witnessData b) (witnessMerkleRoot b) (nonce b) h (merkleRoot b)
       (totalBaseFees b) (totalPriorityFees b) (blockReward b).

Definition withNonce (b : t) (n : Z) : t :=
  Make (index b) (previousHash b) (transactions b) (timestamp b) (difficulty b)
       (minerAddress b) (witnessData b) (witnessMerkleRoot b) n (hash b) (merkleRoot b)
       (totalBaseFees b) (totalPriorityFees b) (blockReward b).

Fixpoint mineLoop (attempts : nat) (b : t) : bool * t :=
  match attempts with
  | O => (false, b)
  | S n =>
      let h := sha256 (getBlockData b) in
      let b' := withHash b (Some h) in
      if startsWith (repeat0 (difficulty b)) h then (true, b')
      else mineLoop n (withNonce b' (nonce b' + 1))
  end.

Definition mine (b : t) : bool * t := mineLoop Block.defaultMaxAttempts b.

Definition verifyHash (b : t) : bool :=
  bool_decide (Some (sha256 (getBlockData b)) = hash b).

Definition verifyProofOfWork (b : t) : bool :=
  match hash b with
  | Some (String _ _ as h) => startsWith (repeat0 (difficulty b)) h
  | _ => false
  end.

Definition verifyMerkleRoots (b : t) : bool :=
  bool_decide (witnessRootOf (transactions b) = witnessMerkleRoot b)
  && bool_decide (transactionRootOf (transactions b) = merkleRoot b).

(** [addTransaction]: a block that already has four transactions refuses. *)
Definition addTransaction (b : t) (transaction : EnhancedTransaction.t) : bool * t :=
  if (4 <=? length (transactions b))%nat then (false, b)
  else
    (true,
     _calculateMerkleRoots
       (_processTransactions
          (Make (index b) (previousHash b) (transactions b ++ [transaction]) (timestamp b)
                (difficulty b) (minerAddress b) (witnessData b) (witnessMerkleRoot b)
                (nonce b) (hash b) (merkleRoot b)
                (totalBaseFees b) (totalPriorityFees b) (blockReward b)))).

Record fees := Fees {
  f_totalBaseFees : Z;
  f_totalPriorityFees : Z;
  f_blockReward : Z;
  f_totalMinerReward : Z;
  f_totalBurned : Z
}.

Definition getFees (b : t) : fees :=
  Fees (totalBaseFees b) (totalPriorityFees b) (blockReward b)
       (totalPriorityFees b + blockReward b) (totalBaseFees b).

End WithCrypto.
End EnhancedBlock.

(** ** enhancedBlockchain.js

    The ledger state.  The registry of light wallets, which [mineBlock] only
    notifies and never reads, is left out of the state. *)
Module EnhancedBlockchain.
Section WithCrypto.
Context {crypto : Crypto}.

Record t := Make {
  chain : list EnhancedBlock.t;
  pendingTransactions : list EnhancedTransaction.t;
  mempool : list (option string * EnhancedTransaction.t);
  balances : gmap string Z;
  nonces : gmap string Z;
  difficulty : N;
  blockReward : Z;
  initialBalance : Z;
  maxTransactionsPerBlock : nat;
  bloomFilter : EnhancedBloomFilter.t;
  merkleTree : EnhancedMerkleTree.t;
  totalCoinsBurned : Z;
  totalCoinsMined : Z;
  totalCoinsInNetwork : Z;
  wallets : gmap string Z
}.

Record config := Config {
  c_difficulty : option N;
  c_blockReward : option Z;
  c_initialBalance : option Z
}.

Definition systemAddress : string := "0x0000000000000000000000000000000000000000".

Definition walletAddresses : list string :=
  [ "0x1111111111111111111111111111111111111111";
    "0x2222222222222222222222222222222222222222";
    "0x3333333333333333333333333333333333333333";
    "0x4444444444444444444444444444444444444444";
    "0x5555555555555555555555555555555555555555";
    "0x6666666666666666666666666666666666666666";
    "0x7777777777777777777777777777777777777777";
    "0x8888888888888888888888888888888888888888";
    "0x9999999999999999999999999999999999999999";
    "0xaaaaaaaaaaaaaaaaaaaaaaaaaaaaaaaaaaaaaaaa" ].

(** [_initializeWallets] *)
Definition _initializeWallets (bc : t) : t :=
  let init (v : Z) (m : gmap string Z) : gmap string Z :=
    fold_left (fun acc address => <[address := v]> acc) walletAddresses m in
  let total := Z.of_nat (length walletAddresses) * initialBalance bc in
  Make (chain bc) (pendingTransactions bc) (mempool bc)
       (init (initialBalance bc) (balances bc)) (init 0 (nonces bc))
       (difficulty bc) (blockReward bc) (initialBalance bc) (maxTransactionsPerBlock bc)
       (bloomFilter bc) (merkleTree bc)
       (totalCoinsBurned bc) total total
       (init (initialBalance bc) (wallets bc)).

Definition withChain (bc : t) (c : list EnhancedBlock.t) : t :=
  Make c (pendingTransactions bc) (mempool bc) (balances bc) (nonces bc)
       (difficulty bc) (blockReward bc) (initialBalance bc) (maxTransactionsPerBlock bc)
       (bloomFilter bc) (merkleTree bc)
       (totalCoinsBurned bc) (totalCoinsMined bc) (totalCoinsInNetwork bc) (wallets bc).

(** [_createGenesisBlock]: pushed whatever [mine] returns. *)
Definition _createGenesisBlock (now : Z) (bc : t) : t :=
  let genesisBlock :=
    EnhancedBlock.new now
      (EnhancedBlock.Params 0 (Some "0") (Some []) (Some now) (Some (difficulty bc))
                            systemAddress) in
  withChain bc (chain bc ++ [snd (EnhancedBlock.mine genesisBlock)]).

Definition getLatestBlock (bc : t) : option EnhancedBlock.t := last (chain bc).

(** [balances.get(address) || 0] *)
Definition getBalance (bc : t) (address : string) : Z :=
  orDefault (balances bc !! address) 0.

(** The nonce the ledger expects next from a sender: [nonces.get(from) || 0]. *)
Definition expectedNonce (bc : t) (sender : string) : Z :=
  orDefault (nonces bc !! sender) 0.

(** [if (!transaction.hash) transaction.hash = sha256(...)] *)
Definition ensureHash (transaction : EnhancedTransaction.t) : EnhancedTransaction.t :=
  if falsyStr (EnhancedTransaction.hash transaction)
  then EnhancedTransaction.withHash transaction
         (Some (sha256 (EnhancedTransaction.getWitnessTransaction transaction)))
  else transaction.

Definition addTransaction (bc : t) (transaction : EnhancedTransaction.t) : bool * t :=
  if negb (EnhancedTransaction.isValid transaction (balances bc)) then (false, bc)
  else
    let expected := expectedNonce bc (EnhancedTransaction.from transaction) in
    if negb (EnhancedTransaction.nonce transaction =? expected) then (false, bc)
    else
      let tx := ensureHash transaction in
      (true,
       Make (chain bc)
            (pendingTransactions bc ++ [tx])
            (mapSet (EnhancedTransaction.hash tx) tx (mempool bc))
            (balances bc)
            (<[EnhancedTransaction.from tx := expected + 1]> (nonces bc))
            (difficulty bc) (blockReward bc) (initialBalance bc) (maxTransactionsPerBlock bc)
            (snd (EnhancedBloomFilter.add (bloomFilter bc) (EnhancedTransaction.hash tx)))
            (merkleTree bc)
            (totalCoinsBurned bc) (totalCoinsMined bc) (totalCoinsInNetwork bc) (wallets bc)).

(** [_loadInitialTransactions]: every entry of the seed file is built without
    a private key and submitted. *)
Definition _loadInitialTransactions (seed : list EnhancedTransaction.params) (bc : t) : t :=
  fold_left (fun s txData => snd (addTransaction s (EnhancedTransaction.new txData))) seed bc.

(** [new EnhancedBlockchain(config)]; [seed] is the content of the file of
    initial transactions. *)
Definition new (now : Z) (c : config) (seed : list EnhancedTransaction.params) : t :=
  _loadInitialTransactions seed
    (_createGenesisBlock now
       (_initializeWallets
          (Make [] [] [] ∅ ∅
                (match c_difficulty c with Some d => if (d =? 0)%N then 2%N else d | None => 2%N end)
                (orDefault (c_blockReward c) 50)
                (orDefault (c_initialBalance c) 300)
                4
                (EnhancedBloomFilter.new 4096 5 "BlockchainBloomFilter")
                (EnhancedMerkleTree.new [] "BlockchainMerkleTree")
                0 0 0 ∅))).

(** The body of the [forEach] of [_updateBalances] for one transaction. *)
Definition applyTransaction (bw : gmap string Z * gmap string Z) (tx : EnhancedTransaction.t)
  : gmap string Z * gmap string Z :=
  let '(b, w) := bw in
  let senderBalance := orDefault (b !! EnhancedTransaction.from tx) 0 in
  let b1 := <[EnhancedTransaction.from tx := senderBalance - EnhancedTransaction.totalCost tx]> b in
  let recipientBalance := orDefault (b1 !! EnhancedTransaction.to tx) 0 in
  let b2 := <[EnhancedTransaction.to tx := recipientBalance + EnhancedTransaction.value tx]> b1 in
  let mirror (a : string) (m : gmap string Z) : gmap string Z :=
    match m !! a, b2 !! a with
    | Some _, Some v => <[a := v]> m
    | _, _ => m
    end in
  (b2, mirror (EnhancedTransaction.to tx) (mirror (EnhancedTransaction.from tx) w)).

Definition _updateBalances (bc : t) (block : EnhancedBlock.t) : t :=
  let fees := EnhancedBlock.getFees block in
  let '(b, w) :=
    fold_left applyTransaction (EnhancedBlock.transactions block) (balances bc, wallets bc) in
  let minerReward := EnhancedBlock.f_totalMinerReward fees in
  let minerBalance := orDefault (b !! EnhancedBlock.minerAddress block) 0 in
  let mined := totalCoinsMined bc + EnhancedBlock.f_blockReward fees in
  let burned := totalCoinsBurned bc + EnhancedBlock.f_totalBurned fees in
  Make (chain bc) (pendingTransactions bc) (mempool bc)
       (<[EnhancedBlock.minerAddress block := minerBalance + minerReward]> b)
       (nonces bc)
       (difficulty bc) (blockReward bc) (initialBalance bc) (maxTransactionsPerBlock bc)
       (bloomFilter bc) (merkleTree bc)
       burned mined (mined - burned) w.

(** The removal loop of [mineBlock]: every pending transaction with the hash
    of a mined one is filtered out. *)
Definition removeMined (bc : t) (selectedTransactions : list EnhancedTransaction.t) : t :=
  fold_left
    (fun s tx =>
       Make (chain s)
            (filter (fun p => EnhancedTransaction.hash p ≠ EnhancedTransaction.hash tx)
                    (pendingTransactions s))
            (mapDelete (EnhancedTransaction.hash tx) (mempool s))
            (balances s) (nonces s)
            (difficulty s) (blockReward s) (initialBalance s) (maxTransactionsPerBlock s)
            (bloomFilter s) (merkleTree s)
            (totalCoinsBurned s) (totalCoinsMined s) (totalCoinsInNetwork s) (wallets s))
    selectedTransactions bc.

(** [merkleTree.addTransaction(hash)] with the hash as the block has it. *)
Definition treeAdd (m : EnhancedMerkleTree.t) (h : option string) : EnhancedMerkleTree.t :=
  EnhancedMerkleTree.new (EnhancedMerkleTree.transactions m ++ [h]) (EnhancedMerkleTree.name m).

Definition _updateEnhancedFeatures (bc : t) (block : EnhancedBlock.t) : t :=
  let transactionHashes := map EnhancedTransaction.hash (EnhancedBlock.transactions block) in
  Make (chain bc) (pendingTransactions bc) (mempool bc) (balances bc) (nonces bc)
       (difficulty bc) (blockReward bc) (initialBalance bc) (maxTransactionsPerBlock bc)
       (fold_left (fun f h => snd (EnhancedBloomFilter.add f h)) transactionHashes (bloomFilter bc))
       (fold_left treeAdd transactionHashes (merkleTree bc))
       (totalCoinsBurned bc) (totalCoinsMined bc) (totalCoinsInNetwork bc) (wallets bc).

(** The block [mineBlock] assembles before mining. *)
Definition candidateBlock (now : Z) (bc : t) (latestBlock : EnhancedBlock.t)
  (minerAddress : string) : EnhancedBlock.t :=
  let selectedTransactions := firstn (maxTransactionsPerBlock bc) (pendingTransactions bc) in
  EnhancedBlock.new now
    (EnhancedBlock.Params (Z.of_nat (length (chain bc))) (EnhancedBlock.hash latestBlock)
                          (Some selectedTransactions) (Some now) (Some (difficulty bc))
                          minerAddress).

Definition mineBlock (now : Z) (bc : t) (minerAddress : string)
  : outcome t (option EnhancedBlock.t) :=
  let selectedTransactions := firstn (maxTransactionsPerBlock bc) (pendingTransactions bc) in
  match getLatestBlock bc with
  | None => Threw bc
  | Some latestBlock =>
      let '(mined, newBlock) :=
        EnhancedBlock.mine (candidateBlock now bc latestBlock minerAddress) in
      if mined then
        let bc1 := withChain bc (chain bc ++ [newBlock]) in
        let bc2 := _updateBalances bc1 newBlock in
        let bc3 := removeMined bc2 selectedTransactions in
        let bc4 := _updateEnhancedFeatures bc3 newBlock in
        Returned (Some newBlock) bc4
      else Returned None bc
  end.

Definition mightContainTransaction (bc : t) (transactionHash : option string) : bool :=
  EnhancedBloomFilter.mightContain (bloomFilter bc) transactionHash.

Definition verifyTransactionInclusion (bc : t) (transactionHash : string) : bool * bool :=
  EnhancedMerkleTree.verifyTransactionInclusion (merkleTree bc) transactionHash.

(** The loop of [isChainValid] from block [i] on, [previousBlock] being
    [chain[i - 1]]. *)
Fixpoint validFrom (previousBlock : EnhancedBlock.t) (rest : list EnhancedBlock.t) : bool :=
  match rest with
  | [] => true
  | currentBlock :: rest' =>
      if negb (bool_decide (EnhancedBlock.previousHash currentBlock
                            = EnhancedBlock.hash previousBlock))
      then false
      else if negb (EnhancedBlock.verifyHash currentBlock) then false
      else if negb (EnhancedBlock.verifyProofOfWork currentBlock) then false
      else if negb (EnhancedBlock.verifyMerkleRoots currentBlock) then false
      else validFrom currentBlock rest'
  end.

Definition isChainValid (bc : t) : bool :=
  match chain bc with
  | [] => true
  | first :: rest => validFrom first rest
  end.

End WithCrypto.
End EnhancedBlockchain.

(** ** The light wallet (class [LightWallet])

    The wallet keeps a Bloom filter and a Merkle tree of the transaction
    hashes it has been told about. *)
Module LightWallet.
Section WithCrypto.
Context {crypto : Crypto}.

Record blockInfo := BlockInfo {
  i_transactions : list (option string);
  i_merkleRoot : option string;
  i_timestamp : Z
}.

Record t := Make {
  address : string;
  name : string;
  bloomFilter : EnhancedBloomFilter.t;
  merkleTree : EnhancedMerkleTree.t;
  knownTransactions : gset (option string);
  verifiedBlocks : list (string * blockInfo);
  balance : Z;
  nonce : Z
}.

(** [new LightWallet(address, name)] *)
Definition new (addr nm : string) : t :=
  Make addr nm
       (EnhancedBloomFilter.new 2048 5 (nm +:+ "_BloomFilter"))
       (EnhancedMerkleTree.new [] (nm +:+ "_MerkleTree"))
       ∅ [] 0 0.

(** [updateBloomFilter]: a hash not yet known is handed to the filter and
    recorded as known, whether the filter took it or not. *)
Definition updateBloomFilter (w : t) (transactions : list (option string)) : t :=
  fold_left
    (fun s txHash =>
       if bool_decide (txHash ∈ knownTransactions s) then s
       else
         Make (address s) (name s)
              (snd (EnhancedBloomFilter.add (bloomFilter s) txHash))
              (merkleTree s)
              ({[ txHash ]} ∪ knownTransactions s)
              (verifiedBlocks s) (balance s) (nonce s))
    transactions w.

(** [updateMerkleTree]: the block is recorded; every hash the tree does not
    hold yet is appended to it. *)
Definition updateMerkleTree (now : Z) (w : t) (blockHash : string)
  (transactions : list (option string)) (merkleRoot : option string) : t :=
  let w1 :=
    Make (address w) (name w) (bloomFilter w) (merkleTree w) (knownTransactions w)
         (mapSet blockHash (BlockInfo transactions merkleRoot now) (verifiedBlocks w))
         (balance w) (nonce w) in
  fold_left
    (fun s txHash =>
       if bool_decide (txHash ∈ EnhancedMerkleTree.transactions (merkleTree s)) then s
       else
         Make (address s) (name s) (bloomFilter s)
              (EnhancedMerkleTree.new
                 (EnhancedMerkleTree.transactions (merkleTree s) ++ [txHash])
                 (EnhancedMerkleTree.name (merkleTree s)))
              (knownTransactions s) (verifiedBlocks s) (balance s) (nonce s))
    transactions w1.

Inductive confidence := Definite | FalsePositive | Verified.
Inductive method := BloomFilterCheck | MerkleProof.

Record existence := Existence {
  e_exists : bool;
  e_confidence : confidence;
  e_method : method
}.

(** [verifyTransactionExistence]: the filter first, the tree when the filter
    reports the hash and the hash was inserted. *)
Definition verifyTransactionExistence (w : t) (transactionHash : string) : existence :=
  let bloomResult := EnhancedBloomFilter.search (bloomFilter w) (Some transactionHash) in
  if negb (EnhancedBloomFilter.r_mightContain bloomResult)
  then Existence false Definite BloomFilterCheck
  else if EnhancedBloomFilter.r_isFalsePositive bloomResult
  then Existence false FalsePositive BloomFilterCheck
  else
    let merkleResult :=
      EnhancedMerkleTree.verifyTransactionInclusion (merkleTree w) transactionHash in
    if fst merkleResult then Existence true Verified MerkleProof
    else Existence false Verified MerkleProof.

(** [verifyTransactionNonExistence]: the flag [nonExists]. *)
Definition verifyTransactionNonExistence (w : t) (transactionHash : string) : bool :=
  negb (e_exists (verifyTransactionExistence w transactionHash)).

(** [updateBalance]: the wallet's own view of one transaction. *)
Definition updateBalance (w : t) (transaction : EnhancedTransaction.t) : t :=
  let w1 :=
    if bool_decide (EnhancedTransaction.from transaction = address w)
    then Make (address w) (name w) (bloomFilter w) (merkleTree w) (knownTransactions w)
              (verifiedBlocks w)
              (balance w - (EnhancedTransaction.value transaction
                            + EnhancedTransaction.baseFee transaction
                            + EnhancedTransaction.priorityFee transaction))
              (nonce w + 1)
    else w in
  if bool_decide (EnhancedTransaction.to transaction = address w1)
  then Make (address w1) (name w1) (bloomFilter w1) (merkleTree w1) (knownTransactions w1)
            (verifiedBlocks w1)
            (balance w1 + EnhancedTransaction.value transaction)
            (nonce w1)
  else w1.

End WithCrypto.
End LightWallet.

(** ** JavaScript numbers as IEEE 754 doubles

    A Number is a binary64 value.  [Finite m e] stands for [m * 2^e]; an
    operation returns the double nearest to the exact result, the one with
    the even mantissa of two that are equally near, in the form the format
    prescribes: a mantissa of 53 bits, or of fewer bits at the least
    exponent.  Past the largest double the result is an infinity.  The two
    zeros are not told apart: the fee computations divide by the target and
    by 8 only, never by a zero they have computed. *)
Module Double.

Inductive t := Finite (m e : Z) | PosInf | NegInf | NotANumber.

Definition pow2 (e : Z) : Q := (2 ^ e)%Q.

Definition value (x : t) : Q :=
  match x with
  | Finite m e => (inject_Z m * pow2 e)%Q
  | _ => 0%Q
  end.

(** The integer part of the binary logarithm of a positive rational. *)
Definition ilog2 (q : Q) : Z :=
  let k := Z.log2 (Qnum q) - Z.log2 (Zpos (Qden q)) in
  if Qle_bool (pow2 k) q then k else k - 1.

(** The nearest integer, the even one of two that are equally near. *)
Definition roundHalfEven (q : Q) : Z :=
  let f := Qfloor q in
  match (q - inject_Z f ?= 1 # 2)%Q with
  | Lt => f
  | Gt => f + 1
  | Eq => if Z.even f then f else f + 1
  end.

Definition zero : t := Finite 0 0.

(** The double of mantissa [m] and exponent [e]: a mantissa that was rounded
    up to [2^53] moves to the next exponent, and past the largest exponent
    the value is an infinity. *)
Definition pack (m e : Z) : t :=
  let '(m, e) := if Z.abs m =? 2 ^ 53 then (m / 2, e + 1) else (m, e) in
  if 971 <? e then (if 0 <? m then PosInf else NegInf)
  else if m =? 0 then zero else Finite m e.

(** The double nearest to a rational.  The exponent is the one that leaves
    53 bits before the binary point, and not less than the least exponent
    of the format, -1074. *)
Definition round (q : Q) : t :=
  if Qeq_bool q 0 then zero
  else
    let e := Z.max (ilog2 (Qabs q) - 52) (-1074) in
    pack (roundHalfEven (q * pow2 (- e))) e.

(** The number an integer literal or an integer field denotes. *)
Definition ofZ (z : Z) : t := round (inject_Z z).

Definition sgn (x : t) : Z :=
  match x with
  | Finite m _ => Z.sgn m
  | PosInf => 1
  | NegInf => -1
  | NotANumber => 0
  end.

Definition ofSign (s : Z) : t :=
  match s with
  | Z0 => NotANumber
  | Zpos _ => PosInf
  | Zneg _ => NegInf
  end.

Definition add (x y : t) : t :=
  match x, y with
  | NotANumber, _ | _, NotANumber => NotANumber
  | Finite _ _, Finite _ _ => round (value x + value y)
  | PosInf, NegInf | NegInf, PosInf => NotANumber
  | PosInf, _ | _, PosInf => PosInf
  | NegInf, _ | _, NegInf => NegInf
  end.

Definition sub (x y : t) : t :=
  match x, y with
  | NotANumber, _ | _, NotANumber => NotANumber
  | Finite _ _, Finite _ _ => round (value x - value y)
  | PosInf, PosInf | NegInf, NegInf => NotANumber
  | PosInf, _ | _, NegInf => PosInf
  | NegInf, _ | _, PosInf => NegInf
  end.

Definition mul (x y : t) : t :=
  match x, y with
  | NotANumber, _ | _, NotANumber => NotANumber
  | Finite _ _, Finite _ _ => round (value x * value y)
  | _, _ => ofSign (sgn x * sgn y)
  end.

(** A finite number divided by zero is an infinity of its sign, and [0 / 0]
    is [NaN]. *)
Definition div (x y : t) : t :=
  match x, y with
  | NotANumber, _ | _, NotANumber => NotANumber
  | Finite _ _, Finite _ _ =>
      if Qeq_bool (value y) 0 then ofSign (sgn x) else round (value x / value y)
  | Finite _ _, _ => zero
  | _, Finite _ _ => ofSign (sgn x * (if sgn y <? 0 then -1 else 1))
  | _, _ => NotANumber
  end.

(** The order of two numbers; [None] when one of them is [NaN], and every
    comparison with [NaN] is false. *)
Definition compare (x y : t) : option comparison :=
  match x, y with
  | NotANumber, _ | _, NotANumber => None
  | Finite _ _, Finite _ _ => Some (value x ?= value y)%Q
  | PosInf, PosInf | NegInf, NegInf => Some Eq
  | PosInf, _ | _, NegInf => Some Gt
  | NegInf, _ | _, PosInf => Some Lt
  end.

Definition eqb (x y : t) : bool :=
  match compare x y with Some Eq => true | _ => false end.

Definition ltb (x y : t) : bool :=
  match compare x y with Some Lt => true | _ => false end.

Definition leb (x y : t) : bool :=
  match compare x y with Some Lt | Some Eq => true | _ => false end.

Definition gtb (x y : t) : bool := ltb y x.

Definition geb (x y : t) : bool := leb y x.

(** [Math.min] and [Math.max] *)
Definition min (x y : t) : t :=
  match compare x y with
  | None => NotANumber
  | Some Gt => y
  | Some _ => x
  end.

Definition max (x y : t) : t :=
  match compare x y with
  | None => NotANumber
  | Some Lt => y
  | Some _ => x
  end.

(** [Math.floor] *)
Definition floor (x : t) : t :=
  match x with
  | Finite _ _ => ofZ (Qfloor (value x))
  | _ => x
  end.

(** The integer a number is, if it is one. *)
Definition toZ (x : t) : option Z :=
  match x with
  | Finite m e =>
      if 0 <=? e then Some (m * 2 ^ e)
      else if m mod 2 ^ (- e) =? 0 then Some (m / 2 ^ (- e)) else None
  | _ => None
  end.

(** The mantissas and exponents of the format: 53 bits, or fewer at the
    least exponent. *)
Definition canonical (m e : Z) : Prop :=
  m <> 0 /\ Z.abs m < 2 ^ 53 /\ -1074 <= e <= 971 /\ (2 ^ 52 <= Z.abs m \/ e = -1074).

(** The range of the exact integers: up to [2^53] in size every integer is a
    double. *)
Definition exact (z : Z) : Prop := Z.abs z <= 2 ^ 53.

End Double.

Declare Scope double_scope.
Delimit Scope double_scope with double.
Bind Scope double_scope with Double.t.
Infix "+" := Double.add : double_scope.
Infix "-" := Double.sub : double_scope.
Infix "*" := Double.mul : double_scope.
Infix "/" := Double.div : double_scope.
Infix "<?" := Double.ltb : double_scope.
Infix "<=?" := Double.leb : double_scope.
Infix "=?" := Double.eqb : double_scope.
Infix ">?" := Double.gtb : double_scope.
Infix ">=?" := Double.geb : double_scope.

(** The same number in the binary64 format of the Standard Library
    ([SpecFloat], with 53 bits of precision and the exponent bound 1024),
    the sign of a zero left out. *)
Definition toSpec (x : Double.t) : SpecFloat.spec_float :=
  match x with
  | Double.Finite m e =>
      match m with
      | Z0 => SpecFloat.S754_zero false
      | Zpos p => SpecFloat.S754_finite false p e
      | Zneg p => SpecFloat.S754_finite true p e
      end
  | Double.PosInf => SpecFloat.S754_infinity false
  | Double.NegInf => SpecFloat.S754_infinity true
  | Double.NotANumber => SpecFloat.S754_nan
  end.

Definition sameSpec (x : Double.t) (f : SpecFloat.spec_float) : bool :=
  match toSpec x, f with
  | SpecFloat.S754_zero _, SpecFloat.S754_zero _ => true
  | SpecFloat.S754_finite s m e, SpecFloat.S754_finite s' m' e' =>
      Bool.eqb s s' && (m =? m')%positive && (e =? e')
  | SpecFloat.S754_infinity s, SpecFloat.S754_infinity s' => Bool.eqb s s'
  | SpecFloat.S754_nan, SpecFloat.S754_nan => true
  | _, _ => false
  end.

(** The four operations on two numbers give what the Standard Library's
    operations give. *)
Definition sameOperations (x y : Double.t) : bool :=
  sameSpec (x + y)%double (SpecFloat.SFadd 53 1024 (toSpec x) (toSpec y))
  && sameSpec (x - y)%double (SpecFloat.SFsub 53 1024 (toSpec x) (toSpec y))
  && sameSpec (x * y)%double (SpecFloat.SFmul 53 1024 (toSpec x) (toSpec y))
  && sameSpec (x / y)%double (SpecFloat.SFdiv 53 1024 (toSpec x) (toSpec y)).

(** ** The fee computations as JavaScript performs them

    The fields of a transaction and of a block are integers; the methods
    below compute on them in doubles, operation by operation as the source
    does.  [Transaction.getEffectiveGasPrice], [Block.calculateNextBaseFee]
    and the other definitions on [Z] above read the same methods on exact
    integers; the two readings agree as long as every number met is an
    integer of at most [2^53] in size. *)
Module DoubleTransaction.

Definition getEffectiveGasPrice (tx : Transaction.t) (baseFeePerGas : Double.t) : Double.t :=
  let priorityFeePerGas :=
    Double.min (Double.ofZ (Transaction.maxPriorityFeePerGas tx))
               (Double.ofZ (Transaction.maxFeePerGas tx) - baseFeePerGas)%double in
  (baseFeePerGas + priorityFeePerGas)%double.

Definition getGasCost (tx : Transaction.t) (baseFeePerGas : Double.t) : Double.t :=
  let effectiveGasPrice := getEffectiveGasPrice tx baseFeePerGas in
  (Double.ofZ (Transaction.gasLimit tx) * effectiveGasPrice)%double.

Definition isValidForBaseFee (tx : Transaction.t) (baseFeePerGas : Double.t) : bool :=
  let effectiveGasPrice := getEffectiveGasPrice tx baseFeePerGas in
  (effectiveGasPrice <=? Double.ofZ (Transaction.maxFeePerGas tx))%double
  && (effectiveGasPrice >=? baseFeePerGas)%double.

Definition getPriority (tx : Transaction.t) (baseFeePerGas : Double.t) : Double.t :=
  let effectiveGasPrice := getEffectiveGasPrice tx baseFeePerGas in
  (effectiveGasPrice - baseFeePerGas)%double.

End DoubleTransaction.

Module DoubleBlock.

Definition getTotalGasUsed (b : Block.t) : Double.t :=
  fold_left (fun total e =>
               let gasUsed :=
                 match e with
                 | Block.TxObj tx => Double.ofZ (Transaction.gasLimit tx)
                 | Block.TxHash _ => Double.ofZ 21000
                 end in
               (total + gasUsed)%double)
            (Block.transactions b) (Double.ofZ 0).

Definition calculateNextBaseFee (b : Block.t) (targetGasUsed : Double.t) : Double.t :=
  let gasUsed := getTotalGasUsed b in
  let currentBaseFee := Double.ofZ (Block.baseFeePerGas b) in
  if (gasUsed =? targetGasUsed)%double then currentBaseFee
  else if (gasUsed >? targetGasUsed)%double then
    let increase :=
      Double.floor
        (currentBaseFee * (gasUsed - targetGasUsed) / targetGasUsed / Double.ofZ 8) in
    (currentBaseFee + increase)%double
  else
    let decrease :=
      Double.floor
        (currentBaseFee * (targetGasUsed - gasUsed) / targetGasUsed / Double.ofZ 8) in
    Double.max (Double.ofZ 0) (currentBaseFee - decrease).

End DoubleBlock.

Module DoubleBlockchain.

Definition _validateTransaction (bc : Blockchain.t) (transaction : Transaction.t) : bool :=
  if falsyStr (Transaction.signature transaction) then false
  else
    let baseFeePerGas := Double.ofZ (Blockchain.baseFeePerGas bc) in
    let senderBalance :=
      Double.ofZ (Blockchain.getBalance bc (Transaction.from transaction)) in
    let totalCost :=
      (Double.ofZ (Transaction.value transaction)
       + DoubleTransaction.getGasCost transaction baseFeePerGas)%double in
    if (senderBalance <? totalCost)%double then false
    else if (baseFeePerGas >? Double.ofZ 0)%double
            && negb (DoubleTransaction.isValidForBaseFee transaction baseFeePerGas)
    then false
    else true.

End DoubleBlockchain.

(** ** Derived notions used in the statements *)
Definition stateOf {S A : Type} (o : outcome S A) : S :=
  match o with
  | Returned _ s => s
  | Threw s => s
  end.

Definition returned {S A : Type} (o : outcome S A) : option A :=
  match o with
  | Returned a _ => Some a
  | Threw _ => None
  end.

(** The sum of all balances of a balance map. *)
Definition sumBalances (m : gmap string Z) : Z :=
  map_fold (fun _ v acc => v + acc) 0 m.

(** [sum of f over l] *)
Definition sumOf {A : Type} (f : A -> Z) (l : list A) : Z :=
  fold_right (fun x acc => f x + acc) 0 l.

(** The constructor of [EnhancedTransaction] sets [totalCost] to the value
    plus the two fees; a transaction with that property is well formed. *)
Definition wellFormed (tx : EnhancedTransaction.t) : Prop :=
  EnhancedTransaction.totalCost tx
  = EnhancedTransaction.value tx + EnhancedTransaction.baseFee tx
    + EnhancedTransaction.priorityFee tx.

(** The calls a client makes on the enhanced ledger. *)
Inductive call :=
| AddTransaction (p : EnhancedTransaction.params)
| MineBlock (now : Z) (minerAddress : string).

Section EnhancedCalls.
Context {crypto : Crypto}.

Definition step (bc : EnhancedBlockchain.t) (c : call) : EnhancedBlockchain.t :=
  match c with
  | AddTransaction p =>
      snd (EnhancedBlockchain.addTransaction bc (EnhancedTransaction.new p))
  | MineBlock now minerAddress =>
      stateOf (EnhancedBlockchain.mineBlock now bc minerAddress)
  end.

End EnhancedCalls.


(** The calls made on a light wallet. *)
Inductive walletCall :=
| UpdateBloomFilter (transactions : list (option string))
| UpdateMerkleTree (now : Z) (blockHash : string) (transactions : list (option string))
                   (merkleRoot : option string).

Section WalletCalls.
Context {crypto : Crypto}.

Definition walletStep (w : LightWallet.t) (c : walletCall) : LightWallet.t :=
  match c with
  | UpdateBloomFilter transactions => LightWallet.updateBloomFilter w transactions
  | UpdateMerkleTree now blockHash transactions merkleRoot =>
      LightWallet.updateMerkleTree now w blockHash transactions merkleRoot
  end.

(** What a light wallet holds after it was told the hashes [B] through
    [updateBloomFilter] and the hashes [M] through [updateMerkleTree]. *)
Definition walletHolds (w : LightWallet.t) (B M : list (option string)) : Prop :=
  (forall x, x ∈ LightWallet.knownTransactions w <-> x ∈ B)
  /\ (forall s, s ∈ EnhancedBloomFilter.insertedItems (LightWallet.bloomFilter w)
                <-> s <> EmptyString /\ Some s ∈ B)
  /\ (forall s k,
         s ∈ EnhancedBloomFilter.insertedItems (LightWallet.bloomFilter w) ->
         k ∈ EnhancedBloomFilter._getHashes (LightWallet.bloomFilter w) s ->
         EnhancedBloomFilter.bitArray (LightWallet.bloomFilter w) !! k = Some 1)
  /\ (exists txs nm,
         LightWallet.merkleTree w = EnhancedMerkleTree.new txs nm
         /\ forall x, x ∈ txs <-> x ∈ M).

End WalletCalls.

(** The hashes a run of calls has handed to [updateBloomFilter] and to
    [updateMerkleTree]. *)
Definition bloomHashes (calls : list walletCall) : list (option string) :=
  flat_map (fun c => match c with
                     | UpdateBloomFilter transactions => transactions
                     | UpdateMerkleTree _ _ _ _ => []
                     end) calls.

Definition merkleHashes (calls : list walletCall) : list (option string) :=
  flat_map (fun c => match c with
                     | UpdateBloomFilter _ => []
                     | UpdateMerkleTree _ _ transactions _ => transactions
                     end) calls.

(** The order of the sorted mempool: priority does not increase. *)
Definition byPriority (base : Z) (a b : Transaction.t) : Prop :=
  Transaction.getPriority b base <= Transaction.getPriority a base.

(** Replays a Merkle proof given as the list of its steps. *)
Definition replay (H : string -> string) (steps : list (bool * option string))
  (currentHash : string) : string :=
  fold_left
    (fun (cur : string) (step : bool * option string) =>
       if fst step then H (MerkleCore.strOf (snd step) +:+ cur)
       else H (cur +:+ MerkleCore.strOf (snd step)))
    steps currentHash.

(** Consecutive levels of a tree: each is the pairing of the one below. *)
Fixpoint linked (H : string -> string) (tree : list (list string)) : Prop :=
  match tree with
  | [] => True
  | level :: upper =>
      match upper with
      | [] => True
      | next :: _ => next = MerkleCore.nextLevel H level /\ linked H upper
      end
  end.

(** The digest a block gets at a given nonce. *)
Definition digestAt {crypto : Crypto} (b : Block.t) (n : Z) : string :=
  CryptoUtils.doubleSha256 (Block.getBlockData (Block.withNonce b n)).

Section Lifecycle.
Context {crypto : Crypto}.

(** The life of a block of the enhanced chain: it is constructed, then mined
    and given further transactions in any order. *)
Inductive lifecycle : EnhancedBlock.t -> Prop :=
| life_new (now : Z) (p : EnhancedBlock.params) : lifecycle (EnhancedBlock.new now p)
| life_mine (b : EnhancedBlock.t) (attempts : nat) :
    lifecycle b -> lifecycle (snd (EnhancedBlock.mineLoop attempts b))
| life_add (b : EnhancedBlock.t) (tx : EnhancedTransaction.t) :
    lifecycle b -> lifecycle (snd (EnhancedBlock.addTransaction b tx)).

End Lifecycle.

(** The bounds [_selectTransactionsForBlock] keeps while it fills the list. *)
Definition withinLimits (bc : Blockchain.t) (selected : list Transaction.t) : Prop :=
  Z.of_nat (length selected) <= Z.max 0 (Blockchain.maxTransactionsPerBlock bc)
  /\ sumOf Blockchain.txSize selected <= Z.max 0 (Blockchain.maxBlockSize bc)
  /\ sumOf Transaction.gasLimit selected <= Z.max 0 (Blockchain.targetGasUsed bc).

(** The gas one entry of a block counts for in [getTotalGasUsed]. *)
Definition entryGas (e : Block.entry) : Z :=
  match e with
  | Block.TxObj tx => Transaction.gasLimit tx
  | Block.TxHash _ => 21000
  end.

(** Every number [getEffectiveGasPrice] meets is an integer of the exact
    range: the two fees of the transaction, the base fee, the difference
    [maxFeePerGas - baseFeePerGas] and the sum that is returned. *)
Definition exactFees (tx : Transaction.t) (baseFeePerGas : Z) : Prop :=
  Double.exact (Transaction.maxPriorityFeePerGas tx)
  /\ Double.exact (Transaction.maxFeePerGas tx)
  /\ Double.exact baseFeePerGas
  /\ Double.exact (Transaction.maxFeePerGas tx - baseFeePerGas)
  /\ Double.exact (baseFeePerGas
                   + Z.min (Transaction.maxPriorityFeePerGas tx)
                           (Transaction.maxFeePerGas tx - baseFeePerGas)).

(** Every number [_validateTransaction] meets is an integer of the exact
    range: those of the effective gas price, the gas limit, the gas cost, the
    value, the total cost and the balance of the sender. *)
Definition exactCost (bc : Blockchain.t) (tx : Transaction.t) : Prop :=
  exactFees tx (Blockchain.baseFeePerGas bc)
  /\ Double.exact (Transaction.gasLimit tx)
  /\ Double.exact (Transaction.getGasCost tx (Blockchain.baseFeePerGas bc))
  /\ Double.exact (Transaction.value tx)
  /\ Double.exact (Transaction.value tx
                   + Transaction.getGasCost tx (Blockchain.baseFeePerGas bc))
  /\ Double.exact (Blockchain.getBalance bc (Transaction.from tx)).

(** The calls a client makes on the basic ledger. *)
Inductive basicCall :=
| BasicAddTransaction (transaction : Transaction.t)
| BasicMineBlock (now : Z) (minerAddress : string).

Section BasicCalls.
Context {crypto : Crypto}.

Definition basicStep (bc : Blockchain.t) (c : basicCall) : Blockchain.t :=
  match c with
  | BasicAddTransaction transaction => stateOf (Blockchain.addTransaction bc transaction)
  | BasicMineBlock now minerAddress => stateOf (Blockchain.mineBlock now bc minerAddress)
  end.

End BasicCalls.

(** The addresses a call names: the sender and the recipient of a transaction
    that is submitted, the miner of a block. *)
Definition basicParties (c : basicCall) : list string :=
  match c with
  | BasicAddTransaction transaction =>
      [Transaction.from transaction; Transaction.to transaction]
  | BasicMineBlock _ minerAddress => [minerAddress]
  end.

Definition parties (c : call) : list string :=
  match c with
  | AddTransaction p => [EnhancedTransaction.p_from p; EnhancedTransaction.p_to p]
  | MineBlock _ minerAddress => [minerAddress]
  end.

(** A ledger that holds nothing for an address: no entry in the balance map
    and no pooled transaction that names it. *)
Definition basicUnmet (address : string) (bc : Blockchain.t) : Prop :=
  Blockchain.utxoSet bc !! address = None
  /\ Forall (fun tx => Transaction.from tx <> address /\ Transaction.to tx <> address)
            (mapValues (Blockchain.mempool bc)).

Definition unmet (address : string) (bc : EnhancedBlockchain.t) : Prop :=
  EnhancedBlockchain.balances bc !! address = None
  /\ Forall (fun tx => EnhancedTransaction.from tx <> address
                       /\ EnhancedTransaction.to tx <> address)
            (EnhancedBlockchain.pendingTransactions bc).

(** ** Concrete ledgers and transactions

    Ledgers the program can reach and transactions it can receive; the facts
    below are evaluated on them. *)

(** ** A run of the basic ledger

    Difficulty 1, at most one transaction per block, the default reward of 50.
    The timestamps are values of [Date.now()]. *)
Module Run.

Definition config : Blockchain.config :=
  Blockchain.Config (Some 1%N) None None None (Some 1) None None.

Definition ledger0 : Blockchain.t :=
  Blockchain.new (crypto := nodeCrypto) 1700000000060 config.

(** Alice mines the first block. *)
Definition ledger1 : Blockchain.t :=
  stateOf (Blockchain.mineBlock (crypto := nodeCrypto) 1700000001008 ledger0 "alice").

(** Two signed transactions of Alice, both with nonce 0. *)
Definition aliceToBob : Transaction.t :=
  Transaction.Make "alice" "bob" 10 1 1 1 EmptyString 0 2 1
    (Some "5f2b1c7d9e3a4f60b1c2d3e4f5061728394a5b6c7d8e9f000112233445566778")
    (Some "3045022100c4f1") (Some 27) (Some "c4f1") (Some "1a2b").

Definition aliceToCarol : Transaction.t :=
  Transaction.Make "alice" "carol" 5 1 1 1 EmptyString 0 2 1
    (Some "9a8b7c6d5e4f30211203f4e5d6c7b8a99a8b7c6d5e4f30211203f4e5d6c7b8a9")
    (Some "3045022100d5e2") (Some 27) (Some "d5e2") (Some "2b3c").

Definition ledger2 : Blockchain.t :=
  stateOf (Blockchain.addTransaction (crypto := nodeCrypto) ledger1 aliceToBob).

(** Carol mines the second block, which carries Alice's payment to Bob. *)
Definition ledger3 : Blockchain.t :=
  stateOf (Blockchain.mineBlock (crypto := nodeCrypto) 1700000002001 ledger2 "carol").

(** The genesis block of the run and the second block as the search left it. *)
Definition genesis : Block.t :=
  Eval vm_compute in
    snd (Block.mine (crypto := nodeCrypto)
           (Block.new (crypto := nodeCrypto) 1700000000060
              (Block.Params 0 (Some (repeat0 64)) (Some []) (Some 1700000000060)
                            (Some 1%N) (Some 0)))).

Definition minedSecond : Block.t :=
  Eval vm_compute in
    snd (Block.mine (crypto := nodeCrypto)
           (Blockchain.candidateBlock (crypto := nodeCrypto) 1700000002001 ledger2 genesis)).

End Run.

(** ** A run of the enhanced ledger: difficulty 1, no seed transactions. *)
Module EnhancedRun.

Definition wallet1 : string := "0x1111111111111111111111111111111111111111".
Definition wallet2 : string := "0x2222222222222222222222222222222222222222".

Definition ledger0 : EnhancedBlockchain.t :=
  EnhancedBlockchain.new (crypto := nodeCrypto) 1700000000000
    (EnhancedBlockchain.Config (Some 1%N) None None) [].

(** The first wallet pays 10 to the second, with the fixed fees 2 and 3. *)
Definition payment : EnhancedTransaction.t :=
  EnhancedTransaction.new (crypto := nodeCrypto)
    (EnhancedTransaction.Params wallet1 wallet2 (Some 10) None None (Some 0) None).

Definition ledger1 : EnhancedBlockchain.t :=
  snd (EnhancedBlockchain.addTransaction (crypto := nodeCrypto) ledger0 payment).

(** The second wallet mines the block that carries the payment. *)
Definition ledger2 : EnhancedBlockchain.t :=
  stateOf (EnhancedBlockchain.mineBlock (crypto := nodeCrypto) 1700000001000 ledger1 wallet2).

End EnhancedRun.

(** A ledger configured with difficulty 65: no digest has 65 leading zeros,
    so every mining attempt fails. *)
Definition stuckConfig : Blockchain.config :=
  Blockchain.Config (Some 65%N) None None None None None None.

Definition stuckLedger : Blockchain.t :=
  Blockchain.new (crypto := nodeCrypto) 1700000000000 stuckConfig.

Definition stuckEnhancedConfig : EnhancedBlockchain.config :=
  EnhancedBlockchain.Config (Some 65%N) None None.

Definition stuckEnhancedLedger : EnhancedBlockchain.t :=
  EnhancedBlockchain.new (crypto := nodeCrypto) 1700000000000 stuckEnhancedConfig [].

(** A block whose target no digest meets. *)
Definition hardBlock : Block.t :=
  Block.new (crypto := nodeCrypto) 1700000000000
    (Block.Params 1 (Some "00") (Some []) (Some 1700000000000) (Some 65%N) None).

(** A transaction that offers a negative priority fee. *)
Definition negativeTipTransaction : Transaction.t :=
  Transaction.new
    (Transaction.Params "alice" "bob" (Some 1) (Some 21000) (Some (-1)) (Some 10) None (Some 0)).

Definition cappedTransaction : Transaction.t :=
  Transaction.new
    (Transaction.Params "alice" "bob" (Some 1) (Some 21000) (Some 3) (Some 10) None (Some 0)).

(** A block that used 30 gas at base fee 100. *)
Definition busyBlock : Block.t :=
  Block.Make 1 (Some "00")
    [Block.TxObj (Transaction.new
                    (Transaction.Params "alice" "bob" (Some 1) (Some 30) (Some 1) (Some 200)
                                        None (Some 0)))]
    1700000000000 1 100 0 None None.

(** Five transactions handed to the constructor of an enhanced block. *)
Definition crowdedBlock : EnhancedBlock.t :=
  EnhancedBlock.new (crypto := nodeCrypto) 1700000000000
    (EnhancedBlock.Params 1 (Some "00") (Some (repeat EnhancedRun.payment 5))
                          (Some 1700000000000) (Some 1%N) EnhancedRun.wallet1).

(** A block that used 21001 gas at a base fee of about one gwei. *)
Definition gweiBlock : Block.t :=
  Block.Make 1 (Some "00")
    [Block.TxObj (Transaction.new
                    (Transaction.Params "alice" "bob" (Some 1) (Some 21001) (Some 1)
                                        (Some 2000000000) None (Some 0)))]
    1700000000000 1 1055979001 0 None None.

(** A transaction whose fees are even integers above [2^53]. *)
Definition largeCapTransaction : Transaction.t :=
  Transaction.new
    (Transaction.Params "alice" "bob" (Some 1) (Some 21000) (Some 9007199254740998)
                        (Some 9007199254740998) None (Some 0)).

(** The calls of the two runs above. *)
Definition basicRun : list basicCall :=
  [BasicMineBlock 1700000001008 "alice";
   BasicAddTransaction Run.aliceToBob;
   BasicMineBlock 1700000002001 "carol"].

Definition enhancedRun : list call :=
  [AddTransaction
     (EnhancedTransaction.Params EnhancedRun.wallet1 EnhancedRun.wallet2 (Some 10) None None
                                 (Some 0) None);
   MineBlock 1700000001000 EnhancedRun.wallet2].

(** Pairs of numbers on which the operations are compared with those of the
    Standard Library: integers of the exact range and beyond it, quotients
    that are rounded, the largest and the least doubles, zeros, infinities
    and [NaN]. *)
Definition samples : list (Double.t * Double.t) :=
  let large := Double.ofZ (2 ^ 1023) in
  let least := (Double.ofZ 1 / large / Double.ofZ (2 ^ 51))%double in
  [ (Double.ofZ 1055979001, Double.ofZ 14978999);
    (Double.ofZ (1055979001 * 14978999), Double.ofZ 15000000);
    (Double.ofZ 9007199254740998, Double.ofZ 3);
    (Double.ofZ 3, Double.ofZ 9007199254740996);
    (Double.ofZ (2 ^ 53 - 1), Double.ofZ (2 ^ 53 - 1));
    (Double.ofZ (-7), Double.ofZ 2);
    (Double.ofZ 1, Double.ofZ 3);
    (large, large);
    (large, Double.ofZ (-2));
    (least, Double.ofZ 2);
    ((least * Double.ofZ 3)%double, Double.ofZ 2);
    ((least * Double.ofZ 5)%double, Double.ofZ 4);
    (Double.ofZ 1, Double.zero);
    (Double.ofZ (-1), Double.zero);
    (Double.zero, Double.zero);
    (Double.zero, Double.PosInf);
    (Double.PosInf, Double.ofZ 3);
    (Double.PosInf, Double.PosInf);
    (Double.PosInf, Double.NegInf);
    (Double.ofZ (-3), Double.NegInf);
    (Double.NotANumber, Double.ofZ 1) ].

(** * Facts *)

(** ** Facts about the JavaScript helpers *)

Lemma orDefault_zero (x : option Z) : x = None -> orDefault x 0 = 0.
Proof. intros ->. reflexivity. Qed.

Lemma orDefault_Some_zero (v : Z) : orDefault (Some v) 0 = v.
Proof. unfold orDefault. destruct (Z.eqb_spec v 0); congruence. Qed.

Lemma floorDiv8_nonzero (x t : Z) :
  t <> 0 -> floorDiv8 x t = Int (x / t / 8).
Proof.
  intros Ht. unfold floorDiv8.
  destruct (Z.eqb_spec t 0) as [|_]; [contradiction|].
  f_equal.
  rewrite Z.div_div by lia.
  rewrite Zdiv_Qdiv.
  apply Qfloor_comp.
  rewrite inject_Z_mult.
  unfold Qdiv. rewrite Qinv_mult_distr. ring.
Qed.

(** ** Doubles

    Rounding leaves the numbers of the format as they are, so the sums,
    differences and products of integers of the exact range are exact; a
    quotient is rounded, by less than what separates it from the next
    integer as long as the dividend is below [2^53]. *)
Section DoubleFacts.
Local Open Scope Q_scope.

Lemma inject_Z_sub (a b : Z) : inject_Z (a - b) == inject_Z a - inject_Z b.
Proof.
  unfold Z.sub. rewrite inject_Z_plus, inject_Z_opp. reflexivity.
Qed.

Lemma two_neq_0 : ~ 2 == 0.
Proof. intros H. discriminate H. Qed.

Lemma pow2_positive (e : Z) : 0 < Double.pow2 e.
Proof. apply Qpower_0_lt. reflexivity. Qed.

Lemma pow2_plus (a b : Z) : Double.pow2 (a + b) == Double.pow2 a * Double.pow2 b.
Proof. apply Qpower_plus, two_neq_0. Qed.

Lemma pow2_cancel (a : Z) : Double.pow2 a * Double.pow2 (- a) == 1.
Proof. rewrite <- pow2_plus, Z.add_opp_diag_r. reflexivity. Qed.

Lemma pow2_le (a b : Z) : (a <= b)%Z -> Double.pow2 a <= Double.pow2 b.
Proof. intros H. apply Qpower_le_compat_l; [exact H | discriminate]. Qed.

Lemma pow2_lt (a b : Z) : (a < b)%Z -> Double.pow2 a < Double.pow2 b.
Proof. intros H. apply Qpower_lt_compat_l; [exact H | reflexivity]. Qed.

Lemma pow2_lt_inv (a b : Z) : Double.pow2 a < Double.pow2 b -> (a < b)%Z.
Proof. intros H. apply (Qpower_lt_compat_l_inv 2); [exact H | reflexivity]. Qed.

Lemma pow2_Z (n : Z) : (0 <= n)%Z -> Double.pow2 n == inject_Z (2 ^ n).
Proof. intros H. symmetry. apply (Zpower_Qpower 2 n H). Qed.

(** [ilog2] gives the power of two at or below a positive rational. *)
Lemma ilog2_spec (q : Q) :
  0 < q -> Double.pow2 (Double.ilog2 q) <= q < Double.pow2 (Double.ilog2 q + 1).
Proof.
  intros Hq.
  assert (Hn : (0 < Qnum q)%Z).
  { destruct q as [n d]. unfold Qlt in Hq. simpl in *. lia. }
  set (a := Z.log2 (Qnum q)). set (b := Z.log2 (Zpos (Qden q))).
  assert (Ha : (2 ^ a <= Qnum q < 2 ^ (a + 1))%Z).
  { unfold a. pose proof (Z.log2_spec _ Hn). rewrite <- Z.add_1_r in H. exact H. }
  assert (Hb : (2 ^ b <= Zpos (Qden q) < 2 ^ (b + 1))%Z).
  { unfold b. pose proof (Z.log2_spec (Zpos (Qden q)) eq_refl). rewrite <- Z.add_1_r in H. exact H. }
  assert (Ha0 : (0 <= a)%Z) by apply Z.log2_nonneg.
  assert (Hb0 : (0 <= b)%Z) by apply Z.log2_nonneg.
  assert (Hqd : q * inject_Z (Zpos (Qden q)) == inject_Z (Qnum q)).
  { destruct q as [n d]. unfold Qeq, Qmult, inject_Z. simpl. rewrite Pos.mul_1_r. lia. }
  assert (Hd : 0 < inject_Z (Zpos (Qden q))) by reflexivity.
  assert (Hup : q < Double.pow2 (a - b + 1)).
  { apply (Qmult_lt_r _ _ _ Hd). rewrite Hqd.
    apply Qlt_le_trans with (Double.pow2 (a + 1)).
    - rewrite pow2_Z by lia. rewrite <- Zlt_Qlt. lia.
    - replace (a + 1)%Z with ((a - b + 1) + b)%Z by lia. rewrite pow2_plus.
      apply Qmult_le_l; [apply pow2_positive|].
      rewrite pow2_Z by lia. rewrite <- Zle_Qle. lia. }
  assert (Hlow : Double.pow2 (a - b - 1) <= q).
  { apply (Qmult_le_r _ _ _ Hd). rewrite Hqd.
    apply Qle_trans with (Double.pow2 a).
    - replace a with ((a - b - 1) + (b + 1))%Z at 2 by lia. rewrite pow2_plus.
      apply Qmult_le_l; [apply pow2_positive|].
      rewrite pow2_Z by lia. rewrite <- Zle_Qle. lia.
    - rewrite pow2_Z by lia. rewrite <- Zle_Qle. lia. }
  unfold Double.ilog2. fold a. fold b.
  destruct (Qle_bool (Double.pow2 (a - b)) q) eqn:E.
  - apply Qle_bool_iff in E. split; assumption.
  - split; [exact Hlow|].
    replace (a - b - 1 + 1)%Z with (a - b)%Z by lia.
    apply Qnot_le_lt. intros H. apply Qle_bool_iff in H. congruence.
Qed.

Lemma ilog2_unique (q : Q) (k : Z) :
  Double.pow2 k <= q -> q < Double.pow2 (k + 1) -> Double.ilog2 q = k.
Proof.
  intros H1 H2.
  assert (Hq : 0 < q) by (eapply Qlt_le_trans; [apply (pow2_positive k) | exact H1]).
  destruct (ilog2_spec q Hq) as [S1 S2].
  assert (Double.ilog2 q < k + 1)%Z.
  { apply pow2_lt_inv. eapply Qle_lt_trans; eassumption. }
  assert (k < Double.ilog2 q + 1)%Z.
  { apply pow2_lt_inv. eapply Qle_lt_trans; eassumption. }
  lia.
Qed.

Lemma ilog2_comp (q q' : Q) : 0 < q -> q == q' -> Double.ilog2 q = Double.ilog2 q'.
Proof.
  intros Hq H. symmetry. destruct (ilog2_spec q Hq) as [S1 S2].
  apply ilog2_unique; rewrite <- H; assumption.
Qed.

(** Rounding to an integer depends on the value alone, not on the fraction
    that denotes it. *)
Lemma roundHalfEven_comp (q q' : Q) :
  q == q' -> Double.roundHalfEven q = Double.roundHalfEven q'.
Proof.
  intros H. unfold Double.roundHalfEven.
  rewrite (Qfloor_comp _ _ H).
  assert (E : (q - inject_Z (Qfloor q') ?= 1 # 2) = (q' - inject_Z (Qfloor q') ?= 1 # 2)).
  { apply Qcompare_comp; [rewrite H; reflexivity | reflexivity]. }
  rewrite E. reflexivity.
Qed.

Lemma roundHalfEven_Z (q : Q) (z : Z) : q == inject_Z z -> Double.roundHalfEven q = z.
Proof.
  intros H. rewrite (roundHalfEven_comp _ _ H). unfold Double.roundHalfEven.
  rewrite Qfloor_Z.
  assert (E : (inject_Z z - inject_Z z ?= 1 # 2) = Lt).
  { apply (proj1 (Qlt_alt _ _)). lra. }
  rewrite E. reflexivity.
Qed.

Lemma roundHalfEven_floor (q : Q) :
  (Qfloor q <= Double.roundHalfEven q <= Qfloor q + 1)%Z.
Proof.
  unfold Double.roundHalfEven.
  destruct (q - inject_Z (Qfloor q) ?= 1 # 2); [destruct (Z.even (Qfloor q))| |]; lia.
Qed.

Lemma roundHalfEven_ge (q : Q) (z : Z) : inject_Z z <= q -> (z <= Double.roundHalfEven q)%Z.
Proof.
  intros H. pose proof (roundHalfEven_floor q).
  apply Qfloor_resp_le in H. rewrite Qfloor_Z in H. lia.
Qed.

(** A rational more than one half below an integer is not rounded up to it. *)
Lemma roundHalfEven_below (q : Q) (z : Z) :
  q < inject_Z z - (1 # 2) -> (Double.roundHalfEven q <= z - 1)%Z.
Proof.
  intros H.
  assert (Hf : (Qfloor q <= z - 1)%Z).
  { assert (Qfloor q <= Qfloor (inject_Z z - (1 # 2)))%Z by (apply Qfloor_resp_le; lra).
    assert (Qfloor (inject_Z z - (1 # 2)) < z)%Z.
    { rewrite Zlt_Qlt. eapply Qle_lt_trans; [apply Qfloor_le|]. lra. }
    lia. }
  unfold Double.roundHalfEven.
  destruct (Qcompare_spec (q - inject_Z (Qfloor q)) (1 # 2)) as [E|E|E].
  - assert (Qfloor q <> z - 1)%Z.
    { intros K. rewrite K in E. rewrite inject_Z_sub in E. change (inject_Z 1) with 1 in E. lra. }
    destruct (Z.even (Qfloor q)); lia.
  - exact Hf.
  - assert (Qfloor q <> z - 1)%Z.
    { intros K. rewrite K in E. rewrite inject_Z_sub in E. change (inject_Z 1) with 1 in E. lra. }
    lia.
Qed.

Lemma roundHalfEven_le (q : Q) (z : Z) : q <= inject_Z z -> (Double.roundHalfEven q <= z)%Z.
Proof.
  intros H.
  destruct (Qlt_le_dec q (inject_Z (z + 1) - (1 # 2))) as [L|L].
  - apply roundHalfEven_below in L. lia.
  - rewrite inject_Z_plus in L. change (inject_Z 1) with 1 in L. lra.
Qed.


Lemma Qabs_pos_lt (q : Q) : ~ q == 0 -> 0 < Qabs q.
Proof.
  intros H. destruct (Qlt_le_dec 0 (Qabs q)) as [L|L]; [exact L|].
  exfalso. apply H. destruct (proj1 (Qabs_Qle_condition q 0) L) as [A B]. lra.
Qed.

(** [round] depends on the value alone. *)
Lemma round_comp (q q' : Q) : q == q' -> Double.round q = Double.round q'.
Proof.
  intros H. unfold Double.round.
  assert (E : Qeq_bool q 0 = Qeq_bool q' 0) by (apply Qeqb_comp; [exact H | reflexivity]).
  rewrite E. destruct (Qeq_bool q' 0) eqn:Z; [reflexivity|].
  assert (N : ~ q == 0) by (rewrite H; apply Qeq_bool_neq; exact Z).
  assert (EL : Double.ilog2 (Qabs q) = Double.ilog2 (Qabs q')).
  { apply ilog2_comp; [apply Qabs_pos_lt; exact N | rewrite H; reflexivity]. }
  rewrite EL.
  f_equal. apply roundHalfEven_comp. rewrite H. reflexivity.
Qed.


Lemma inject_Z_eq0 (m : Z) : inject_Z m == 0 -> m = 0%Z.
Proof. unfold Qeq. simpl. lia. Qed.

Lemma pack_canonical (m e : Z) : Double.canonical m e -> Double.pack m e = Double.Finite m e.
Proof.
  intros (H0 & H1 & H2 & _). unfold Double.pack.
  rewrite (proj2 (Z.eqb_neq _ _)) by lia.
  rewrite (proj2 (Z.ltb_ge _ _)) by lia.
  rewrite (proj2 (Z.eqb_neq _ _)) by lia.
  reflexivity.
Qed.

Lemma scaled_nonzero (m e : Z) : m <> 0%Z -> ~ inject_Z m * Double.pow2 e == 0.
Proof.
  intros H E. apply Qmult_integral in E. destruct E as [E|E].
  - apply H, inject_Z_eq0, E.
  - pose proof (pow2_positive e). lra.
Qed.

Lemma Qabs_scaled (m e : Z) :
  Qabs (inject_Z m * Double.pow2 e) == inject_Z (Z.abs m) * Double.pow2 e.
Proof.
  rewrite Qabs_Qmult. rewrite (Qabs_pos (Double.pow2 e)) by (apply Qlt_le_weak, pow2_positive).
  reflexivity.
Qed.

Lemma scale_back (q : Q) (m e : Z) :
  q == inject_Z m * Double.pow2 e -> q * Double.pow2 (- e) == inject_Z m.
Proof.
  intros H. rewrite H. rewrite <- Qmult_assoc, pow2_cancel. ring.
Qed.

(** A number of the format is its own rounding. *)
Lemma round_canonical (q : Q) (m e : Z) :
  Double.canonical m e -> q == inject_Z m * Double.pow2 e -> Double.round q = Double.Finite m e.
Proof.
  intros C H. pose proof C as (H0 & H1 & H2 & H3).
  unfold Double.round.
  assert (N : ~ q == 0) by (rewrite H; apply scaled_nonzero; exact H0).
  destruct (Qeq_bool q 0) eqn:Z; [apply Qeq_bool_eq in Z; contradiction|].
  assert (A : Qabs q == inject_Z (Z.abs m) * Double.pow2 e) by (rewrite H; apply Qabs_scaled).
  assert (E : Z.max (Double.ilog2 (Qabs q) - 52) (-1074) = e).
  { destruct (Z_le_gt_dec (2 ^ 52) (Z.abs m)) as [L|L].
    - rewrite (ilog2_unique (Qabs q) (52 + e)).
      + lia.
      + rewrite A, pow2_plus. apply Qmult_le_r; [apply pow2_positive|].
        rewrite pow2_Z by lia. rewrite <- Zle_Qle. exact L.
      + rewrite A. replace (52 + e + 1)%Z with (53 + e)%Z by lia. rewrite pow2_plus.
        apply Qmult_lt_r; [apply pow2_positive|].
        rewrite pow2_Z by lia. rewrite <- Zlt_Qlt. exact H1.
    - assert (e = -1074)%Z by lia. subst e.
      destruct (ilog2_spec (Qabs q) (Qabs_pos_lt q N)) as [S1 _].
      assert (Double.ilog2 (Qabs q) < 52 + -1074)%Z.
      { apply pow2_lt_inv. eapply Qle_lt_trans; [exact S1|].
        rewrite A, pow2_plus. apply Qmult_lt_r; [apply pow2_positive|].
        rewrite pow2_Z by lia. rewrite <- Zlt_Qlt. lia. }
      lia. }
  rewrite E. rewrite (roundHalfEven_Z _ m) by (apply scale_back; exact H).
  apply pack_canonical. exact C.
Qed.


(** An integer of the exact range is read without rounding. *)
Lemma ofZ_exact (z : Z) :
  Double.exact z ->
  exists m e, Double.ofZ z = Double.Finite m e /\ inject_Z m * Double.pow2 e == inject_Z z.
Proof.
  unfold Double.exact. intros Hz.
  destruct (Z.eq_dec z 0%Z) as [->|N0].
  { exists 0%Z, 0%Z. split; reflexivity. }
  destruct (Z.eq_dec (Z.abs z) (2 ^ 53)%Z) as [T|T].
  { assert (C : z = (2 ^ 53)%Z \/ z = (- 2 ^ 53)%Z) by lia.
    destruct C as [-> | ->].
    - exists (2 ^ 52)%Z, 1%Z. split; [vm_compute; reflexivity | apply Qeq_bool_eq; vm_compute; reflexivity].
    - exists (- 2 ^ 52)%Z, 1%Z. split; [vm_compute; reflexivity | apply Qeq_bool_eq; vm_compute; reflexivity]. }
  set (l := Z.log2 (Z.abs z)). set (k := (52 - l)%Z).
  assert (Hl : (2 ^ l <= Z.abs z < 2 ^ (l + 1))%Z).
  { unfold l. pose proof (Z.log2_spec (Z.abs z)) as S. rewrite <- Z.add_1_r in S. apply S. lia. }
  assert (Hl0 : (0 <= l)%Z) by apply Z.log2_nonneg.
  assert (Hl52 : (l <= 52)%Z).
  { destruct (Z_le_gt_dec l 52) as [L|L]; [exact L|].
    assert (2 ^ 53 <= 2 ^ l)%Z by (apply Z.pow_le_mono_r; lia). lia. }
  assert (P1 : (2 ^ l * 2 ^ k = 2 ^ 52)%Z).
  { rewrite <- Z.pow_add_r by lia. f_equal. lia. }
  assert (P2 : (2 ^ (l + 1) * 2 ^ k = 2 ^ 53)%Z).
  { rewrite <- Z.pow_add_r by lia. f_equal. lia. }
  assert (Pk : (0 < 2 ^ k)%Z) by (apply Z.pow_pos_nonneg; lia).
  exists (z * 2 ^ k)%Z, (- k)%Z.
  assert (V : inject_Z (z * 2 ^ k) * Double.pow2 (- k) == inject_Z z).
  { rewrite inject_Z_mult, <- (pow2_Z k) by lia.
    rewrite <- Qmult_assoc, pow2_cancel. ring. }
  split; [|exact V].
  apply round_canonical; [|symmetry; exact V].
  unfold Double.canonical. rewrite Z.abs_mul, (Z.abs_eq (2 ^ k)) by lia.
  split; [nia|]. split; [nia|]. split; [lia|]. left. nia.
Qed.

Lemma value_ofZ (z : Z) : Double.exact z -> Double.value (Double.ofZ z) == inject_Z z.
Proof.
  intros H. destruct (ofZ_exact z H) as (m & e & -> & V). exact V.
Qed.

Lemma Qcompare_inject_Z (a b : Z) : (inject_Z a ?= inject_Z b) = (a ?= b)%Z.
Proof. unfold Qcompare. simpl. rewrite !Z.mul_1_r. reflexivity. Qed.

(** On integers of the exact range a sum, a difference and a product are the
    rounding of the integer result, and the comparisons are those of the
    integers. *)
Lemma add_ofZ (a b : Z) :
  Double.exact a -> Double.exact b ->
  Double.add (Double.ofZ a) (Double.ofZ b) = Double.ofZ (a + b).
Proof.
  intros Ha Hb.
  destruct (ofZ_exact a Ha) as (ma & ea & -> & Va).
  destruct (ofZ_exact b Hb) as (mb & eb & -> & Vb).
  cbn [Double.add Double.value]. apply round_comp. rewrite Va, Vb, inject_Z_plus. reflexivity.
Qed.

Lemma sub_ofZ (a b : Z) :
  Double.exact a -> Double.exact b ->
  Double.sub (Double.ofZ a) (Double.ofZ b) = Double.ofZ (a - b).
Proof.
  intros Ha Hb.
  destruct (ofZ_exact a Ha) as (ma & ea & -> & Va).
  destruct (ofZ_exact b Hb) as (mb & eb & -> & Vb).
  cbn [Double.sub Double.value]. apply round_comp. rewrite Va, Vb, inject_Z_sub. reflexivity.
Qed.

Lemma mul_ofZ (a b : Z) :
  Double.exact a -> Double.exact b ->
  Double.mul (Double.ofZ a) (Double.ofZ b) = Double.ofZ (a * b).
Proof.
  intros Ha Hb.
  destruct (ofZ_exact a Ha) as (ma & ea & -> & Va).
  destruct (ofZ_exact b Hb) as (mb & eb & -> & Vb).
  cbn [Double.mul Double.value]. apply round_comp. rewrite Va, Vb, inject_Z_mult. reflexivity.
Qed.

Lemma compare_ofZ (a b : Z) :
  Double.exact a -> Double.exact b ->
  Double.compare (Double.ofZ a) (Double.ofZ b) = Some (a ?= b)%Z.
Proof.
  intros Ha Hb.
  destruct (ofZ_exact a Ha) as (ma & ea & -> & Va).
  destruct (ofZ_exact b Hb) as (mb & eb & -> & Vb).
  cbn [Double.compare Double.value]. f_equal.
  rewrite <- Qcompare_inject_Z. apply Qcompare_comp; assumption.
Qed.

Lemma eqb_ofZ (a b : Z) :
  Double.exact a -> Double.exact b ->
  Double.eqb (Double.ofZ a) (Double.ofZ b) = (a =? b)%Z.
Proof.
  intros Ha Hb. unfold Double.eqb. rewrite compare_ofZ by assumption.
  destruct (Z.eqb_spec a b) as [->|N].
  - rewrite Z.compare_refl. reflexivity.
  - destruct (a ?= b)%Z eqn:E; [apply Z.compare_eq in E; contradiction | reflexivity | reflexivity].
Qed.

Lemma ltb_ofZ (a b : Z) :
  Double.exact a -> Double.exact b ->
  Double.ltb (Double.ofZ a) (Double.ofZ b) = (a <? b)%Z.
Proof.
  intros Ha Hb. unfold Double.ltb. rewrite compare_ofZ by assumption.
  unfold Z.ltb. destruct (a ?= b)%Z; reflexivity.
Qed.

Lemma leb_ofZ (a b : Z) :
  Double.exact a -> Double.exact b ->
  Double.leb (Double.ofZ a) (Double.ofZ b) = (a <=? b)%Z.
Proof.
  intros Ha Hb. unfold Double.leb. rewrite compare_ofZ by assumption.
  unfold Z.leb. destruct (a ?= b)%Z; reflexivity.
Qed.

Lemma min_ofZ (a b : Z) :
  Double.exact a -> Double.exact b ->
  Double.min (Double.ofZ a) (Double.ofZ b) = Double.ofZ (Z.min a b).
Proof.
  intros Ha Hb. unfold Double.min. rewrite compare_ofZ by assumption.
  unfold Z.min. destruct (a ?= b)%Z; reflexivity.
Qed.

Lemma max_ofZ (a b : Z) :
  Double.exact a -> Double.exact b ->
  Double.max (Double.ofZ a) (Double.ofZ b) = Double.ofZ (Z.max a b).
Proof.
  intros Ha Hb. unfold Double.max. rewrite compare_ofZ by assumption.
  unfold Z.max. destruct (a ?= b)%Z; reflexivity.
Qed.


Lemma inject_Z_lt0 (z : Z) : (0 < z)%Z -> 0 < inject_Z z.
Proof. intros H. change 0 with (inject_Z 0). rewrite <- Zlt_Qlt. exact H. Qed.

Lemma inject_Z_le1 (z : Z) : (1 <= z)%Z -> 1 <= inject_Z z.
Proof. intros H. change 1 with (inject_Z 1). rewrite <- Zle_Qle. exact H. Qed.

Lemma Qfloor_unique (x : Q) (n : Z) :
  inject_Z n <= x -> x < inject_Z (n + 1) -> Qfloor x = n.
Proof.
  intros H1 H2. pose proof (Qfloor_le x) as F1. pose proof (Qlt_floor x) as F2.
  assert (n < Qfloor x + 1)%Z by (rewrite Zlt_Qlt; lra).
  assert (Qfloor x < n + 1)%Z by (rewrite Zlt_Qlt; lra).
  lia.
Qed.

(** Rounding in the range of the normal numbers: the mantissa is the scaled
    value rounded to an integer. *)
Lemma round_normal (q : Q) :
  Double.pow2 (-1022) <= q -> q < Double.pow2 1023 ->
  exists m e,
    Double.round q = Double.Finite m e
    /\ (2 ^ 52 <= m < 2 ^ 53)%Z
    /\ (-1074 <= Double.ilog2 q - 52 <= e)%Z /\ (e <= 971)%Z
    /\ inject_Z m * Double.pow2 e
       == inject_Z (Double.roundHalfEven (q * Double.pow2 (- (Double.ilog2 q - 52))))
          * Double.pow2 (Double.ilog2 q - 52).
Proof.
  intros Hlow Hup.
  assert (Hq : 0 < q) by (eapply Qlt_le_trans; [apply (pow2_positive (-1022)) | exact Hlow]).
  destruct (ilog2_spec q Hq) as [S1 S2].
  set (L := Double.ilog2 q) in *.
  assert (HL1 : (-1022 < L + 1)%Z) by (apply pow2_lt_inv; eapply Qle_lt_trans; eassumption).
  assert (HL2 : (L < 1023)%Z) by (apply pow2_lt_inv; eapply Qle_lt_trans; eassumption).
  unfold Double.round.
  assert (N : ~ q == 0) by lra.
  destruct (Qeq_bool q 0) eqn:Z; [apply Qeq_bool_eq in Z; contradiction|].
  assert (EL : Double.ilog2 (Qabs q) = L).
  { unfold L. apply ilog2_comp; [apply Qabs_pos_lt; exact N | apply Qabs_pos; lra]. }
  rewrite EL. rewrite Z.max_l by lia.
  set (e := (L - 52)%Z). set (x := q * Double.pow2 (- e)).
  assert (X1 : inject_Z (2 ^ 52) <= x).
  { unfold x. rewrite <- (pow2_Z 52) by lia.
    replace 52%Z with (L + - e)%Z by (unfold e; lia). rewrite pow2_plus.
    apply Qmult_le_r; [apply pow2_positive | exact S1]. }
  assert (X2 : x <= inject_Z (2 ^ 53)).
  { unfold x. rewrite <- (pow2_Z 53) by lia.
    replace 53%Z with (L + 1 + - e)%Z by (unfold e; lia). rewrite pow2_plus.
    apply Qmult_le_r; [apply pow2_positive | apply Qlt_le_weak; exact S2]. }
  apply roundHalfEven_ge in X1. apply roundHalfEven_le in X2.
  set (m := Double.roundHalfEven x) in *.
  destruct (Z.eq_dec m (2 ^ 53)%Z) as [T|T].
  - exists (2 ^ 52)%Z, (e + 1)%Z. split.
    + rewrite T. unfold Double.pack.
      change (Z.abs (2 ^ 53) =? 2 ^ 53)%Z with true. cbv iota beta.
      change (2 ^ 53 / 2)%Z with (2 ^ 52)%Z.
      rewrite (proj2 (Z.ltb_ge _ _)) by (unfold e; lia). reflexivity.
    + split; [lia|]. split; [unfold e; lia|]. split; [unfold e; lia|].
      rewrite T, pow2_plus.
      assert (P : inject_Z (2 ^ 53) == inject_Z (2 ^ 52) * Double.pow2 1)
        by (apply Qeq_bool_eq; vm_compute; reflexivity).
      rewrite P. ring.
  - exists m, e. split.
    + apply pack_canonical. unfold Double.canonical.
      rewrite Z.abs_eq by lia. unfold e. repeat split; lia.
    + split; [lia|]. split; [unfold e; lia|]. split; [unfold e; lia|]. reflexivity.
Qed.

Lemma value_nonzero (m e z : Z) :
  inject_Z m * Double.pow2 e == inject_Z z -> z <> 0%Z ->
  Qeq_bool (Double.value (Double.Finite m e)) 0 = false.
Proof.
  intros V N. destruct (Qeq_bool (Double.value (Double.Finite m e)) 0) eqn:Z; [|reflexivity].
  apply Qeq_bool_eq in Z. cbn [Double.value] in Z. rewrite V in Z.
  apply inject_Z_eq0 in Z. contradiction.
Qed.

Lemma pow2_m3 : Double.pow2 (-3) == 1 # 8.
Proof. apply Qeq_bool_eq. vm_compute. reflexivity. Qed.

(** [Math.floor(p / t / 8)] is the integer quotient as long as [p] is below
    [2^53]: the quotient is too far from the next multiple of eight for the
    rounding of the division to reach it. *)
Lemma floor_div_div8 (p t : Z) :
  (0 <= p < 2 ^ 53)%Z -> (0 < t <= 2 ^ 53)%Z ->
  Double.floor (Double.div (Double.div (Double.ofZ p) (Double.ofZ t)) (Double.ofZ 8))
  = Double.ofZ (p / t / 8).
Proof.
  intros Hp Ht.
  destruct (Z.eq_dec p 0%Z) as [->|P0].
  { destruct (ofZ_exact t) as (mt & et & Et & Vt); [unfold Double.exact; lia|].
    rewrite Et. change (Double.ofZ 0) with (Double.Finite 0 0). unfold Double.div at 2.
    rewrite (value_nonzero mt et t Vt) by lia.
    rewrite (round_comp _ 0)
      by (cbn [Double.value]; change (inject_Z 0) with 0; unfold Qdiv; ring).
    rewrite Zdiv_0_l. vm_compute. reflexivity. }
  destruct (ofZ_exact p) as (mp & ep & Ep & Vp); [unfold Double.exact; lia|].
  destruct (ofZ_exact t) as (mt & et & Et & Vt); [unfold Double.exact; lia|].
  destruct (ofZ_exact 8) as (m8 & e8 & E8 & V8); [unfold Double.exact; lia|].
  rewrite Ep, Et, E8. unfold Double.div at 2.
  assert (T0 : 0 < inject_Z t) by (apply inject_Z_lt0; lia).
  rewrite (value_nonzero mt et t Vt) by lia. cbn [Double.value]. rewrite (round_comp _ (inject_Z p / inject_Z t))
    by (rewrite Vp, Vt; reflexivity).
  set (q := inject_Z p / inject_Z t).
  assert (QT : q * inject_Z t == inject_Z p) by (unfold q; field; lra).
  assert (P1 : 1 <= inject_Z p) by (apply inject_Z_le1; lia).
  assert (P2 : inject_Z p < Double.pow2 53) by (rewrite pow2_Z by lia; rewrite <- Zlt_Qlt; lia).
  assert (T1 : 1 <= inject_Z t) by (apply inject_Z_le1; lia).
  assert (T2 : inject_Z t <= Double.pow2 53) by (rewrite pow2_Z by lia; rewrite <- Zle_Qle; lia).
  assert (Q0 : 0 < q).
  { apply (Qmult_lt_r _ _ _ T0). rewrite QT. lra. }
  assert (Q1 : q <= inject_Z p).
  { apply (Qmult_le_r _ _ _ T0). rewrite QT.
    rewrite <- (Qmult_1_r (inject_Z p)) at 1. apply Qmult_le_l; lra. }
  assert (Q2 : Double.pow2 (-53) <= q).
  { apply (Qmult_le_r _ _ _ T0). rewrite QT.
    apply Qle_trans with (Double.pow2 (-53) * Double.pow2 53).
    - apply Qmult_le_l; [apply pow2_positive | exact T2].
    - rewrite Qmult_comm, pow2_cancel. exact P1. }
  destruct (round_normal q) as (m & e & Ey & Hm & He & He' & Vy).
  { eapply Qle_trans; [apply (pow2_le (-1022) (-53)); lia | exact Q2]. }
  { eapply Qle_lt_trans; [exact Q1|]. eapply Qlt_trans; [exact P2|]. apply pow2_lt. lia. }
  destruct (ilog2_spec q Q0) as [S1 S2].
  set (L := Double.ilog2 q) in *. set (e0 := (L - 52)%Z) in *.
  assert (HL1 : (-53 < L + 1)%Z) by (apply pow2_lt_inv; eapply Qle_lt_trans; eassumption).
  assert (HL2 : (L < 53)%Z).
  { apply pow2_lt_inv. eapply Qle_lt_trans; [exact S1|]. eapply Qle_lt_trans; eassumption. }
  rewrite Ey. unfold Double.div.
  rewrite (value_nonzero m8 e8 8 V8) by lia.
  assert (Ez : Double.round (Double.value (Double.Finite m e) / Double.value (Double.Finite m8 e8))
               = Double.Finite m (e - 3)).
  { apply round_canonical.
    - unfold Double.canonical. rewrite Z.abs_eq by lia. repeat split; lia.
    - cbn [Double.value]. rewrite V8. unfold Z.sub. rewrite pow2_plus, pow2_m3.
      change (inject_Z 8) with (8 # 1). field. }
  rewrite Ez. unfold Double.floor. f_equal.
  set (N := (p / t / 8)%Z).
  assert (HN : (8 * t * N <= p /\ p + 1 <= 8 * t * (N + 1))%Z).
  { unfold N. rewrite Z.div_div by lia.
    pose proof (Z.div_mod p (t * 8)) as D. pose proof (Z.mod_pos_bound p (t * 8)) as B.
    nia. }
  destruct HN as [N1 N2].
  assert (N0 : (0 <= N)%Z) by (unfold N; apply Z.div_pos; [apply Z.div_pos|]; lia).
  (* the scale of the mantissa *)
  set (S := (2 ^ (- e0))%Z).
  assert (HS : Double.pow2 (- e0) == inject_Z S) by (unfold S; apply pow2_Z; unfold e0; lia).
  assert (S0 : 0 < Double.pow2 (- e0)) by apply pow2_positive.
  set (x := q * Double.pow2 (- e0)) in *.
  set (M := Double.roundHalfEven x) in *.
  assert (QN1 : inject_Z (8 * N) <= q).
  { apply (Qmult_le_r _ _ _ T0). rewrite QT, <- inject_Z_mult, <- Zle_Qle. lia. }
  assert (QN2 : 1 <= (inject_Z (8 * (N + 1)) - q) * inject_Z t).
  { assert (E : (inject_Z (8 * (N + 1)) - q) * inject_Z t
                == inject_Z (8 * (N + 1) * t - p)).
    { rewrite inject_Z_sub, !inject_Z_mult, <- QT. ring. }
    rewrite E. apply inject_Z_le1. lia. }
  assert (TS : inject_Z t < 2 * Double.pow2 (- e0)).
  { assert (E : 2 * Double.pow2 (- e0) == Double.pow2 (53 + - L)).
    { replace (53 + - L)%Z with (1 + - e0)%Z by (unfold e0; lia). rewrite pow2_plus.
      reflexivity. }
    rewrite E. apply (Qmult_lt_l _ _ (Double.pow2 L)); [apply pow2_positive|].
    rewrite <- pow2_plus. replace (L + (53 + - L))%Z with 53%Z by lia.
    eapply Qle_lt_trans; [|exact P2]. rewrite <- QT.
    apply Qmult_le_r; [exact T0 | exact S1]. }
  assert (M1 : (8 * N * S <= M)%Z).
  { apply roundHalfEven_ge. unfold x. rewrite inject_Z_mult, <- HS.
    apply Qmult_le_r; [exact S0 | exact QN1]. }
  assert (M2 : (M <= 8 * (N + 1) * S - 1)%Z).
  { apply roundHalfEven_below. unfold x. rewrite inject_Z_mult, <- HS.
    set (a := inject_Z (8 * (N + 1)) - q) in *.
    assert (A0 : 0 < a).
    { destruct (Qlt_le_dec 0 a) as [A|A]; [exact A|]. exfalso.
      assert (a * inject_Z t <= 0 * inject_Z t) by (apply Qmult_le_r; [exact T0 | exact A]).
      lra. }
    assert (A1 : a * inject_Z t < a * (2 * Double.pow2 (- e0)))
      by (apply Qmult_lt_l; [exact A0 | exact TS]).
    assert (A2 : inject_Z (8 * (N + 1)) * Double.pow2 (- e0) - q * Double.pow2 (- e0)
                 == a * Double.pow2 (- e0)) by (unfold a; ring).
    lra. }
  assert (C : Double.pow2 (- e0) * Double.pow2 e0 == 1).
  { rewrite <- pow2_plus, Z.add_opp_diag_l. reflexivity. }
  assert (V : Double.value (Double.Finite m (e - 3))
              == inject_Z M * Double.pow2 e0 * (1 # 8)).
  { cbn [Double.value]. unfold Z.sub at 1. rewrite pow2_plus, pow2_m3, Qmult_assoc, Vy.
    reflexivity. }
  assert (E0 : 0 < Double.pow2 e0) by apply pow2_positive.
  apply Qfloor_unique; rewrite V.
  - assert (B : inject_Z (8 * N * S) * Double.pow2 e0 <= inject_Z M * Double.pow2 e0).
    { apply Qmult_le_r; [exact E0|]. rewrite <- Zle_Qle. exact M1. }
    assert (B' : inject_Z (8 * N * S) * Double.pow2 e0 == 8 * inject_Z N).
    { rewrite !inject_Z_mult, <- HS, <- !Qmult_assoc, C. change (inject_Z 8) with 8. ring. }
    lra.
  - assert (B : inject_Z M * Double.pow2 e0 <= inject_Z (8 * (N + 1) * S - 1) * Double.pow2 e0).
    { apply Qmult_le_r; [exact E0|]. rewrite <- Zle_Qle. exact M2. }
    assert (B' : inject_Z (8 * (N + 1) * S - 1) * Double.pow2 e0
                 == 8 * inject_Z (N + 1) - Double.pow2 e0).
    { rewrite inject_Z_sub, !inject_Z_mult, <- HS.
      change (inject_Z 8) with 8. change (inject_Z 1) with 1.
      transitivity (8 * inject_Z (N + 1) * (Double.pow2 (- e0) * Double.pow2 e0) - Double.pow2 e0);
        [ring | rewrite C; ring]. }
    lra.
Qed.


(** [toZ] reads an integer of the exact range back. *)
Lemma toZ_ofZ (z : Z) : Double.exact z -> Double.toZ (Double.ofZ z) = Some z.
Proof.
  intros H. destruct (ofZ_exact z H) as (m & e & -> & V). unfold Double.toZ.
  destruct (Z.leb_spec 0 e) as [L|L].
  - f_equal. apply (proj1 (inject_Z_injective _ _)).
    rewrite inject_Z_mult, <- (pow2_Z e) by exact L. exact V.
  - assert (P : (0 < 2 ^ (- e))%Z) by (apply Z.pow_pos_nonneg; lia).
    assert (E : m = (z * 2 ^ (- e))%Z).
    { apply (proj1 (inject_Z_injective _ _)).
      rewrite inject_Z_mult, <- (pow2_Z (- e)) by lia. rewrite <- V.
      rewrite <- Qmult_assoc, pow2_cancel. ring. }
    rewrite E, Z.mod_mul, Z.div_mul by lia. reflexivity.
Qed.

End DoubleFacts.

(** On the sample pairs the four operations give what the operations of the
    Standard Library's binary64 give. *)
Lemma operations_agree_with_binary64 :
  forallb (fun p => sameOperations (fst p) (snd p)) samples = true.
Proof. vm_compute. reflexivity. Qed.

(** ** Fees *)

Lemma exact_range (z : Z) : -(2 ^ 53) <= z <= 2 ^ 53 -> Double.exact z.
Proof. unfold Double.exact. lia. Qed.

(** In the exact range the methods of a transaction compute on doubles what
    their reading on integers computes. *)
Lemma getEffectiveGasPrice_exact (tx : Transaction.t) (baseFeePerGas : Z) :
  exactFees tx baseFeePerGas ->
  DoubleTransaction.getEffectiveGasPrice tx (Double.ofZ baseFeePerGas)
  = Double.ofZ (Transaction.getEffectiveGasPrice tx baseFeePerGas).
Proof.
  intros (Ht & Hc & Hb & Hd & He).
  unfold DoubleTransaction.getEffectiveGasPrice, Transaction.getEffectiveGasPrice.
  cbv zeta.
  rewrite sub_ofZ, min_ofZ, add_ofZ; try assumption; [reflexivity|].
  unfold Double.exact in *. lia.
Qed.

Lemma getGasCost_exact (tx : Transaction.t) (baseFeePerGas : Z) :
  exactFees tx baseFeePerGas ->
  Double.exact (Transaction.gasLimit tx) ->
  DoubleTransaction.getGasCost tx (Double.ofZ baseFeePerGas)
  = Double.ofZ (Transaction.getGasCost tx baseFeePerGas).
Proof.
  intros Hf Hg. unfold DoubleTransaction.getGasCost, Transaction.getGasCost. cbv zeta.
  rewrite getEffectiveGasPrice_exact by exact Hf.
  apply mul_ofZ; [exact Hg | apply Hf].
Qed.

Lemma isValidForBaseFee_exact (tx : Transaction.t) (baseFeePerGas : Z) :
  exactFees tx baseFeePerGas ->
  DoubleTransaction.isValidForBaseFee tx (Double.ofZ baseFeePerGas)
  = Transaction.isValidForBaseFee tx baseFeePerGas.
Proof.
  intros Hf. pose proof Hf as (Ht & Hc & Hb & Hd & He).
  unfold DoubleTransaction.isValidForBaseFee, Transaction.isValidForBaseFee. cbv zeta.
  rewrite getEffectiveGasPrice_exact by exact Hf.
  unfold Double.geb. rewrite !leb_ofZ by assumption.
  rewrite Z.geb_leb. reflexivity.
Qed.

(** C8 as amended.  With a priority fee that is not negative, a fee cap at
    or above the base fee, and fees in the range of the exact integers, the
    effective gas price lies between the base fee and the cap, in the doubles
    and with the comparisons the source computes with. *)
Theorem C8_effective_gas_price_bounds (tx : Transaction.t) (baseFeePerGas : Z) :
  exactFees tx baseFeePerGas ->
  baseFeePerGas <= Transaction.maxFeePerGas tx ->
  0 <= Transaction.maxPriorityFeePerGas tx ->
  let effectiveGasPrice :=
    DoubleTransaction.getEffectiveGasPrice tx (Double.ofZ baseFeePerGas) in
  (Double.ofZ baseFeePerGas <=? effectiveGasPrice)%double = true
  /\ (effectiveGasPrice <=? Double.ofZ (Transaction.maxFeePerGas tx))%double = true.
Proof.
  intros Hf Hcap Htip. pose proof Hf as (Ht & Hc & Hb & Hd & He). cbv zeta.
  rewrite getEffectiveGasPrice_exact by exact Hf.
  rewrite !leb_ofZ by assumption.
  unfold Transaction.getEffectiveGasPrice. cbv zeta. split; apply Z.leb_le; lia.
Qed.

(** On integers the upper bound needs no assumption at all. *)
Lemma getEffectiveGasPrice_le_cap (tx : Transaction.t) (baseFeePerGas : Z) :
  Transaction.getEffectiveGasPrice tx baseFeePerGas <= Transaction.maxFeePerGas tx.
Proof. unfold Transaction.getEffectiveGasPrice. lia. Qed.

(** C8, counterexample.  The cap 10 is above the base fee 5, yet the effective
    gas price is 4, below the base fee: on integers, and in the doubles of
    the source, whose comparison with the base fee fails. *)
Lemma C8_counterexample :
  5 <= Transaction.maxFeePerGas negativeTipTransaction
  /\ Transaction.getEffectiveGasPrice negativeTipTransaction 5 = 4
  /\ ~ (5 <= Transaction.getEffectiveGasPrice negativeTipTransaction 5
          <= Transaction.maxFeePerGas negativeTipTransaction)
  /\ Double.toZ (DoubleTransaction.getEffectiveGasPrice negativeTipTransaction (Double.ofZ 5))
     = Some 4
  /\ (Double.ofZ 5
      <=? DoubleTransaction.getEffectiveGasPrice negativeTipTransaction (Double.ofZ 5))%double
     = false.
Proof.
  vm_compute. repeat split; try discriminate. intros [H _]. now apply H.
Qed.

(** Beyond the exact range the upper bound fails as well: the cap
    9007199254740998 is a double, the difference to the base fee 3 is not,
    and the sum that comes back is 9007199254741000. *)
Lemma effective_gas_price_above_the_cap :
  let effectiveGasPrice :=
    DoubleTransaction.getEffectiveGasPrice largeCapTransaction (Double.ofZ 3) in
  3 <= Transaction.maxFeePerGas largeCapTransaction
  /\ 0 <= Transaction.maxPriorityFeePerGas largeCapTransaction
  /\ Double.toZ effectiveGasPrice = Some 9007199254741000
  /\ (effectiveGasPrice <=? Double.ofZ (Transaction.maxFeePerGas largeCapTransaction))%double
     = false
  /\ DoubleTransaction.isValidForBaseFee largeCapTransaction (Double.ofZ 3) = false.
Proof. vm_compute. repeat split; (reflexivity || discriminate). Qed.

Lemma C8_effective_gas_price_bounds_witness :
  exactFees cappedTransaction 5
  /\ (Double.ofZ 5
      <=? DoubleTransaction.getEffectiveGasPrice cappedTransaction (Double.ofZ 5))%double
     = true
  /\ (DoubleTransaction.getEffectiveGasPrice cappedTransaction (Double.ofZ 5)
      <=? Double.ofZ 10)%double = true.
Proof.
  assert (E : exactFees cappedTransaction 5) by (repeat split; vm_compute; discriminate).
  split; [exact E|].
  apply (C8_effective_gas_price_bounds cappedTransaction 5 E); vm_compute; discriminate.
Defined.

(** The reading of [calculateNextBaseFee] on integers: the quotients are
    integer quotients. *)
Lemma calculateNextBaseFee_integers (b : Block.t) (targetGasUsed : Z) :
  let used := Block.getTotalGasUsed b in
  let baseFee := Block.baseFeePerGas b in
  (used = targetGasUsed -> Block.calculateNextBaseFee b targetGasUsed = Int baseFee)
  /\ (targetGasUsed <> 0 -> targetGasUsed < used ->
      Block.calculateNextBaseFee b targetGasUsed
      = Int (baseFee + baseFee * (used - targetGasUsed) / targetGasUsed / 8))
  /\ (targetGasUsed <> 0 -> used < targetGasUsed ->
      Block.calculateNextBaseFee b targetGasUsed
      = Int (Z.max 0 (baseFee - baseFee * (targetGasUsed - used) / targetGasUsed / 8))).
Proof.
  intros used baseFee. unfold Block.calculateNextBaseFee. fold used. fold baseFee.
  repeat split.
  - intros ->. now rewrite Z.eqb_refl.
  - intros Ht Hlt.
    destruct (Z.eqb_spec used targetGasUsed); [lia|].
    destruct (Z.ltb_spec targetGasUsed used); [|lia].
    now rewrite floorDiv8_nonzero.
  - intros Ht Hlt.
    destruct (Z.eqb_spec used targetGasUsed); [lia|].
    destruct (Z.ltb_spec targetGasUsed used); [lia|].
    now rewrite floorDiv8_nonzero.
Qed.

Lemma gasSum_le (txs : list Block.entry) (acc : Z) :
  Forall (fun e => 0 <= entryGas e) txs ->
  acc <= fold_left (fun total e => total + entryGas e) txs acc.
Proof.
  revert acc. induction txs as [|e txs IH]; intros acc H; cbn [fold_left]; [lia|].
  inversion H as [|? ? He Hr]; subst. specialize (IH (acc + entryGas e) Hr). lia.
Qed.

Lemma getTotalGasUsed_entryGas (b : Block.t) :
  Block.getTotalGasUsed b
  = fold_left (fun total e => total + entryGas e) (Block.transactions b) 0.
Proof.
  unfold Block.getTotalGasUsed. generalize 0.
  induction (Block.transactions b) as [|e txs IH]; intros acc; cbn [fold_left]; [reflexivity|].
  rewrite IH. destruct e; reflexivity.
Qed.

(** With gas limits that are not negative and a total in the exact range,
    every partial sum is exact and the gas used is the integer sum. *)
Lemma getTotalGasUsed_exact (b : Block.t) :
  Forall (fun e => 0 <= entryGas e) (Block.transactions b) ->
  Block.getTotalGasUsed b <= 2 ^ 53 ->
  DoubleBlock.getTotalGasUsed b = Double.ofZ (Block.getTotalGasUsed b).
Proof.
  rewrite getTotalGasUsed_entryGas. unfold DoubleBlock.getTotalGasUsed.
  assert (G : forall txs acc,
             0 <= acc ->
             Forall (fun e => 0 <= entryGas e) txs ->
             fold_left (fun total e => total + entryGas e) txs acc <= 2 ^ 53 ->
             fold_left (fun total e =>
                          let gasUsed :=
                            match e with
                            | Block.TxObj tx => Double.ofZ (Transaction.gasLimit tx)
                            | Block.TxHash _ => Double.ofZ 21000
                            end in
                          (total + gasUsed)%double) txs (Double.ofZ acc)
             = Double.ofZ (fold_left (fun total e => total + entryGas e) txs acc)).
  { induction txs as [|e txs IH]; intros acc Hacc H Hsum; cbn [fold_left]; [reflexivity|].
    inversion H as [|? ? He Hr]; subst. cbn [fold_left] in Hsum.
    pose proof (gasSum_le txs (acc + entryGas e) Hr) as Hle.
    rewrite <- IH; [|lia|exact Hr|exact Hsum].
    f_equal. cbv zeta.
    replace (match e with
             | Block.TxObj tx => Double.ofZ (Transaction.gasLimit tx)
             | Block.TxHash _ => Double.ofZ 21000
             end) with (Double.ofZ (entryGas e)) by (destruct e; reflexivity).
    apply add_ofZ; apply exact_range; lia. }
  intros H Hsum. apply G; [lia | exact H | exact Hsum].
Qed.

(** The change of the base fee: the product is exact, and the quotient is
    floored to the integer quotient. *)
Lemma floorDiv_exact (baseFee delta target : Z) :
  0 <= baseFee -> 0 < delta <= 2 ^ 53 -> 0 < target <= 2 ^ 53 ->
  baseFee * (1 + delta) <= 2 ^ 53 ->
  Double.floor (Double.ofZ baseFee * Double.ofZ delta / Double.ofZ target / Double.ofZ 8)%double
  = Double.ofZ (baseFee * delta / target / 8)
  /\ 0 <= baseFee * delta / target / 8 <= baseFee * delta.
Proof.
  intros Hb Hd Ht Hp.
  assert (Hb' : baseFee <= 2 ^ 53) by nia.
  assert (Hprod : 0 <= baseFee * delta < 2 ^ 53) by nia.
  rewrite mul_ofZ by (apply exact_range; lia).
  split; [apply floor_div_div8; lia|].
  rewrite Z.div_div by lia. split.
  - apply Z.div_pos; lia.
  - apply Z.div_le_upper_bound; nia.
Qed.

Lemma calculateNextBaseFee_in_doubles (b : Block.t) (targetGasUsed : Z) :
  let used := Block.getTotalGasUsed b in
  let baseFee := Block.baseFeePerGas b in
  let next := Double.toZ (DoubleBlock.calculateNextBaseFee b (Double.ofZ targetGasUsed)) in
  Forall (fun e => 0 <= entryGas e) (Block.transactions b) ->
  0 <= baseFee ->
  0 < targetGasUsed <= 2 ^ 53 ->
  used <= 2 ^ 53 ->
  baseFee * (1 + Z.abs (used - targetGasUsed)) <= 2 ^ 53 ->
  (used = targetGasUsed -> next = Some baseFee)
  /\ (targetGasUsed < used ->
      next = Some (baseFee + baseFee * (used - targetGasUsed) / targetGasUsed / 8))
  /\ (used < targetGasUsed ->
      next = Some (Z.max 0 (baseFee - baseFee * (targetGasUsed - used) / targetGasUsed / 8))).
Proof.
  intros used baseFee next Hgas Hb Ht Hu Hp.
  assert (Hu0 : 0 <= used).
  { unfold used. rewrite getTotalGasUsed_entryGas. apply (gasSum_le _ 0 Hgas). }
  assert (Hb' : baseFee <= 2 ^ 53) by nia.
  assert (Eu : DoubleBlock.getTotalGasUsed b = Double.ofZ used)
    by (apply getTotalGasUsed_exact; assumption).
  unfold next, DoubleBlock.calculateNextBaseFee. cbv zeta. rewrite Eu. fold baseFee.
  unfold Double.gtb.
  rewrite eqb_ofZ, ltb_ofZ by (apply exact_range; lia).
  repeat split.
  - intros E. rewrite (proj2 (Z.eqb_eq _ _) E). apply toZ_ofZ, exact_range. lia.
  - intros L. rewrite (proj2 (Z.eqb_neq _ _)) by lia. rewrite (proj2 (Z.ltb_lt _ _) L).
    rewrite sub_ofZ by (apply exact_range; lia).
    destruct (floorDiv_exact baseFee (used - targetGasUsed) targetGasUsed) as [F B];
      [lia | lia | lia | rewrite Z.abs_eq in Hp by lia; exact Hp |].
    rewrite F, add_ofZ by (apply exact_range; nia).
    apply toZ_ofZ, exact_range. nia.
  - intros L. rewrite (proj2 (Z.eqb_neq _ _)) by lia. rewrite (proj2 (Z.ltb_ge _ _)) by lia.
    rewrite sub_ofZ by (apply exact_range; lia).
    destruct (floorDiv_exact baseFee (targetGasUsed - used) targetGasUsed) as [F B];
      [lia | lia | lia | rewrite Z.abs_neq in Hp by lia;
                         replace (targetGasUsed - used) with (- (used - targetGasUsed)) by lia;
                         exact Hp |].
    rewrite F, sub_ofZ, max_ofZ by (apply exact_range; nia).
    apply toZ_ofZ, exact_range. nia.
Qed.

(** C7 as amended.  Take a block whose gas limits are not negative, a base
    fee that is not negative and a positive target, and let the base fee
    times one more than the distance of the gas used from the target be at
    most [2^53], so that every number the computation meets is an integer
    JavaScript holds exactly.  Then [calculateNextBaseFee] returns the base
    fee itself when the gas used equals the target; above the target it adds
    [baseFee * (used - target) / target / 8], below the target it subtracts
    [baseFee * (target - used) / target / 8] and does not go below zero.  The
    quotients are integer quotients: the source floors the quotient, and in
    this range the rounding of the division does not reach the next
    integer. *)
Theorem C7_calculateNextBaseFee (b : Block.t) (targetGasUsed : Z) :
  let used := Block.getTotalGasUsed b in
  let baseFee := Block.baseFeePerGas b in
  let next := Double.toZ (DoubleBlock.calculateNextBaseFee b (Double.ofZ targetGasUsed)) in
  Forall (fun e => 0 <= entryGas e) (Block.transactions b) ->
  0 <= baseFee ->
  0 < targetGasUsed <= 2 ^ 53 ->
  used <= 2 ^ 53 ->
  baseFee * (1 + Z.abs (used - targetGasUsed)) <= 2 ^ 53 ->
  (used = targetGasUsed -> next = Some baseFee)
  /\ (targetGasUsed < used ->
      next = Some (baseFee + baseFee * (used - targetGasUsed) / targetGasUsed / 8))
  /\ (used < targetGasUsed ->
      next = Some (Z.max 0 (baseFee - baseFee * (targetGasUsed - used) / targetGasUsed / 8))).
Proof. exact (calculateNextBaseFee_in_doubles b targetGasUsed). Qed.

(** In that range the reading on integers, which the ledger uses, returns
    what the doubles return. *)
Lemma calculateNextBaseFee_agrees (b : Block.t) (targetGasUsed : Z) :
  Forall (fun e => 0 <= entryGas e) (Block.transactions b) ->
  0 <= Block.baseFeePerGas b ->
  0 < targetGasUsed <= 2 ^ 53 ->
  Block.getTotalGasUsed b <= 2 ^ 53 ->
  Block.baseFeePerGas b * (1 + Z.abs (Block.getTotalGasUsed b - targetGasUsed)) <= 2 ^ 53 ->
  exists next,
    Block.calculateNextBaseFee b targetGasUsed = Int next
    /\ Double.toZ (DoubleBlock.calculateNextBaseFee b (Double.ofZ targetGasUsed)) = Some next.
Proof.
  intros Hgas Hb Ht Hu Hp.
  destruct (calculateNextBaseFee_in_doubles b targetGasUsed Hgas Hb Ht Hu Hp)
    as (D1 & D2 & D3).
  destruct (calculateNextBaseFee_integers b targetGasUsed) as (I1 & I2 & I3).
  cbv zeta in *.
  destruct (Z.lt_trichotomy (Block.getTotalGasUsed b) targetGasUsed) as [L|[E|L]].
  - eexists. split; [apply I3; lia | apply D3; exact L].
  - eexists. split; [apply I1; exact E | apply D1; exact E].
  - eexists. split; [apply I2; lia | apply D2; exact L].
Qed.

Lemma C7_calculateNextBaseFee_witness :
  Forall (fun e => 0 <= entryGas e) (Block.transactions busyBlock)
  /\ Double.toZ (DoubleBlock.calculateNextBaseFee busyBlock (Double.ofZ 30)) = Some 100
  /\ Double.toZ (DoubleBlock.calculateNextBaseFee busyBlock (Double.ofZ 10)) = Some 125
  /\ Double.toZ (DoubleBlock.calculateNextBaseFee busyBlock (Double.ofZ 60)) = Some 94.
Proof.
  assert (G : Forall (fun e => 0 <= entryGas e) (Block.transactions busyBlock))
    by (repeat constructor; simpl; lia).
  assert (U : Block.getTotalGasUsed busyBlock = 30) by reflexivity.
  assert (B : Block.baseFeePerGas busyBlock = 100) by reflexivity.
  split; [exact G|].
  split; [|split].
  - destruct (C7_calculateNextBaseFee busyBlock 30 G) as (H & _ & _);
      rewrite ?U, ?B; try lia. apply H. reflexivity.
  - destruct (C7_calculateNextBaseFee busyBlock 10 G) as (_ & H & _);
      rewrite ?U, ?B; try lia. apply H. lia.
  - destruct (C7_calculateNextBaseFee busyBlock 60 G) as (_ & _ & H);
      rewrite ?U, ?B; try lia. apply H. lia.
Defined.

(** C7, counterexample.  At the base fee 1055979001, with 21001 gas used and
    the target 15000000, the product of the base fee and the distance is
    above [2^53]: the doubles of the source give 924166431 where the integer
    quotient gives 924166432. *)
Lemma C7_counterexample :
  let used := Block.getTotalGasUsed gweiBlock in
  let baseFee := Block.baseFeePerGas gweiBlock in
  used < 15000000
  /\ 2 ^ 53 < baseFee * (15000000 - used)
  /\ Double.toZ (DoubleBlock.calculateNextBaseFee gweiBlock (Double.ofZ 15000000))
     = Some 924166431
  /\ Z.max 0 (baseFee - baseFee * (15000000 - used) / 15000000 / 8) = 924166432.
Proof. vm_compute. repeat split; reflexivity. Qed.

(** ** The Bloom filter *)
Section BloomFacts.
Context {crypto : Crypto}.

(** Writing 1 at a list of positions: a position of the list reads 1
    afterwards, any other position reads what it read before. *)
Lemma setBits_lookup (hashes : list (option N)) (arr : gmap (option N) Z) (k : option N) :
  fold_left (fun a h => <[h := 1]> a) hashes arr !! k
  = if decide (k ∈ hashes) then Some 1 else arr !! k.
Proof.
  revert arr. induction hashes as [|h hs IH]; intros arr; cbn [fold_left].
  - destruct (decide (k ∈ [])) as [Hin|_]; [now apply not_elem_of_nil in Hin | reflexivity].
  - rewrite IH. destruct (decide (k ∈ hs)) as [Hin|Hnin].
    + rewrite decide_True; [reflexivity | now right].
    + destruct (decide (h = k)) as [->|Hne].
      * rewrite lookup_insert_eq. rewrite decide_True; [reflexivity | now left].
      * rewrite lookup_insert_ne by assumption.
        rewrite decide_False; [reflexivity|].
        intros Hin. apply elem_of_cons in Hin as [->|Hin]; congruence.
Qed.

Lemma add_getHashes (f : BloomFilter.t) (x y : option string) :
  BloomFilter._getHashes (BloomFilter.add f x) y = BloomFilter._getHashes f y.
Proof. reflexivity. Qed.

(** Bits are only ever set: a position that reads 1 still reads 1 after [add]. *)
Lemma add_keeps_bit (f : BloomFilter.t) (x : option string) (k : option N) :
  BloomFilter.bitArray f !! k = Some 1 ->
  BloomFilter.bitArray (BloomFilter.add f x) !! k = Some 1.
Proof.
  intros H. unfold BloomFilter.add; simpl. rewrite setBits_lookup.
  now case_decide.
Qed.

Lemma add_sets_bits (f : BloomFilter.t) (x : option string) (k : option N) :
  k ∈ BloomFilter._getHashes f x ->
  BloomFilter.bitArray (BloomFilter.add f x) !! k = Some 1.
Proof.
  intros H. unfold BloomFilter.add; simpl. rewrite setBits_lookup.
  now rewrite decide_True.
Qed.

Lemma addAll_getHashes (items : list (option string)) (f : BloomFilter.t) (y : option string) :
  BloomFilter._getHashes (fold_left BloomFilter.add items f) y = BloomFilter._getHashes f y.
Proof.
  revert f. induction items as [|i items IH]; intros f; simpl; [reflexivity|].
  now rewrite IH, add_getHashes.
Qed.

Lemma addAll_keeps_bit (items : list (option string)) (f : BloomFilter.t) (k : option N) :
  BloomFilter.bitArray f !! k = Some 1 ->
  BloomFilter.bitArray (fold_left BloomFilter.add items f) !! k = Some 1.
Proof.
  revert f. induction items as [|i items IH]; intros f H; simpl; [assumption|].
  apply IH. now apply add_keeps_bit.
Qed.

Lemma mightContain_of_bits (f : BloomFilter.t) (x : option string) :
  (forall k, k ∈ BloomFilter._getHashes f x -> BloomFilter.bitArray f !! k = Some 1) ->
  BloomFilter.mightContain f x = true.
Proof.
  intros H. unfold BloomFilter.mightContain. apply forallb_forall.
  intros k Hin. apply list_elem_of_In in Hin. rewrite (H k Hin).
  reflexivity.
Qed.

(** C5. Once an item has been passed to [add], [mightContain] returns [true]
    for it, whatever the filter held before and however many other items are
    added afterwards: the filter has no false negatives. *)
Theorem C5_bloom_no_false_negative
  (f : BloomFilter.t) (item : option string) (others : list (option string)) :
  BloomFilter.mightContain (fold_left BloomFilter.add others (BloomFilter.add f item)) item
  = true.
Proof.
  apply mightContain_of_bits. intros k Hk.
  rewrite addAll_getHashes, add_getHashes in Hk.
  apply addAll_keeps_bit. now apply add_sets_bits.
Qed.

End BloomFacts.

(** ** Merkle trees *)
Section MerkleFacts.
Variable H : string -> string.

Lemma findIndex_absent (x : string) (l : list string) :
  x ∉ l -> MerkleCore.findIndex x l = None.
Proof.
  induction l as [|h r IH]; intros Hnin; simpl; [reflexivity|].
  apply not_elem_of_cons in Hnin as [Hne Hr].
  destruct (String.eqb_spec h x) as [->|_]; [contradiction|].
  now rewrite IH.
Qed.

Lemma findIndex_present (x : string) (l : list string) :
  x ∈ l -> exists i, MerkleCore.findIndex x l = Some i /\ l !! i = Some x.
Proof.
  induction l as [|h r IH]; intros Hin; [now apply not_elem_of_nil in Hin|].
  simpl. destruct (String.eqb_spec h x) as [->|Hne].
  - exists O. split; reflexivity.
  - apply elem_of_cons in Hin as [->|Hin]; [contradiction|].
    destruct (IH Hin) as (i & -> & Hi). exists (S i). split; [reflexivity | exact Hi].
Qed.

(** A hash that is not a leaf has no proof: [getProof] returns [null]. *)
Lemma getProof_absent (transactions : list (option string)) (x : string) :
  x ∉ map (MerkleCore.leafOf H) transactions ->
  MerkleCore.getProof (MerkleCore._buildTree H transactions) x = None.
Proof.
  intros Hnin. unfold MerkleCore._buildTree, MerkleCore.getProof.
  destruct transactions as [|t ts]; [reflexivity|].
  now rewrite findIndex_absent.
Qed.

(** A leaf always has a proof object. *)
Lemma getProof_present (transactions : list (option string)) (x : string) :
  x ∈ map (MerkleCore.leafOf H) transactions ->
  is_Some (MerkleCore.getProof (MerkleCore._buildTree H transactions) x).
Proof.
  intros Hin. unfold MerkleCore._buildTree, MerkleCore.getProof.
  destruct transactions as [|t ts]; [now apply not_elem_of_nil in Hin|].
  destruct (findIndex_present _ _ Hin) as (i & -> & _). eexists; reflexivity.
Qed.

(** The tree over three leaves, whatever the node hash: the proof of the
    third leaf records [undefined] as its first sibling, and verification
    hashes the text of [undefined] where the tree hashed the leaf with
    itself. *)
Lemma three_leaves_proof (a b c : string) :
  c <> a -> c <> b ->
  let tree := MerkleCore._buildTree H [Some a; Some b; Some c] in
  MerkleCore.rootOf tree = Some (H (H (a +:+ b) +:+ H (c +:+ c)))
  /\ MerkleCore.getProof tree c
     = Some (MerkleCore.Proof [false; true] [None; Some (H (a +:+ b))])
  /\ MerkleCore.verifySteps H [false; true] 0 [None; Some (H (a +:+ b))] c
     = H (H (a +:+ b) +:+ H (c +:+ "undefined")).
Proof.
  intros Ha Hb. cbn.
  destruct (String.eqb_spec a c) as [->|_]; [contradiction|].
  destruct (String.eqb_spec b c) as [->|_]; [contradiction|].
  rewrite String.eqb_refl. cbn. repeat split.
Qed.

End MerkleFacts.

(** C2, evaluated at the leaves [a], [b], [c] and the leaf [c].  The tree of
    [MerkleTree] pairs the third leaf with itself, [getProof] returns a proof
    whose first sibling is [undefined], and [verifyProof] returns [false] for
    that proof against the root of the tree. *)
Theorem C2_merkle_round_trip_fails_on_odd_level :
  let tree := MerkleTree.new (crypto := nodeCrypto) [Some "a"; Some "b"; Some "c"] in
  exists p,
    MerkleTree.getProof tree "c" = Some p
    /\ MerkleCore.siblings p !! 0%nat = Some None
    /\ MerkleTree.verifyProof (crypto := nodeCrypto) "c" p (MerkleTree.getRoot tree) = false
    /\ MerkleTree.getProof tree "d" = None.
Proof.
  eexists. split; [vm_compute; reflexivity|]. vm_compute. repeat split.
Qed.

(** The same leaves in the tree of [EnhancedMerkleTree]. *)
Lemma enhanced_merkle_round_trip_fails_on_odd_level :
  let tree := EnhancedMerkleTree.new (crypto := nodeCrypto) [Some "a"; Some "b"; Some "c"]
                                     "tree" in
  EnhancedMerkleTree.verifyTransactionInclusion (crypto := nodeCrypto) tree "c" = (true, false)
  /\ EnhancedMerkleTree.verifyTransactionInclusion (crypto := nodeCrypto) tree "a" = (true, true).
Proof. vm_compute. split; reflexivity. Qed.

(** ** Proof of work *)

Lemma startsWith_length (p s : string) :
  startsWith p s = true -> (String.length p <= String.length s)%nat.
Proof.
  revert s. induction p as [|a p IH]; intros s Hs; simpl; [lia|].
  destruct s as [|b s]; simpl in Hs; [discriminate|].
  destruct (Ascii.eqb a b); [|discriminate].
  apply IH in Hs. simpl. lia.
Qed.

Lemma repeat0_length (n : N) : String.length (repeat0 n) = N.to_nat n.
Proof.
  unfold repeat0. induction (N.to_nat n) as [|k IH]; simpl; [reflexivity | now rewrite IH].
Qed.

(** A target longer than the digest is never met. *)
Lemma target_too_long (d : N) (h : string) :
  (String.length h < N.to_nat d)%nat -> startsWith (repeat0 d) h = false.
Proof.
  intros Hlt. destruct (startsWith (repeat0 d) h) eqn:E; [|reflexivity].
  apply startsWith_length in E. rewrite repeat0_length in E. lia.
Qed.

Section MiningFacts.
Context {crypto : Crypto}.

Lemma mineLoop_difficulty (n : nat) (b : Block.t) :
  Block.difficulty (snd (Block.mineLoop n b)) = Block.difficulty b.
Proof.
  revert b. induction n as [|n IH]; intros b; simpl; [reflexivity|].
  destruct (startsWith _ _); simpl; [reflexivity|]. now rewrite IH.
Qed.

Lemma mineLoop_transactions (n : nat) (b : Block.t) :
  Block.transactions (snd (Block.mineLoop n b)) = Block.transactions b.
Proof.
  revert b. induction n as [|n IH]; intros b; simpl; [reflexivity|].
  destruct (startsWith _ _); simpl; [reflexivity|]. now rewrite IH.
Qed.

(** When no digest meets the target, the loop uses up its attempts and
    reports failure. *)
Lemma mineLoop_fails (n : nat) (b : Block.t) :
  (forall s, startsWith (repeat0 (Block.difficulty b)) (CryptoUtils.doubleSha256 s) = false) ->
  fst (Block.mineLoop n b) = false.
Proof.
  revert b. induction n as [|n IH]; intros b Hnever; simpl; [reflexivity|].
  rewrite Hnever. apply IH. exact Hnever.
Qed.

Lemma enhanced_mineLoop_transactions (n : nat) (b : EnhancedBlock.t) :
  EnhancedBlock.transactions (snd (EnhancedBlock.mineLoop n b)) = EnhancedBlock.transactions b.
Proof.
  revert b. induction n as [|n IH]; intros b; simpl; [reflexivity|].
  destruct (startsWith _ _); simpl; [reflexivity|]. now rewrite IH.
Qed.

Lemma enhanced_mineLoop_fails (n : nat) (b : EnhancedBlock.t) :
  (forall s, startsWith (repeat0 (EnhancedBlock.difficulty b)) (sha256 s) = false) ->
  fst (EnhancedBlock.mineLoop n b) = false.
Proof.
  revert b. induction n as [|n IH]; intros b Hnever; simpl; [reflexivity|].
  rewrite Hnever. apply IH. exact Hnever.
Qed.

(** C3. When the proof-of-work search of [mineBlock] fails, [mineBlock]
    returns [null] and the ledger is the ledger it was called on, in the basic
    and in the enhanced chain; and whenever [mineBlock] returns [null] the
    ledger is unchanged. *)
Theorem C3_failed_mining_leaves_ledger_unchanged
  (now : Z) (minerAddress : string) (bc : Blockchain.t) (ebc : EnhancedBlockchain.t) :
  (forall latest,
      Blockchain.getLatestBlock bc = Some latest ->
      fst (Block.mine (Blockchain.candidateBlock now bc latest)) = false ->
      Blockchain.mineBlock now bc minerAddress = Returned None bc)
  /\ (forall latest,
      EnhancedBlockchain.getLatestBlock ebc = Some latest ->
      fst (EnhancedBlock.mine (EnhancedBlockchain.candidateBlock now ebc latest minerAddress))
      = false ->
      EnhancedBlockchain.mineBlock now ebc minerAddress = Returned None ebc)
  /\ (forall bc', Blockchain.mineBlock now bc minerAddress = Returned None bc' -> bc' = bc)
  /\ (forall ebc',
      EnhancedBlockchain.mineBlock now ebc minerAddress = Returned None ebc' -> ebc' = ebc).
Proof.
  repeat split.
  - intros latest Hl Hf. unfold Blockchain.mineBlock. rewrite Hl.
    destruct (Block.mine _) as [mined b0]. simpl in Hf. now subst mined.
  - intros latest Hl Hf. unfold EnhancedBlockchain.mineBlock. rewrite Hl.
    destruct (EnhancedBlock.mine _) as [mined b0]. simpl in Hf. now subst mined.
  - intros bc'. unfold Blockchain.mineBlock.
    destruct (Blockchain.getLatestBlock bc) as [latest|]; [|discriminate].
    destruct (Block.mine _) as [[|] b0].
    + destruct (Blockchain._updateUTXOSet _ _) as [bc2 [|]]; discriminate.
    + now intros [= <-].
  - intros ebc'. unfold EnhancedBlockchain.mineBlock.
    destruct (EnhancedBlockchain.getLatestBlock ebc) as [latest|]; [|discriminate].
    destruct (EnhancedBlock.mine _) as [[|] b0]; [discriminate|].
    now intros [= <-].
Qed.

End MiningFacts.

(** A SHA-256 digest is printed as 64 hexadecimal digits. *)
Lemma digest_length (s : string) : String.length (SHA256.digest s) = 64%nat.
Proof.
  unfold SHA256.digest.
  destruct (SHA256.blocks _ _ _) as [a b c d e f g h].
  reflexivity.
Qed.

Lemma node_digest_never_meets (d : N) (s : string) :
  (64 < d)%N -> startsWith (repeat0 d) (SHA256.digest s) = false.
Proof. intros Hd. apply target_too_long. rewrite digest_length. lia. Qed.

Section LedgerShape.
Context {crypto : Crypto}.

(** The constructors leave the genesis block as the latest block. *)
Lemma getLatestBlock_new (now : Z) (c : Blockchain.config) :
  exists genesis, Blockchain.getLatestBlock (Blockchain.new now c) = Some genesis.
Proof.
  eexists.
  unfold Blockchain.new, Blockchain._createGenesisBlock, Blockchain.getLatestBlock.
  cbn [Blockchain.chain Blockchain.withChain app last]. exact eq_refl.
Qed.

Lemma enhanced_getLatestBlock_new (now : Z) (c : EnhancedBlockchain.config) :
  exists genesis,
    EnhancedBlockchain.getLatestBlock (EnhancedBlockchain.new now c []) = Some genesis.
Proof.
  eexists.
  unfold EnhancedBlockchain.new, EnhancedBlockchain._loadInitialTransactions,
    EnhancedBlockchain._createGenesisBlock, EnhancedBlockchain.getLatestBlock.
  cbn [fold_left EnhancedBlockchain.chain EnhancedBlockchain.withChain
       EnhancedBlockchain._initializeWallets app last]. exact eq_refl.
Qed.

(** The difficulty of the candidate block is the ledger's, [0] replaced by
    the default of the block constructor. *)
Lemma candidateBlock_difficulty (now : Z) (bc : Blockchain.t) (latest : Block.t) :
  Block.difficulty (Blockchain.candidateBlock now bc latest)
  = if (Blockchain.difficulty bc =? 0)%N then 4%N else Blockchain.difficulty bc.
Proof. reflexivity. Qed.

Lemma enhanced_candidateBlock_difficulty
  (now : Z) (bc : EnhancedBlockchain.t) (latest : EnhancedBlock.t) (miner : string) :
  EnhancedBlock.difficulty (EnhancedBlockchain.candidateBlock now bc latest miner)
  = if (EnhancedBlockchain.difficulty bc =? 0)%N then 2%N else EnhancedBlockchain.difficulty bc.
Proof. reflexivity. Qed.

Lemma new_difficulty (now : Z) (c : Blockchain.config) :
  Blockchain.difficulty (Blockchain.new now c)
  = match Blockchain.c_difficulty c with
    | Some d => if (d =? 0)%N then 4%N else d
    | None => 4%N
    end.
Proof. reflexivity. Qed.

Lemma enhanced_new_difficulty (now : Z) (c : EnhancedBlockchain.config) :
  EnhancedBlockchain.difficulty (EnhancedBlockchain.new now c [])
  = match EnhancedBlockchain.c_difficulty c with
    | Some d => if (d =? 0)%N then 2%N else d
    | None => 2%N
    end.
Proof. reflexivity. Qed.

End LedgerShape.

Lemma C3_failed_mining_leaves_ledger_unchanged_witness :
  Blockchain.mineBlock (crypto := nodeCrypto) 1700000001000 stuckLedger "alice"
  = Returned None stuckLedger
  /\ EnhancedBlockchain.mineBlock (crypto := nodeCrypto) 1700000001000 stuckEnhancedLedger "alice"
     = Returned None stuckEnhancedLedger.
Proof.
  destruct (getLatestBlock_new (crypto := nodeCrypto) 1700000000000 stuckConfig) as [g Hg].
  destruct (enhanced_getLatestBlock_new (crypto := nodeCrypto) 1700000000000 stuckEnhancedConfig)
    as [g' Hg'].
  destruct (C3_failed_mining_leaves_ledger_unchanged (crypto := nodeCrypto)
              1700000001000 "alice" stuckLedger stuckEnhancedLedger) as (Hb & He & _).
  split.
  - apply (Hb g Hg). unfold Block.mine. apply mineLoop_fails. intros s.
    change (CryptoUtils.doubleSha256 s) with (SHA256.digest (SHA256.digest s)).
    apply node_digest_never_meets.
    rewrite candidateBlock_difficulty. unfold stuckLedger. rewrite new_difficulty.
    reflexivity.
  - apply (He g' Hg'). unfold EnhancedBlock.mine. apply enhanced_mineLoop_fails. intros s.
    change (sha256 s) with (SHA256.digest s).
    apply node_digest_never_meets.
    rewrite enhanced_candidateBlock_difficulty. unfold stuckEnhancedLedger.
    rewrite enhanced_new_difficulty. reflexivity.
Defined.

(** ** Runs of the ledgers *)

Lemma outcome_returned {S A : Type} (o : outcome S A) (a : A) :
  returned o = Some a -> o = Returned a (stateOf o).
Proof. destruct o; simpl; [now intros [= ->] | discriminate]. Qed.

(** A step of a concrete run: the call is evaluated, the state it leaves is
    the state the run names. *)
Ltac run_step := apply outcome_returned; vm_compute; reflexivity.

Lemma run_first_block :
  exists b,
    Blockchain.mineBlock (crypto := nodeCrypto) 1700000001008 Run.ledger0 "alice"
    = Returned (Some b) Run.ledger1
    /\ Block.baseFeePerGas b = 0.
Proof.
  eexists. split; [unfold Run.ledger1; run_step | reflexivity].
Qed.

Lemma run_admission :
  Blockchain.addTransaction (crypto := nodeCrypto) Run.ledger1 Run.aliceToBob
  = Returned true Run.ledger2.
Proof. unfold Run.ledger2. run_step. Qed.

Lemma run_second_block :
  exists b,
    Blockchain.mineBlock (crypto := nodeCrypto) 1700000002001 Run.ledger2 "carol"
    = Returned (Some b) Run.ledger3
    /\ Block.baseFeePerGas b = 0
    /\ length (Block.transactions b) = 2%nat.
Proof.
  eexists. split; [unfold Run.ledger3; run_step | split; reflexivity].
Qed.

(** C1, evaluated on the basic ledger.  Two blocks are mined with reward 50
    each and base fee 0, so nothing is burned as base fee; the second block
    carries a payment with a priority fee of 1.  The balances add up to 99:
    the priority fee has left the sender and reached nobody. *)
Theorem C1_basic_ledger_loses_the_priority_fee :
  sumBalances (Blockchain.utxoSet Run.ledger0) = 0
  /\ Blockchain.miningReward Run.ledger0 = 50
  /\ (exists b1 b2,
        Blockchain.mineBlock (crypto := nodeCrypto) 1700000001008 Run.ledger0 "alice"
        = Returned (Some b1) Run.ledger1
        /\ Blockchain.addTransaction (crypto := nodeCrypto) Run.ledger1 Run.aliceToBob
           = Returned true Run.ledger2
        /\ Blockchain.mineBlock (crypto := nodeCrypto) 1700000002001 Run.ledger2 "carol"
           = Returned (Some b2) Run.ledger3
        /\ Block.baseFeePerGas b1 = 0 /\ Block.baseFeePerGas b2 = 0)
  /\ Blockchain.getBalance Run.ledger3 "alice" = 39
  /\ Blockchain.getBalance Run.ledger3 "bob" = 10
  /\ Blockchain.getBalance Run.ledger3 "carol" = 50
  /\ sumBalances (Blockchain.utxoSet Run.ledger3) = 99.
Proof.
  split; [vm_compute; reflexivity|].
  split; [vm_compute; reflexivity|].
  split.
  - destruct run_first_block as (b1 & H1 & F1).
    destruct run_second_block as (b2 & H2 & F2 & _).
    exists b1, b2.
    split; [exact H1|]. split; [exact run_admission|]. split; [exact H2|].
    split; [exact F1 | exact F2].
  - vm_compute. repeat split.
Qed.

(** C4, counterexample.  The basic ledger keeps no nonce per sender: with
    Alice's first transaction of nonce 0 already in the pool it accepts a
    second transaction of Alice with the same nonce. *)
Lemma C4_counterexample :
  Transaction.from Run.aliceToBob = Transaction.from Run.aliceToCarol
  /\ Transaction.nonce Run.aliceToBob = Transaction.nonce Run.aliceToCarol
  /\ Blockchain.addTransaction (crypto := nodeCrypto) Run.ledger1 Run.aliceToBob
     = Returned true Run.ledger2
  /\ exists ledger,
      Blockchain.addTransaction (crypto := nodeCrypto) Run.ledger2 Run.aliceToCarol
      = Returned true ledger.
Proof.
  split; [reflexivity|]. split; [reflexivity|]. split; [exact run_admission|].
  eexists. run_step.
Qed.

(** C6, counterexample.  The ledger is configured with at most one
    transaction per block; the block its [mineBlock] returns holds two, the
    selected payment and the reward. *)
Lemma C6_counterexample :
  Blockchain.maxTransactionsPerBlock Run.ledger2 = 1
  /\ exists b,
      Blockchain.mineBlock (crypto := nodeCrypto) 1700000002001 Run.ledger2 "carol"
      = Returned (Some b) Run.ledger3
      /\ length (Block.transactions b) = 2%nat.
Proof.
  split; [vm_compute; reflexivity|].
  destruct run_second_block as (b & H & _ & L). exists b. split; [exact H | exact L].
Qed.

Lemma pair_of_fst {A B : Type} (p : A * B) (a : A) : fst p = a -> p = (a, snd p).
Proof. destruct p; simpl; now intros ->. Qed.

Section BasicLedgerFacts.
Context {crypto : Crypto}.

Lemma mineLoop_fields (n : nat) (b : Block.t) :
  let b' := snd (Block.mineLoop n b) in
  Block.index b' = Block.index b
  /\ Block.previousHash b' = Block.previousHash b
  /\ Block.timestamp b' = Block.timestamp b
  /\ Block.baseFeePerGas b' = Block.baseFeePerGas b
  /\ Block.merkleRoot b' = Block.merkleRoot b.
Proof.
  revert b. induction n as [|n IH]; intros b; simpl; [repeat split|].
  destruct (startsWith _ _); simpl; [repeat split|].
  destruct (IH (Block.withNonce (Block.withHash b
              (Some (CryptoUtils.doubleSha256 (Block.getBlockData b))))
              (Block.nonce b + 1))) as (H1 & H2 & H3 & H4 & H5).
  simpl in *. repeat split; assumption.
Qed.

(** A block of transaction objects is applied to its end. *)
Lemma updateLoop_objects (base : Z) (txs : list Transaction.t) (u : gmap string Z) :
  snd (Blockchain.updateLoop base (map Block.TxObj txs) u) = true.
Proof.
  revert u. induction txs as [|tx txs IH]; intros u; simpl; [reflexivity|]. apply IH.
Qed.


Lemma removeMined_frame (l : list Transaction.t) (s : Blockchain.t) :
  let s' := Blockchain._removeMinedTransactions s l in
  Blockchain.chain s' = Blockchain.chain s
  /\ Blockchain.utxoSet s' = Blockchain.utxoSet s
  /\ Blockchain.bloomFilter s' = Blockchain.bloomFilter s.
Proof.
  revert s. induction l as [|tx l IH]; intros s; simpl; [repeat split|].
  destruct (IH (Blockchain.withPool s
                  (Blockchain.removeFirst (Transaction.hash tx) (Blockchain.pendingTransactions s))
                  (mapDelete (Transaction.hash tx) (Blockchain.mempool s))
                  (Blockchain.bloomFilter s))) as (H1 & H2 & H3).
  unfold Blockchain._removeMinedTransactions in *. simpl in *.
  rewrite H1, H2, H3. repeat split.
Qed.

(** What [_removeMinedTransactions] leaves in the pool depends on the pool
    alone. *)
Lemma removeMined_pool (l : list Transaction.t) (s s' : Blockchain.t) :
  Blockchain.pendingTransactions s = Blockchain.pendingTransactions s' ->
  Blockchain.mempool s = Blockchain.mempool s' ->
  Blockchain.pendingTransactions (Blockchain._removeMinedTransactions s l)
  = Blockchain.pendingTransactions (Blockchain._removeMinedTransactions s' l)
  /\ Blockchain.mempool (Blockchain._removeMinedTransactions s l)
     = Blockchain.mempool (Blockchain._removeMinedTransactions s' l).
Proof.
  revert s s'. induction l as [|tx l IH]; intros s s' Hp Hm; simpl; [now split|].
  apply IH; simpl; now rewrite ?Hp, ?Hm.
Qed.

(** C9. When [Block.mine] succeeds in the basic [mineBlock], the block that
    is returned is the mined block with the reward transaction appended and
    the Merkle root recomputed, its hash and nonce being those the search
    fixed; the balance map is the result of [_updateUTXOSet] on that block and
    the mined transactions leave the pool, whether [_validateBlock] accepts
    the block (the chain grows by it) or rejects it (the chain stays). *)
Theorem C9_mineBlock_applies_the_block_whatever_addBlock_says
  (now : Z) (bc : Blockchain.t) (minerAddress : string) (latest b0 : Block.t) :
  Blockchain.getLatestBlock bc = Some latest ->
  Block.mine (Blockchain.candidateBlock now bc latest) = (true, b0) ->
  let reward := Blockchain.rewardTransaction bc minerAddress in
  let b := Block.addTransaction b0 reward in
  let hasTransactions := (0 <? length (Blockchain.pendingTransactions bc))%nat in
  let selected :=
    if hasTransactions then Blockchain._selectTransactionsForBlock bc else [] in
  let pool :=
    if hasTransactions
    then Blockchain._removeMinedTransactions bc (selected ++ [reward])
    else bc in
  exists bc',
    Blockchain.mineBlock now bc minerAddress = Returned (Some b) bc'
    /\ Block.hash b = Block.hash b0
    /\ Block.nonce b = Block.nonce b0
    /\ Block.transactions b = map Block.TxObj (selected ++ [reward])
    /\ Block.merkleRoot b = Block.merkleRootOf (Block.transactions b)
    /\ Blockchain.chain bc'
       = (if Blockchain._validateBlock bc latest b
          then (Blockchain.chain bc ++ [b])%list else Blockchain.chain bc)
    /\ Blockchain.utxoSet bc'
       = fst (Blockchain.updateLoop (Block.baseFeePerGas b) (Block.transactions b)
                                    (Blockchain.utxoSet bc))
    /\ Blockchain.pendingTransactions bc' = Blockchain.pendingTransactions pool
    /\ Blockchain.mempool bc' = Blockchain.mempool pool.
Proof.
  intros Hlatest Hmine reward b hasTransactions selected pool.
  assert (Htxs : Block.transactions b0 = map Block.TxObj selected).
  { change b0 with (snd (true, b0)). rewrite <- Hmine. unfold Block.mine.
    rewrite mineLoop_transactions. reflexivity. }
  assert (Hb : Block.transactions b = map Block.TxObj (selected ++ [reward])).
  { unfold b, Block.addTransaction, Block._calculateMerkleRoot; simpl.
    rewrite Htxs, map_app. reflexivity. }
  unfold Blockchain.mineBlock. rewrite Hlatest, Hmine.
  fold hasTransactions. fold selected. fold reward. fold b.
  unfold Blockchain._updateUTXOSet.
  set (bc1 := snd (Blockchain.addBlock bc latest b)).
  assert (Hchain : Blockchain.chain bc1
                   = (if Blockchain._validateBlock bc latest b
                      then (Blockchain.chain bc ++ [b])%list else Blockchain.chain bc)).
  { unfold bc1, Blockchain.addBlock. destruct (Blockchain._validateBlock bc latest b); reflexivity. }
  assert (Hrest : Blockchain.utxoSet bc1 = Blockchain.utxoSet bc
                  /\ Blockchain.pendingTransactions bc1 = Blockchain.pendingTransactions bc
                  /\ Blockchain.mempool bc1 = Blockchain.mempool bc).
  { unfold bc1, Blockchain.addBlock. destruct (Blockchain._validateBlock bc latest b);
      repeat split. }
  destruct Hrest as (Hu & Hp & Hm).
  destruct (Blockchain.updateLoop (Block.baseFeePerGas b) (Block.transactions b)
              (Blockchain.utxoSet bc1)) as [u finished] eqn:Hloop.
  assert (Hfin : finished = true).
  { change finished with (snd (u, finished)). rewrite <- Hloop, Hb. apply updateLoop_objects. }
  assert (Hfst : u = fst (Blockchain.updateLoop (Block.baseFeePerGas b) (Block.transactions b)
                            (Blockchain.utxoSet bc))).
  { rewrite <- Hu, Hloop. reflexivity. }
  subst finished.
  eexists. split; [reflexivity|].
  split; [reflexivity|]. split; [reflexivity|]. split; [exact Hb|]. split; [reflexivity|].
  unfold pool. destruct hasTransactions.
  - destruct (removeMined_frame (selected ++ [reward]) (Blockchain.withUtxoSet bc1 u))
      as (F1 & F2 & _).
    destruct (removeMined_pool (selected ++ [reward]) (Blockchain.withUtxoSet bc1 u) bc)
      as (P1 & P2); [exact Hp | exact Hm |].
    cbv zeta in F1, F2. rewrite F1, F2, P1, P2. simpl.
    repeat split; [exact Hchain | exact Hfst].
  - simpl. repeat split; [exact Hchain | exact Hfst | exact Hp | exact Hm].
Qed.

End BasicLedgerFacts.

Lemma C9_mineBlock_applies_the_block_whatever_addBlock_says_witness :
  let reward := Blockchain.rewardTransaction Run.ledger2 "carol" in
  let b := Block.addTransaction (crypto := nodeCrypto) Run.minedSecond reward in
  Blockchain._validateBlock (crypto := nodeCrypto) Run.ledger2 Run.genesis b = false
  /\ exists bc',
      Blockchain.mineBlock (crypto := nodeCrypto) 1700000002001 Run.ledger2 "carol"
      = Returned (Some b) bc'
      /\ Block.transactions b = [Block.TxObj Run.aliceToBob; Block.TxObj reward]
      /\ Blockchain.chain bc' = Blockchain.chain Run.ledger2
      /\ Blockchain.getBalance bc' "carol" = 50
      /\ Blockchain.pendingTransactions bc' = []
      /\ Blockchain.mempool bc' = [].
Proof.
  intros reward b.
  assert (Hl : Blockchain.getLatestBlock Run.ledger2 = Some Run.genesis)
    by (vm_compute; reflexivity).
  assert (Hm : Block.mine (crypto := nodeCrypto)
                 (Blockchain.candidateBlock (crypto := nodeCrypto) 1700000002001
                    Run.ledger2 Run.genesis)
               = (true, Run.minedSecond))
    by (vm_compute; reflexivity).
  assert (Hv : Blockchain._validateBlock (crypto := nodeCrypto) Run.ledger2 Run.genesis b = false)
    by (vm_compute; reflexivity).
  split; [exact Hv|].
  pose proof (C9_mineBlock_applies_the_block_whatever_addBlock_says (crypto := nodeCrypto)
                1700000002001 Run.ledger2 "carol" Run.genesis Run.minedSecond Hl Hm) as H.
  cbv zeta in H. destruct H as (bc' & Hret & _ & _ & Htxs & _ & Hchain & Hutxo & Hpend & Hpool).
  exists bc'. split; [exact Hret|].
  split; [vm_compute; reflexivity|].
  split; [rewrite Hchain; fold reward; fold b; rewrite Hv; reflexivity|].
  split; [unfold Blockchain.getBalance; rewrite Hutxo; vm_compute; reflexivity|].
  split; [rewrite Hpend; vm_compute; reflexivity | rewrite Hpool; vm_compute; reflexivity].
Defined.

Lemma sumOf_app {A : Type} (f : A -> Z) (l1 l2 : list A) :
  sumOf f (l1 ++ l2) = sumOf f l1 + sumOf f l2.
Proof. induction l1 as [|x l1 IH]; simpl; [reflexivity | rewrite IH; lia]. Qed.

Section BlockBounds.
Context {crypto : Crypto}.

Lemma processTransactions_cap (b : EnhancedBlock.t) :
  (length (EnhancedBlock.transactions (EnhancedBlock._processTransactions b)) <= 4)%nat.
Proof.
  unfold EnhancedBlock._processTransactions; simpl.
  destruct (Nat.ltb_spec 4 (length (EnhancedBlock.transactions b))) as [H|H].
  - rewrite length_take. lia.
  - exact H.
Qed.

Lemma selectLoop_limits (bc : Blockchain.t) (txs selected : list Transaction.t)
  (totalSize totalGas : Z) :
  totalSize = sumOf Blockchain.txSize selected ->
  totalGas = sumOf Transaction.gasLimit selected ->
  withinLimits bc selected ->
  withinLimits bc (Blockchain.selectLoop bc txs selected totalSize totalGas).
Proof.
  revert selected totalSize totalGas.
  induction txs as [|tx txs IH]; intros selected ts tg Hs Hg Hin; simpl; [exact Hin|].
  destruct (_ && _ && _) eqn:E.
  - apply andb_prop in E as [E E3]. apply andb_prop in E as [E1 E2].
    apply Z.leb_le in E1. apply Z.leb_le in E2. apply Z.ltb_lt in E3.
    apply IH.
    + rewrite sumOf_app. simpl. lia.
    + rewrite sumOf_app. simpl. lia.
    + unfold withinLimits. rewrite length_app, !sumOf_app. simpl. lia.
  - apply IH; assumption.
Qed.

(** C6 as amended.  A block of the enhanced chain holds at most four
    transactions when it is constructed, while it is mined and after every
    [addTransaction]; and what the basic ledger selects from the pool for a
    block is at most [maxTransactionsPerBlock] transactions whose serialised
    sizes add up to at most [maxBlockSize] (and whose gas limits add up to at
    most the gas target). *)
Theorem C6_block_bounds_enforced_by_the_code :
  (forall b, lifecycle b -> (length (EnhancedBlock.transactions b) <= 4)%nat)
  /\ (forall bc : Blockchain.t,
        withinLimits bc (Blockchain._selectTransactionsForBlock bc)).
Proof.
  split.
  - intros b Hb. induction Hb as [now p | b n Hb IH | b tx Hb IH].
    + apply processTransactions_cap.
    + now rewrite enhanced_mineLoop_transactions.
    + unfold EnhancedBlock.addTransaction.
      destruct (Nat.leb_spec 4 (length (EnhancedBlock.transactions b))) as [H|H].
      * exact IH.
      * apply processTransactions_cap.
  - intros bc. unfold Blockchain._selectTransactionsForBlock.
    apply selectLoop_limits; [reflexivity | reflexivity |].
    unfold withinLimits; simpl. lia.
Qed.

(** C4 as amended.  [EnhancedBlockchain.addTransaction] rejects a transaction
    whose nonce differs from the nonce tracked for its sender and leaves the
    ledger as it was; when it accepts, the nonce of the transaction is the
    tracked one, the tracked nonce of the sender has grown by one and the
    nonces of all other senders are untouched. *)
Theorem C4_enhanced_addTransaction_sequential_nonce
  (bc : EnhancedBlockchain.t) (tx : EnhancedTransaction.t) :
  let sender := EnhancedTransaction.from tx in
  (EnhancedTransaction.nonce tx <> EnhancedBlockchain.expectedNonce bc sender ->
   EnhancedBlockchain.addTransaction bc tx = (false, bc))
  /\ (forall bc',
        EnhancedBlockchain.addTransaction bc tx = (true, bc') ->
        EnhancedTransaction.nonce tx = EnhancedBlockchain.expectedNonce bc sender
        /\ EnhancedBlockchain.expectedNonce bc' sender
           = EnhancedBlockchain.expectedNonce bc sender + 1
        /\ forall other, other <> sender ->
             EnhancedBlockchain.expectedNonce bc' other
             = EnhancedBlockchain.expectedNonce bc other).
Proof.
  intros sender. unfold EnhancedBlockchain.addTransaction. fold sender.
  assert (Hfrom : EnhancedTransaction.from (EnhancedBlockchain.ensureHash tx) = sender).
  { unfold EnhancedBlockchain.ensureHash. destruct (falsyStr _); reflexivity. }
  split.
  - intros Hne. destruct (EnhancedTransaction.isValid tx _); [|reflexivity]. simpl.
    destruct (Z.eqb_spec (EnhancedTransaction.nonce tx)
                (EnhancedBlockchain.expectedNonce bc sender)); [contradiction | reflexivity].
  - intros bc'. destruct (EnhancedTransaction.isValid tx _); simpl; [|discriminate].
    destruct (Z.eqb_spec (EnhancedTransaction.nonce tx)
                (EnhancedBlockchain.expectedNonce bc sender)) as [Heq|]; simpl; [|discriminate].
    intros [= <-]. split; [exact Heq|].
    set (expected := EnhancedBlockchain.expectedNonce bc sender) in *.
    split.
    + unfold EnhancedBlockchain.expectedNonce; simpl. rewrite Hfrom.
      rewrite lookup_insert_eq. unfold orDefault.
      destruct (Z.eqb_spec (expected + 1) 0); lia.
    + intros other Hother. unfold EnhancedBlockchain.expectedNonce; simpl.
      rewrite Hfrom. rewrite lookup_insert_ne by congruence. reflexivity.
Qed.

End BlockBounds.

Lemma C4_enhanced_addTransaction_sequential_nonce_witness :
  EnhancedBlockchain.addTransaction (crypto := nodeCrypto) EnhancedRun.ledger0
      EnhancedRun.payment
  = (true, EnhancedRun.ledger1)
  /\ EnhancedTransaction.nonce EnhancedRun.payment = 0
  /\ EnhancedBlockchain.expectedNonce EnhancedRun.ledger0 EnhancedRun.wallet1 = 0
  /\ EnhancedBlockchain.expectedNonce EnhancedRun.ledger1 EnhancedRun.wallet1 = 0 + 1.
Proof.
  assert (Hadd : EnhancedBlockchain.addTransaction (crypto := nodeCrypto) EnhancedRun.ledger0
                   EnhancedRun.payment = (true, EnhancedRun.ledger1)).
  { unfold EnhancedRun.ledger1. apply pair_of_fst. vm_compute. reflexivity. }
  assert (H0 : EnhancedBlockchain.expectedNonce EnhancedRun.ledger0 EnhancedRun.wallet1 = 0)
    by (vm_compute; reflexivity).
  pose proof (C4_enhanced_addTransaction_sequential_nonce (crypto := nodeCrypto)
                EnhancedRun.ledger0 EnhancedRun.payment) as H.
  cbv zeta in H. destruct H as [_ H].
  destruct (H EnhancedRun.ledger1 Hadd) as (Hn & Hnext & _).
  change (EnhancedTransaction.from EnhancedRun.payment) with EnhancedRun.wallet1 in Hn, Hnext.
  rewrite H0 in Hn, Hnext.
  split; [exact Hadd|]. split; [exact Hn|]. split; [exact H0 | exact Hnext].
Defined.

Lemma C6_block_bounds_enforced_by_the_code_witness :
  (length (EnhancedBlock.transactions
             (snd (EnhancedBlock.addTransaction (crypto := nodeCrypto) crowdedBlock
                     EnhancedRun.payment))) <= 4)%nat
  /\ withinLimits Run.ledger2
       (Blockchain._selectTransactionsForBlock Run.ledger2).
Proof.
  destruct (C6_block_bounds_enforced_by_the_code (crypto := nodeCrypto)) as [Hcap Hsel].
  split.
  - apply Hcap. apply life_add. apply life_new.
  - apply Hsel.
Defined.

(** * Further facts *)

(** ** Sums of balances *)






(** ** The supply of the enhanced ledger *)


Section EnhancedSupply.
Context {crypto : Crypto}.










Lemma enhanced_mineLoop_fees (n : nat) (b : EnhancedBlock.t) :
  let b' := snd (EnhancedBlock.mineLoop n b) in
  EnhancedBlock.totalBaseFees b' = EnhancedBlock.totalBaseFees b
  /\ EnhancedBlock.totalPriorityFees b' = EnhancedBlock.totalPriorityFees b
  /\ EnhancedBlock.blockReward b' = EnhancedBlock.blockReward b
  /\ EnhancedBlock.minerAddress b' = EnhancedBlock.minerAddress b.
Proof.
  revert b. induction n as [|n IH]; intros b; simpl; [repeat split|].
  destruct (startsWith _ _); simpl; [repeat split|].
  destruct (IH (EnhancedBlock.withNonce
                  (EnhancedBlock.withHash b (Some (sha256 (EnhancedBlock.getBlockData b))))
                  (EnhancedBlock.nonce b + 1))) as (H1 & H2 & H3 & H4).
  simpl in *. repeat split; assumption.
Qed.

Lemma removeMined_frame_enhanced (l : list EnhancedTransaction.t) (s : EnhancedBlockchain.t) :
  let s' := EnhancedBlockchain.removeMined s l in
  EnhancedBlockchain.balances s' = EnhancedBlockchain.balances s
  /\ EnhancedBlockchain.totalCoinsMined s' = EnhancedBlockchain.totalCoinsMined s
  /\ EnhancedBlockchain.totalCoinsBurned s' = EnhancedBlockchain.totalCoinsBurned s
  /\ EnhancedBlockchain.totalCoinsInNetwork s' = EnhancedBlockchain.totalCoinsInNetwork s
  /\ EnhancedBlockchain.chain s' = EnhancedBlockchain.chain s
  /\ EnhancedBlockchain.nonces s' = EnhancedBlockchain.nonces s
  /\ EnhancedBlockchain.bloomFilter s' = EnhancedBlockchain.bloomFilter s
  /\ EnhancedBlockchain.merkleTree s' = EnhancedBlockchain.merkleTree s
  /\ EnhancedBlockchain.difficulty s' = EnhancedBlockchain.difficulty s
  /\ EnhancedBlockchain.maxTransactionsPerBlock s'
     = EnhancedBlockchain.maxTransactionsPerBlock s.
Proof.
  revert s. induction l as [|tx l IH]; intros s; [repeat split|].
  unfold EnhancedBlockchain.removeMined in *. cbn [fold_left].
  match goal with
  | |- context [fold_left ?f l ?s0] =>
      destruct (IH s0) as (H1 & H2 & H3 & H4 & H5 & H6 & H7 & H8 & H9 & H10)
  end.
  cbv zeta in *. rewrite H1, H2, H3, H4, H5, H6, H7, H8, H9, H10. repeat split.
Qed.

Lemma removeMined_pending_sublist (l : list EnhancedTransaction.t) (s : EnhancedBlockchain.t)
  (P : EnhancedTransaction.t -> Prop) :
  Forall P (EnhancedBlockchain.pendingTransactions s) ->
  Forall P (EnhancedBlockchain.pendingTransactions (EnhancedBlockchain.removeMined s l)).
Proof.
  revert s. induction l as [|tx l IH]; intros s H; [exact H|].
  unfold EnhancedBlockchain.removeMined in *. cbn [fold_left]. apply IH. cbn.
  apply Forall_forall. intros x Hx. apply list_elem_of_filter in Hx as [_ Hx].
  rewrite Forall_forall in H. now apply H.
Qed.





Lemma updateBalances_pending (bc : EnhancedBlockchain.t) (block : EnhancedBlock.t) :
  EnhancedBlockchain.pendingTransactions (EnhancedBlockchain._updateBalances bc block)
  = EnhancedBlockchain.pendingTransactions bc
  /\ EnhancedBlockchain.mempool (EnhancedBlockchain._updateBalances bc block)
     = EnhancedBlockchain.mempool bc
  /\ EnhancedBlockchain.chain (EnhancedBlockchain._updateBalances bc block)
     = EnhancedBlockchain.chain bc
  /\ EnhancedBlockchain.nonces (EnhancedBlockchain._updateBalances bc block)
     = EnhancedBlockchain.nonces bc.
Proof.
  unfold EnhancedBlockchain._updateBalances.
  destruct (fold_left _ _ _) as [b w]. repeat split.
Qed.






End EnhancedSupply.

(** ** The supply of the basic ledger *)

Section BasicSupply.
Context {crypto : Crypto}.

(** What a successful [mineBlock] of the basic ledger did. *)
Lemma basic_mineBlock_returns
  (now : Z) (bc bc' : Blockchain.t) (minerAddress : string) (b : Block.t) :
  Blockchain.mineBlock now bc minerAddress = Returned (Some b) bc' ->
  let reward := Blockchain.rewardTransaction bc minerAddress in
  let selected :=
    if (0 <? length (Blockchain.pendingTransactions bc))%nat
    then Blockchain._selectTransactionsForBlock bc else [] in
  exists latest b0,
    Blockchain.getLatestBlock bc = Some latest
    /\ Block.mine (Blockchain.candidateBlock now bc latest) = (true, b0)
    /\ b = Block.addTransaction b0 reward
    /\ Block.transactions b = map Block.TxObj (selected ++ [reward])
    /\ Blockchain.utxoSet bc'
       = fst (Blockchain.updateLoop (Block.baseFeePerGas b) (Block.transactions b)
                                    (Blockchain.utxoSet bc))
    /\ Blockchain.chain bc'
       = (if Blockchain._validateBlock bc latest b
          then (Blockchain.chain bc ++ [b])%list else Blockchain.chain bc)
    /\ Blockchain.bloomFilter bc' = Blockchain.bloomFilter bc.
Proof.
  intros Hret reward selected. revert Hret. unfold Blockchain.mineBlock.
  destruct (Blockchain.getLatestBlock bc) as [latest|]; [|discriminate].
  destruct (Block.mine (Blockchain.candidateBlock now bc latest)) as [mined b0] eqn:Hmine.
  destruct mined; [|discriminate].
  fold reward. fold selected.
  set (b1 := Block.addTransaction b0 reward).
  assert (Htxs0 : Block.transactions b0 = map Block.TxObj selected).
  { change b0 with (snd (true, b0)). rewrite <- Hmine. unfold Block.mine.
    rewrite mineLoop_transactions. reflexivity. }
  assert (Htxs : Block.transactions b1 = map Block.TxObj (selected ++ [reward])).
  { unfold b1, Block.addTransaction, Block._calculateMerkleRoot; simpl.
    rewrite Htxs0, map_app. reflexivity. }
  unfold Blockchain._updateUTXOSet.
  set (bc1 := snd (Blockchain.addBlock bc latest b1)).
  assert (Hbc1 : Blockchain.utxoSet bc1 = Blockchain.utxoSet bc
                 /\ Blockchain.bloomFilter bc1 = Blockchain.bloomFilter bc
                 /\ Blockchain.chain bc1
                    = (if Blockchain._validateBlock bc latest b1
                       then (Blockchain.chain bc ++ [b1])%list else Blockchain.chain bc)).
  { unfold bc1, Blockchain.addBlock.
    destruct (Blockchain._validateBlock bc latest b1); repeat split. }
  destruct Hbc1 as (Hu & Hf & Hc).
  destruct (Blockchain.updateLoop (Block.baseFeePerGas b1) (Block.transactions b1)
              (Blockchain.utxoSet bc1)) as [u finished] eqn:Hloop.
  assert (finished = true) as ->.
  { change finished with (snd (u, finished)). rewrite <- Hloop, Htxs.
    apply updateLoop_objects. }
  intros [= <- <-]. exists latest, b0.
  split; [reflexivity|]. split; [exact Hmine|]. split; [reflexivity|]. split; [exact Htxs|].
  assert (Hu' : u = fst (Blockchain.updateLoop (Block.baseFeePerGas b1)
                           (Block.transactions b1) (Blockchain.utxoSet bc)))
    by (rewrite <- Hu, Hloop; reflexivity).
  destruct (0 <? length (Blockchain.pendingTransactions bc))%nat.
  - destruct (removeMined_frame (selected ++ [reward]) (Blockchain.withUtxoSet bc1 u))
      as (F1 & F2 & F3).
    cbv zeta in F1, F2, F3. rewrite F1, F2, F3. simpl.
    split; [exact Hu'|]. split; [exact Hc | exact Hf].
  - simpl. split; [exact Hu'|]. split; [exact Hc | exact Hf].
Qed.




End BasicSupply.


(** ** The shape of a Merkle tree and the round trip of a proof *)

Section MerkleShape.
Variable H : string -> string.


Lemma nextLevel_length (l : list string) :
  length (MerkleCore.nextLevel H l) = Nat.div2 (S (length l)).
Proof.
  induction l as [l IH] using (induction_ltof1 _ (@length string)).
  unfold ltof in IH.
  destruct l as [|a [|b r]]; [reflexivity | reflexivity |].
  cbn [MerkleCore.nextLevel length]. rewrite IH by (simpl; lia). reflexivity.
Qed.

Lemma div2_S_lt (n : nat) : (1 < n)%nat -> (Nat.div2 (S n) < n)%nat.
Proof.
  intros Hn. rewrite Nat.div2_div.
  apply Nat.Div0.div_lt_upper_bound. lia.
Qed.

Lemma div2_S_pos (n : nat) : (0 < n)%nat -> (0 < Nat.div2 (S n))%nat.
Proof.
  destruct n as [|n]; [lia|]. intros _.
  change (Nat.div2 (S (S n))) with (S (Nat.div2 n)). apply Nat.lt_0_succ.
Qed.

(** The loop of [_buildTree] stops on a level with a single node: the fuel
    given to it, the number of leaves, is enough. *)
Lemma levelsFrom_last (fuel : nat) (l : list string) :
  (0 < length l <= fuel)%nat ->
  exists r, last (l :: MerkleCore.levelsFrom H fuel l) = Some [r].
Proof.
  revert l. induction fuel as [|f IH]; intros l Hl; [lia|].
  cbn [MerkleCore.levelsFrom].
  destruct (1 <? length l)%nat eqn:Hlen.
  - apply Nat.ltb_lt in Hlen. cbv zeta.
    destruct (IH (MerkleCore.nextLevel H l)) as (r & Hr).
    { rewrite nextLevel_length. split; [apply div2_S_pos; lia|].
      pose proof (div2_S_lt (length l) Hlen). lia. }
    exists r. rewrite last_cons, Hr. reflexivity.
  - apply Nat.ltb_ge in Hlen. destruct l as [|a [|b r]]; simpl in *; try lia.
    exists a. reflexivity.
Qed.

Lemma levelsFrom_linked (fuel : nat) (l : list string) :
  linked H (l :: MerkleCore.levelsFrom H fuel l).
Proof.
  revert l. induction fuel as [|f IH]; intros l; [exact I|].
  cbn [MerkleCore.levelsFrom]. destruct (1 <? length l)%nat; [|exact I].
  cbv zeta. split; [reflexivity | apply IH].
Qed.

(** The node above position [i]: what [nextLevel] puts at [i / 2]. *)
Lemma nextLevel_lookup (l : list string) (i : nat) (a : string) :
  l !! i = Some a ->
  MerkleCore.nextLevel H l !! (i / 2)%nat
  = Some (if Nat.odd i
          then H (default a (l !! (i - 1)%nat) +:+ a)
          else H (a +:+ default a (l !! (i + 1)%nat))).
Proof.
  revert i. induction l as [l IH] using (induction_ltof1 _ (@length string)).
  unfold ltof in IH. intros i Hi.
  destruct l as [|x [|y r]]; [discriminate| |].
  - destruct i as [|i]; [|discriminate]. injection Hi as ->. reflexivity.
  - destruct i as [|[|i]].
    + injection Hi as ->. reflexivity.
    + injection Hi as ->. reflexivity.
    + cbn [MerkleCore.nextLevel].
      replace (S (S i) / 2)%nat with (S (i / 2)).
      2:{ rewrite <- !Nat.div2_div. reflexivity. }
      change ((x :: y :: r) !! S (S i)) with (r !! i) in Hi.
      change ((H (x +:+ y) :: MerkleCore.nextLevel H r) !! S (i / 2)) with (MerkleCore.nextLevel H r !! (i / 2)%nat).
      rewrite (IH r ltac:(simpl; lia) i Hi).
      rewrite Nat.odd_succ, Nat.even_succ.
      destruct (Nat.odd i) eqn:Hodd.
      * destruct i as [|i]; [discriminate|].
        replace (S (S (S i)) - 1)%nat with (S (S i)) by lia.
        replace (S i - 1)%nat with i by lia. reflexivity.
      * replace (S (S i) + 1)%nat with (S (S (i + 1))) by lia. reflexivity.
Qed.

(** Climbing a tree along the steps of [getProof]: when every recorded
    sibling is defined, replaying the steps from the node at [index] gives
    the node of the top level above it. *)
Lemma proofSteps_climb (tree : list (list string)) :
  forall (index : nat) (cur : string) (level : list string) (upper : list (list string)),
    tree = level :: upper ->
    linked H tree ->
    level !! index = Some cur ->
    Forall (fun step => is_Some (snd step)) (MerkleCore.proofSteps tree index) ->
    exists top j,
      last tree = Some top
      /\ top !! j = Some (replay H (MerkleCore.proofSteps tree index) cur).
Proof.
  induction tree as [|lv up IH]; intros index cur level upper Heq Hlinked Hcur Hsib;
    [discriminate|].
  injection Heq as -> ->.
  destruct upper as [|next rest].
  - exists level, index. split; [reflexivity | exact Hcur].
  - destruct Hlinked as [Hnext Hlinked].
    cbn [MerkleCore.proofSteps] in Hsib |- *. cbv zeta in Hsib |- *.
    apply Forall_cons in Hsib as [Hs Hsib]. cbn [snd] in Hs.
    unfold replay. cbn [fold_left fst snd]. fold (replay H).
    pose proof (nextLevel_lookup level index cur Hcur) as Hup.
    rewrite <- Hnext in Hup.
    destruct (IH (index / 2)%nat
                 (if Nat.odd index
                  then H (default cur (level !! (index - 1)%nat) +:+ cur)
                  else H (cur +:+ default cur (level !! (index + 1)%nat)))
                 next rest eq_refl Hlinked Hup Hsib) as (top & j & Hlast & Hj).
    exists top, j. split; [rewrite last_cons, Hlast; reflexivity|].
    rewrite Hj. f_equal. unfold replay. f_equal.
    destruct (Nat.odd index); destruct Hs as [s Hs]; rewrite Hs; reflexivity.
Qed.

(** [verifyProof]'s loop is the replay of the steps. *)
Lemma verifySteps_replay (steps : list (bool * option string)) (pre : list (option string))
  (cur : string) :
  MerkleCore.verifySteps H (map fst steps) (length pre) (pre ++ map snd steps)%list cur
  = replay H steps cur.
Proof.
  revert pre cur. induction steps as [|[isRight s] steps IH]; intros pre cur; [reflexivity|].
  cbn [map fst snd MerkleCore.verifySteps]. cbv zeta.
  rewrite lookup_app_r by lia. rewrite Nat.sub_diag. cbn [lookup list_lookup mjoin option_join].
  replace (pre ++ s :: map snd steps)%list with ((pre ++ [s]) ++ map snd steps)%list
    by (rewrite <- app_assoc; reflexivity).
  replace (S (length pre)) with (length (pre ++ [s])%list) by (rewrite length_app; simpl; lia).
  rewrite IH. unfold replay. cbn [fold_left fst snd]. reflexivity.
Qed.

(** A tree has a root exactly when it has a leaf. *)
Theorem merkle_root_exists_iff_leaves (transactions : list (option string)) :
  is_Some (MerkleCore.rootOf (MerkleCore._buildTree H transactions)) <-> transactions <> [].
Proof.
  unfold MerkleCore._buildTree. destruct transactions as [|t ts].
  - split; [intros [r Hr]; discriminate | intros Hne; now contradiction Hne].
  - split; [discriminate|]. intros _.
    destruct (levelsFrom_last (length (map (MerkleCore.leafOf H) (t :: ts)))
                (map (MerkleCore.leafOf H) (t :: ts))) as (r & Hr); [simpl; lia|].
    unfold MerkleCore.rootOf. cbv zeta. rewrite Hr. eexists; reflexivity.
Qed.

Lemma findIndex_lookup (x : string) (l : list string) (i : nat) :
  MerkleCore.findIndex x l = Some i -> l !! i = Some x.
Proof.
  revert i. induction l as [|h r IH]; intros i Hi; [discriminate|].
  simpl in Hi. destruct (String.eqb_spec h x) as [->|_].
  - injection Hi as <-. reflexivity.
  - destruct (MerkleCore.findIndex x r) as [k|]; [|discriminate].
    injection Hi as <-. apply (IH k eq_refl).
Qed.

Lemma getProof_steps (tree : list (list string)) (x : string) (p : MerkleCore.proof) :
  MerkleCore.getProof tree x = Some p ->
  exists level upper index,
    tree = level :: upper
    /\ level !! index = Some x
    /\ MerkleCore.path p = map fst (MerkleCore.proofSteps tree index)
    /\ MerkleCore.siblings p = map snd (MerkleCore.proofSteps tree index).
Proof.
  unfold MerkleCore.getProof. destruct tree as [|level upper]; [discriminate|].
  destruct (MerkleCore.findIndex x level) as [index|] eqn:Hidx; [|discriminate].
  intros [= <-]. exists level, upper, index.
  split; [reflexivity|]. split; [exact (findIndex_lookup _ _ _ Hidx)|]. split; reflexivity.
Qed.

Lemma buildTree_shape (transactions : list (option string)) :
  transactions <> [] ->
  linked H (MerkleCore._buildTree H transactions)
  /\ exists r, last (MerkleCore._buildTree H transactions) = Some [r].
Proof.
  intros Hne. unfold MerkleCore._buildTree.
  destruct transactions as [|t ts]; [now contradiction Hne|]. cbv zeta.
  split; [apply levelsFrom_linked|]. apply levelsFrom_last. simpl. lia.
Qed.

Lemma round_trip_core
  (transactions : list (option string)) (transactionHash : string) (p : MerkleCore.proof) :
  MerkleCore.getProof (MerkleCore._buildTree H transactions) transactionHash = Some p ->
  Forall is_Some (MerkleCore.siblings p) ->
  MerkleCore.verifyProof H transactionHash p
    (MerkleCore.rootOf (MerkleCore._buildTree H transactions)) = true.
Proof.
  set (tree := MerkleCore._buildTree H transactions). intros Hproof Hsib.
  assert (Hne : transactions <> []) by (intros ->; discriminate).
  destruct (buildTree_shape transactions Hne) as (Hlinked & r & Hr).
  fold tree in Hlinked, Hr. clearbody tree.
  destruct (getProof_steps tree transactionHash p Hproof)
    as (level & upper & index & Htree & Hleaf & Hpath & Hsibs).
  rewrite Hsibs in Hsib. apply (proj1 (List.Forall_map _ _ _)) in Hsib.
  destruct (proofSteps_climb tree index transactionHash level upper Htree Hlinked Hleaf Hsib)
    as (top & j & Hlast & Hj).
  rewrite Hr in Hlast. injection Hlast as <-.
  destruct j as [|j]; [|discriminate]. injection Hj as Hj.
  unfold MerkleCore.verifyProof, MerkleCore.rootOf. rewrite Hr, Hpath, Hsibs.
  rewrite (verifySteps_replay (MerkleCore.proofSteps tree index) [] transactionHash
           : MerkleCore.verifySteps H _ 0 (map snd _) _ = _), <- Hj.
  apply String.eqb_refl.
Qed.

(** The round trip of a Merkle proof, as far as the code has it: when
    [getProof] returns a proof none of whose siblings is [undefined],
    [verifyProof] accepts it against the root of the tree. *)
Theorem merkle_round_trip_without_undefined_sibling
  (transactions : list (option string)) (transactionHash : string) (p : MerkleCore.proof) :
  let tree := MerkleCore._buildTree H transactions in
  MerkleCore.getProof tree transactionHash = Some p ->
  Forall is_Some (MerkleCore.siblings p) ->
  MerkleCore.verifyProof H transactionHash p (MerkleCore.rootOf tree) = true.
Proof. intros tree. apply round_trip_core. Qed.

Lemma pow2_pos (k : nat) : (0 < 2 ^ k)%nat.
Proof. induction k as [|k IH]; simpl; lia. Qed.

Lemma div2_double_S (n : nat) : Nat.div2 (S (2 * n)) = n.
Proof.
  induction n as [|n IH]; [reflexivity|].
  replace (S (2 * S n)) with (S (S (S (2 * n)))) by lia.
  change (Nat.div2 (S (S (S (2 * n))))) with (S (Nat.div2 (S (2 * n)))).
  now rewrite IH.
Qed.

(** In a tree over [2 ^ k] leaves every level below the top has an even
    number of nodes, so every sibling [getProof] reads is there. *)
Lemma proofSteps_defined_pow2 (k : nat) :
  forall (fuel : nat) (l : list string) (index : nat),
    length l = (2 ^ k)%nat -> (length l <= fuel)%nat -> (index < length l)%nat ->
    Forall (fun step : bool * option string => is_Some (snd step))
           (MerkleCore.proofSteps (l :: MerkleCore.levelsFrom H fuel l) index).
Proof.
  induction k as [|k IH]; intros fuel l index Hlen Hfuel Hindex.
  - destruct fuel as [|f]; [constructor|].
    cbn [MerkleCore.levelsFrom]. rewrite Hlen. constructor.
  - pose proof (pow2_pos k) as Hpos.
    assert (Hlen2 : length l = (2 * 2 ^ k)%nat) by (rewrite Hlen; reflexivity).
    destruct fuel as [|f]; [lia|].
    cbn [MerkleCore.levelsFrom].
    replace (1 <? length l)%nat with true by (symmetry; apply Nat.ltb_lt; lia).
    cbv zeta. cbn [MerkleCore.proofSteps]. cbv zeta.
    assert (Hnext : length (MerkleCore.nextLevel H l) = (2 ^ k)%nat).
    { rewrite nextLevel_length, Hlen2. apply div2_double_S. }
    constructor.
    + cbn [snd]. apply lookup_lt_is_Some.
      destruct (Nat.odd index) eqn:Hodd; [lia|].
      assert (Heven : Nat.even index = true)
        by (rewrite <- Nat.negb_odd, Hodd; reflexivity).
      apply Nat.even_spec in Heven. destruct Heven as [m ->]. lia.
    + apply IH; [exact Hnext | rewrite Hnext; lia |].
      rewrite Hnext. apply Nat.Div0.div_lt_upper_bound. lia.
Qed.

(** The round trip on a tree over [2 ^ k] leaves: every leaf has a proof and
    [verifyProof] accepts it against the root. *)
Theorem merkle_round_trip_power_of_two
  (k : nat) (transactions : list (option string)) (transactionHash : string) :
  length transactions = (2 ^ k)%nat ->
  transactionHash ∈ map (MerkleCore.leafOf H) transactions ->
  let tree := MerkleCore._buildTree H transactions in
  exists p,
    MerkleCore.getProof tree transactionHash = Some p
    /\ MerkleCore.verifyProof H transactionHash p (MerkleCore.rootOf tree) = true.
Proof.
  intros Hlen Hin tree.
  destruct (getProof_present H transactions transactionHash Hin) as [p Hp].
  exists p. split; [exact Hp|]. apply round_trip_core; [exact Hp|].
  destruct (getProof_steps _ _ _ Hp) as (level & upper & index & Htree & Hleaf & _ & ->).
  apply (proj2 (List.Forall_map _ _ _)).
  unfold MerkleCore._buildTree in Htree |- *.
  destruct transactions as [|t ts]; [discriminate|]. cbv zeta in Htree |- *.
  injection Htree as <- _.
  apply (proofSteps_defined_pow2 k).
  - rewrite length_map. exact Hlen.
  - lia.
  - apply lookup_lt_Some in Hleaf. exact Hleaf.
Qed.

(** [getProof] returns [null] exactly for a hash that is not a leaf. *)
Theorem merkle_getProof_null_iff_not_a_leaf
  (transactions : list (option string)) (x : string) :
  MerkleCore.getProof (MerkleCore._buildTree H transactions) x = None
  <-> x ∉ map (MerkleCore.leafOf H) transactions.
Proof.
  split.
  - intros Hnone Hin. destruct (getProof_present H transactions x Hin) as [p Hp].
    rewrite Hp in Hnone. discriminate.
  - apply getProof_absent.
Qed.

End MerkleShape.

Lemma merkle_round_trip_without_undefined_sibling_witness :
  exists p,
    MerkleTree.getProof (MerkleTree.new (crypto := nodeCrypto) [Some "a"; Some "b"; Some "c"]) "a"
    = Some p
    /\ Forall is_Some (MerkleCore.siblings p)
    /\ MerkleTree.verifyProof (crypto := nodeCrypto) "a" p
         (MerkleTree.getRoot (MerkleTree.new (crypto := nodeCrypto)
                                [Some "a"; Some "b"; Some "c"])) = true.
Proof.
  eexists. split; [vm_compute; reflexivity|].
  split; [repeat constructor; eexists; reflexivity|].
  apply (merkle_round_trip_without_undefined_sibling
           (CryptoUtils.doubleSha256 (crypto := nodeCrypto))
           [Some "a"; Some "b"; Some "c"] "a").
  - vm_compute. reflexivity.
  - repeat constructor; eexists; reflexivity.
Defined.

Lemma merkle_round_trip_power_of_two_witness :
  let H := sha256 (Crypto := nodeCrypto) in
  let transactions := [Some "a"; Some "b"; Some "c"; Some "d"] in
  length transactions = (2 ^ 2)%nat
  /\ "c" ∈ map (MerkleCore.leafOf H) transactions
  /\ exists p,
       MerkleCore.getProof (MerkleCore._buildTree H transactions) "c" = Some p
       /\ MerkleCore.verifyProof H "c" p
            (MerkleCore.rootOf (MerkleCore._buildTree H transactions)) = true.
Proof.
  intros H transactions.
  split; [reflexivity|].
  split; [simpl; set_solver|].
  apply (merkle_round_trip_power_of_two H 2 transactions "c");
    [reflexivity | simpl; set_solver].
Defined.

(** ** The search for a nonce and the validity of the enhanced chain *)

Lemma startsWith_nonempty (p s : string) :
  p <> EmptyString -> startsWith p s = true -> s <> EmptyString.
Proof.
  intros Hp Hs ->. destruct p as [|a p]; [now apply Hp|]. discriminate.
Qed.

Lemma repeat0_nonempty (d : N) : d <> 0%N -> repeat0 d <> EmptyString.
Proof.
  intros Hd He. pose proof (repeat0_length d) as Hl. rewrite He in Hl. simpl in Hl. lia.
Qed.

Section MiningSearch.
Context {crypto : Crypto}.

Lemma getBlockData_withHash (b : Block.t) (h : option string) :
  Block.getBlockData (Block.withHash b h) = Block.getBlockData b.
Proof. destruct b; reflexivity. Qed.

Lemma digestAt_nonce (b : Block.t) :
  digestAt b (Block.nonce b) = CryptoUtils.doubleSha256 (Block.getBlockData b).
Proof. destruct b; reflexivity. Qed.

(** The search of [mine], attempt by attempt.  On success the block carries
    the first nonce, counted from the one it started with, whose digest meets
    the target, and that digest as its hash.  On failure every nonce tried
    missed, the nonce has moved past them all and the hash is the digest of
    the last nonce tried. *)
Lemma mineLoop_search (n : nat) :
  forall b : Block.t,
    let target := repeat0 (Block.difficulty b) in
    match Block.mineLoop n b with
    | (true, b') =>
        exists k : nat,
          (k < n)%nat
          /\ b' = Block.withHash (Block.withNonce b (Block.nonce b + Z.of_nat k))
                    (Some (digestAt b (Block.nonce b + Z.of_nat k)))
          /\ startsWith target (digestAt b (Block.nonce b + Z.of_nat k)) = true
          /\ (forall j : nat, (j < k)%nat ->
                startsWith target (digestAt b (Block.nonce b + Z.of_nat j)) = false)
    | (false, b') =>
        (forall j : nat, (j < n)%nat ->
           startsWith target (digestAt b (Block.nonce b + Z.of_nat j)) = false)
        /\ Block.nonce b' = Block.nonce b + Z.of_nat n
        /\ ((0 < n)%nat ->
            Block.hash b' = Some (digestAt b (Block.nonce b + Z.of_nat n - 1)))
        /\ (n = O -> b' = b)
    end.
Proof.
  induction n as [|n IH]; intros b target.
  - cbn [Block.mineLoop]. split; [intros j Hj; lia|]. split; [simpl; lia|].
    split; [intros Hn; lia | reflexivity].
  - cbn [Block.mineLoop]. cbv zeta.
    destruct (startsWith (repeat0 (Block.difficulty b))
                (CryptoUtils.doubleSha256 (Block.getBlockData b))) eqn:Hmeet.
    + exists O. rewrite Z.add_0_r, digestAt_nonce.
      split; [lia|]. split; [destruct b; reflexivity|]. split; [exact Hmeet|].
      intros j Hj; lia.
    + set (b1 := Block.withNonce
                   (Block.withHash b (Some (CryptoUtils.doubleSha256 (Block.getBlockData b))))
                   (Block.nonce
                      (Block.withHash b (Some (CryptoUtils.doubleSha256 (Block.getBlockData b))))
                    + 1)).
      specialize (IH b1). cbv zeta in IH.
      assert (Hd : forall m, digestAt b1 m = digestAt b m) by reflexivity.
      assert (Hn : Block.nonce b1 = Block.nonce b + 1) by reflexivity.
      assert (Hdiff : Block.difficulty b1 = Block.difficulty b) by reflexivity.
      assert (Hfirst : forall j : nat, (j < S n)%nat ->
                (j = O \/ exists j', j = S j' /\ (j' < n)%nat)).
      { intros [|j'] Hj; [now left | right; exists j'; split; [reflexivity | lia]]. }
      destruct (Block.mineLoop n b1) as [[|] b'].
      * destruct IH as (k & Hk & Hb' & Hmeets & Hmiss).
        exists (S k). rewrite Hn, Hdiff in *.
        replace (Block.nonce b + Z.of_nat (S k)) with (Block.nonce b + 1 + Z.of_nat k) by lia.
        split; [lia|]. split; [rewrite Hb', Hd; reflexivity|].
        split; [rewrite <- Hd; exact Hmeets|].
        intros j Hj. destruct (Hfirst j ltac:(lia)) as [->|(j' & -> & Hj')].
        -- rewrite Z.add_0_r, digestAt_nonce. exact Hmeet.
        -- replace (Block.nonce b + Z.of_nat (S j')) with (Block.nonce b + 1 + Z.of_nat j')
             by lia.
           rewrite <- Hd. apply Hmiss. lia.
      * destruct IH as (Hmiss & Hnonce & Hhash & Hzero). rewrite Hn, Hdiff in *.
        split; [|split; [|split; [|discriminate]]].
        -- intros j Hj. destruct (Hfirst j Hj) as [->|(j' & -> & Hj')].
           ++ rewrite Z.add_0_r, digestAt_nonce. exact Hmeet.
           ++ replace (Block.nonce b + Z.of_nat (S j')) with (Block.nonce b + 1 + Z.of_nat j')
                by lia.
              rewrite <- Hd. apply Hmiss. exact Hj'.
        -- rewrite Hnonce. lia.
        -- intros _. destruct n as [|n'].
           ++ rewrite (Hzero eq_refl).
              replace (Block.nonce b + Z.of_nat 1 - 1) with (Block.nonce b) by lia.
              rewrite digestAt_nonce. reflexivity.
           ++ rewrite Hhash by lia. rewrite Hd. f_equal. f_equal. lia.
Qed.


Lemma mineLoop_success (n : nat) (b b' : Block.t) :
  Block.mineLoop n b = (true, b') ->
  exists k : nat,
    (k < n)%nat
    /\ b' = Block.withHash (Block.withNonce b (Block.nonce b + Z.of_nat k))
              (Some (digestAt b (Block.nonce b + Z.of_nat k)))
    /\ startsWith (repeat0 (Block.difficulty b)) (digestAt b (Block.nonce b + Z.of_nat k))
       = true
    /\ (forall j : nat, (j < k)%nat ->
          startsWith (repeat0 (Block.difficulty b)) (digestAt b (Block.nonce b + Z.of_nat j))
          = false).
Proof.
  intros Hm. pose proof (mineLoop_search n b) as Hs. cbv zeta in Hs.
  rewrite Hm in Hs. exact Hs.
Qed.

Lemma mineLoop_failure (n : nat) (b b' : Block.t) :
  Block.mineLoop n b = (false, b') ->
  (forall j : nat, (j < n)%nat ->
     startsWith (repeat0 (Block.difficulty b)) (digestAt b (Block.nonce b + Z.of_nat j))
     = false)
  /\ Block.nonce b' = Block.nonce b + Z.of_nat n
  /\ ((0 < n)%nat -> Block.hash b' = Some (digestAt b (Block.nonce b + Z.of_nat n - 1))).
Proof.
  intros Hm. pose proof (mineLoop_search n b) as Hs. cbv zeta in Hs.
  rewrite Hm in Hs. destruct Hs as (H1 & H2 & H3 & _). repeat split; assumption.
Qed.

Lemma defaultMaxAttempts_value : Z.of_nat Block.defaultMaxAttempts = 1000000.
Proof. unfold Block.defaultMaxAttempts. rewrite Z2Nat.id; lia. Qed.

(** [mine] returns the first nonce that meets the target: the block it leaves
    has that nonce and the digest of its data as hash, every nonce before it
    missed, and the block passes [verifyHash] and, at a difficulty above zero,
    [verifyProofOfWork]. *)
Theorem mine_returns_the_first_nonce (b b' : Block.t) :
  Block.mine b = (true, b') ->
  exists k : nat,
    (k < Block.defaultMaxAttempts)%nat
    /\ b' = Block.withHash (Block.withNonce b (Block.nonce b + Z.of_nat k))
              (Some (digestAt b (Block.nonce b + Z.of_nat k)))
    /\ startsWith (repeat0 (Block.difficulty b)) (digestAt b (Block.nonce b + Z.of_nat k))
       = true
    /\ (forall j : nat, (j < k)%nat ->
          startsWith (repeat0 (Block.difficulty b)) (digestAt b (Block.nonce b + Z.of_nat j))
          = false)
    /\ Block.verifyHash b' = true
    /\ (Block.difficulty b <> 0%N -> Block.verifyProofOfWork b' = true).
Proof.
  unfold Block.mine. intros Hmine. apply mineLoop_success in Hmine.
  destruct Hmine as (k & Hk & Hb' & Hmeets & Hmiss).
  exists k. split; [exact Hk|]. split; [exact Hb'|]. split; [exact Hmeets|].
  split; [exact Hmiss|]. subst b'. split.
  - unfold Block.verifyHash. cbv zeta. rewrite getBlockData_withHash.
    cbn [Block.hash Block.withHash]. apply bool_decide_eq_true. reflexivity.
  - intros Hd. unfold Block.verifyProofOfWork.
    cbn [Block.hash Block.withHash Block.difficulty Block.withNonce].
    pose proof (startsWith_nonempty _ _ (repeat0_nonempty _ Hd) Hmeets) as Hne.
    destruct (digestAt b (Block.nonce b + Z.of_nat k)) as [|a r]; [now contradiction Hne|].
    exact Hmeets.
Qed.

(** When [mine] gives up, every one of the 1000000 nonces it tried missed; the
    block is left with its nonce moved past them and with the digest of the
    last nonce tried as its hash, which is not the digest of the data it now
    carries. *)
Theorem mine_failure_leaves_a_stale_hash (b b' : Block.t) :
  Block.mine b = (false, b') ->
  (forall j : nat, (j < Block.defaultMaxAttempts)%nat ->
     startsWith (repeat0 (Block.difficulty b)) (digestAt b (Block.nonce b + Z.of_nat j))
     = false)
  /\ Block.nonce b' = Block.nonce b + 1000000
  /\ Block.hash b' = Some (digestAt b (Block.nonce b + 999999)).
Proof.
  unfold Block.mine. intros Hmine. apply mineLoop_failure in Hmine.
  destruct Hmine as (Hmiss & Hnonce & Hhash).
  pose proof defaultMaxAttempts_value as Hmax.
  split; [exact Hmiss|]. rewrite Hmax in *. split; [exact Hnonce|].
  replace (Block.nonce b + 999999) with (Block.nonce b + 1000000 - 1) by lia.
  apply Hhash. apply Nat2Z.inj_lt. rewrite Hmax. reflexivity.
Qed.

End MiningSearch.

Section EnhancedMining.
Context {crypto : Crypto}.

(** What a successful search of [EnhancedBlock.mine] leaves: the block's own
    content, with a hash that is the digest of its data and meets the target. *)
Lemma enhanced_mineLoop_success (n : nat) :
  forall b b' : EnhancedBlock.t,
    EnhancedBlock.mineLoop n b = (true, b') ->
    EnhancedBlock.previousHash b' = EnhancedBlock.previousHash b
    /\ EnhancedBlock.index b' = EnhancedBlock.index b
    /\ EnhancedBlock.transactions b' = EnhancedBlock.transactions b
    /\ EnhancedBlock.minerAddress b' = EnhancedBlock.minerAddress b
    /\ EnhancedBlock.difficulty b' = EnhancedBlock.difficulty b
    /\ EnhancedBlock.witnessMerkleRoot b' = EnhancedBlock.witnessMerkleRoot b
    /\ EnhancedBlock.merkleRoot b' = EnhancedBlock.merkleRoot b
    /\ EnhancedBlock.hash b' = Some (sha256 (EnhancedBlock.getBlockData b'))
    /\ startsWith (repeat0 (EnhancedBlock.difficulty b))
                  (sha256 (EnhancedBlock.getBlockData b')) = true.
Proof.
  induction n as [|n IH]; intros b b' Hm; [discriminate|].
  cbn [EnhancedBlock.mineLoop] in Hm. cbv zeta in Hm.
  destruct (startsWith (repeat0 (EnhancedBlock.difficulty b))
              (sha256 (EnhancedBlock.getBlockData b))) eqn:Hmeet.
  - injection Hm as <-. repeat split. exact Hmeet.
  - apply IH in Hm. exact Hm.
Qed.

Lemma enhanced_mine_success (b b' : EnhancedBlock.t) :
  EnhancedBlock.mine b = (true, b') ->
  EnhancedBlock.previousHash b' = EnhancedBlock.previousHash b
  /\ EnhancedBlock.index b' = EnhancedBlock.index b
  /\ EnhancedBlock.transactions b' = EnhancedBlock.transactions b
  /\ EnhancedBlock.minerAddress b' = EnhancedBlock.minerAddress b
  /\ EnhancedBlock.difficulty b' = EnhancedBlock.difficulty b
  /\ EnhancedBlock.witnessMerkleRoot b' = EnhancedBlock.witnessMerkleRoot b
  /\ EnhancedBlock.merkleRoot b' = EnhancedBlock.merkleRoot b
  /\ EnhancedBlock.hash b' = Some (sha256 (EnhancedBlock.getBlockData b'))
  /\ startsWith (repeat0 (EnhancedBlock.difficulty b))
                (sha256 (EnhancedBlock.getBlockData b')) = true.
Proof. unfold EnhancedBlock.mine. apply enhanced_mineLoop_success. Qed.

Lemma enhanced_mine_verifies (b b' : EnhancedBlock.t) :
  EnhancedBlock.mine b = (true, b') ->
  EnhancedBlock.difficulty b <> 0%N ->
  EnhancedBlock.verifyMerkleRoots b = true ->
  EnhancedBlock.verifyHash b' = true
  /\ EnhancedBlock.verifyProofOfWork b' = true
  /\ EnhancedBlock.verifyMerkleRoots b' = true.
Proof.
  intros Hm Hd Hroots. apply enhanced_mine_success in Hm.
  destruct Hm as (_ & _ & Htx & _ & Hdiff & Hw & Hr & Hh & Hmeet).
  split; [|split].
  - unfold EnhancedBlock.verifyHash. apply bool_decide_eq_true. now rewrite Hh.
  - unfold EnhancedBlock.verifyProofOfWork. rewrite Hh, Hdiff.
    pose proof (startsWith_nonempty _ _ (repeat0_nonempty _ Hd) Hmeet) as Hne.
    destruct (sha256 (EnhancedBlock.getBlockData b')) as [|a r]; [now contradiction Hne|].
    exact Hmeet.
  - unfold EnhancedBlock.verifyMerkleRoots in *. rewrite Htx, Hw, Hr. exact Hroots.
Qed.

(** A block fresh from the constructor carries the roots of its transactions. *)
Lemma enhanced_new_verifyMerkleRoots (now : Z) (p : EnhancedBlock.params) :
  EnhancedBlock.verifyMerkleRoots (EnhancedBlock.new now p) = true.
Proof.
  unfold EnhancedBlock.verifyMerkleRoots, EnhancedBlock.new, EnhancedBlock._calculateMerkleRoots.
  cbn [EnhancedBlock.transactions EnhancedBlock.witnessMerkleRoot EnhancedBlock.merkleRoot].
  rewrite !bool_decide_eq_true_2 by reflexivity. reflexivity.
Qed.

Lemma list_last_cons {A : Type} (l : list A) (c d : A) :
  List.last (c :: l) d = List.last l c.
Proof.
  revert c d. induction l as [|t rest IH]; intros c d; [reflexivity|].
  change (List.last (c :: t :: rest) d) with (List.last (t :: rest) d).
  rewrite (IH t d), (IH t c). reflexivity.
Qed.

Lemma enhanced_validFrom_snoc (first : EnhancedBlock.t) (rest : list EnhancedBlock.t)
  (b : EnhancedBlock.t) :
  EnhancedBlockchain.validFrom first rest = true ->
  EnhancedBlock.previousHash b = EnhancedBlock.hash (List.last rest first) ->
  EnhancedBlock.verifyHash b = true ->
  EnhancedBlock.verifyProofOfWork b = true ->
  EnhancedBlock.verifyMerkleRoots b = true ->
  EnhancedBlockchain.validFrom first (rest ++ [b]) = true.
Proof.
  revert first. induction rest as [|c rest IH]; intros first Hv Hprev Hh Hp Hr.
  - cbn [app EnhancedBlockchain.validFrom]. cbn [List.last] in Hprev.
    rewrite bool_decide_eq_true_2 by exact Hprev. rewrite Hh, Hp, Hr. reflexivity.
  - cbn [app EnhancedBlockchain.validFrom] in Hv |- *.
    destruct (negb (bool_decide _)); [discriminate|].
    destruct (negb (EnhancedBlock.verifyHash c)); [discriminate|].
    destruct (negb (EnhancedBlock.verifyProofOfWork c)); [discriminate|].
    destruct (negb (EnhancedBlock.verifyMerkleRoots c)); [discriminate|].
    apply IH; try assumption.
    rewrite <- (list_last_cons rest c first). exact Hprev.
Qed.

Lemma last_default {A : Type} (l : list A) (x d : A) :
  last (x :: l) = Some (List.last l x).
Proof.
  revert x. induction l as [|y l IH]; intros x; [reflexivity|].
  rewrite last_cons, IH, (list_last_cons l y x). reflexivity.
Qed.

(** What a successful [mineBlock] of the enhanced ledger did to the chain,
    the pool and the block. *)
Lemma enhanced_mineBlock_returns
  (now : Z) (bc bc' : EnhancedBlockchain.t) (minerAddress : string) (b : EnhancedBlock.t) :
  EnhancedBlockchain.mineBlock now bc minerAddress = Returned (Some b) bc' ->
  let selected :=
    firstn (EnhancedBlockchain.maxTransactionsPerBlock bc)
           (EnhancedBlockchain.pendingTransactions bc) in
  exists latest,
    EnhancedBlockchain.getLatestBlock bc = Some latest
    /\ EnhancedBlock.mine (EnhancedBlockchain.candidateBlock now bc latest minerAddress)
       = (true, b)
    /\ EnhancedBlockchain.chain bc' = (EnhancedBlockchain.chain bc ++ [b])%list
    /\ EnhancedBlockchain.pendingTransactions bc'
       = EnhancedBlockchain.pendingTransactions (EnhancedBlockchain.removeMined bc selected)
    /\ EnhancedBlockchain.mempool bc'
       = EnhancedBlockchain.mempool (EnhancedBlockchain.removeMined bc selected)
    /\ EnhancedBlockchain.nonces bc' = EnhancedBlockchain.nonces bc
    /\ EnhancedBlockchain.difficulty bc' = EnhancedBlockchain.difficulty bc
    /\ EnhancedBlockchain.maxTransactionsPerBlock bc'
       = EnhancedBlockchain.maxTransactionsPerBlock bc.
Proof.
  intros Hret selected. revert Hret. unfold EnhancedBlockchain.mineBlock.
  destruct (EnhancedBlockchain.getLatestBlock bc) as [latest|]; [|discriminate].
  destruct (EnhancedBlock.mine _) as [mined b0] eqn:Hmine.
  destruct mined; [|discriminate].
  intros [= <- <-]. exists latest. split; [reflexivity|]. split; [exact Hmine|].
  fold selected.
  set (bc1 := EnhancedBlockchain.withChain bc (EnhancedBlockchain.chain bc ++ [b0])).
  set (bc2 := EnhancedBlockchain._updateBalances bc1 b0).
  assert (H2 : EnhancedBlockchain.chain bc2 = (EnhancedBlockchain.chain bc ++ [b0])%list
               /\ EnhancedBlockchain.pendingTransactions bc2
                  = EnhancedBlockchain.pendingTransactions bc
               /\ EnhancedBlockchain.mempool bc2 = EnhancedBlockchain.mempool bc
               /\ EnhancedBlockchain.nonces bc2 = EnhancedBlockchain.nonces bc
               /\ EnhancedBlockchain.difficulty bc2 = EnhancedBlockchain.difficulty bc
               /\ EnhancedBlockchain.maxTransactionsPerBlock bc2
                  = EnhancedBlockchain.maxTransactionsPerBlock bc).
  { unfold bc2, EnhancedBlockchain._updateBalances.
    destruct (fold_left _ _ _) as [bal w]. repeat split. }
  destruct H2 as (C2 & P2 & M2 & N2 & D2 & X2).
  assert (H3 : forall l s,
             EnhancedBlockchain.chain (EnhancedBlockchain.removeMined s l)
             = EnhancedBlockchain.chain s
             /\ EnhancedBlockchain.nonces (EnhancedBlockchain.removeMined s l)
                = EnhancedBlockchain.nonces s
             /\ EnhancedBlockchain.difficulty (EnhancedBlockchain.removeMined s l)
                = EnhancedBlockchain.difficulty s
             /\ EnhancedBlockchain.maxTransactionsPerBlock (EnhancedBlockchain.removeMined s l)
                = EnhancedBlockchain.maxTransactionsPerBlock s).
  { induction l as [|tx l IH]; intros s; [repeat split|].
    unfold EnhancedBlockchain.removeMined in *. cbn [fold_left].
    destruct (IH (EnhancedBlockchain.Make
                    (EnhancedBlockchain.chain s)
                    (filter (fun p => EnhancedTransaction.hash p ≠ EnhancedTransaction.hash tx)
                            (EnhancedBlockchain.pendingTransactions s))
                    (mapDelete (EnhancedTransaction.hash tx) (EnhancedBlockchain.mempool s))
                    (EnhancedBlockchain.balances s) (EnhancedBlockchain.nonces s)
                    (EnhancedBlockchain.difficulty s) (EnhancedBlockchain.blockReward s)
                    (EnhancedBlockchain.initialBalance s)
                    (EnhancedBlockchain.maxTransactionsPerBlock s)
                    (EnhancedBlockchain.bloomFilter s) (EnhancedBlockchain.merkleTree s)
                    (EnhancedBlockchain.totalCoinsBurned s)
                    (EnhancedBlockchain.totalCoinsMined s)
                    (EnhancedBlockchain.totalCoinsInNetwork s)
                    (EnhancedBlockchain.wallets s))) as (A1 & A2 & A3 & A4).
    rewrite A1, A2, A3, A4. repeat split. }
  assert (H4 : forall l s s',
             EnhancedBlockchain.pendingTransactions s = EnhancedBlockchain.pendingTransactions s' ->
             EnhancedBlockchain.mempool s = EnhancedBlockchain.mempool s' ->
             EnhancedBlockchain.pendingTransactions (EnhancedBlockchain.removeMined s l)
             = EnhancedBlockchain.pendingTransactions (EnhancedBlockchain.removeMined s' l)
             /\ EnhancedBlockchain.mempool (EnhancedBlockchain.removeMined s l)
                = EnhancedBlockchain.mempool (EnhancedBlockchain.removeMined s' l)).
  { induction l as [|tx l IH]; intros s s' Hp Hm; [now split|].
    unfold EnhancedBlockchain.removeMined in *. cbn [fold_left].
    apply IH; cbn; now rewrite ?Hp, ?Hm. }
  destruct (H3 selected bc2) as (C3 & N3 & D3 & X3).
  destruct (H4 selected bc2 bc P2 M2) as (P4 & M4).
  unfold EnhancedBlockchain._updateEnhancedFeatures.
  cbn [EnhancedBlockchain.chain EnhancedBlockchain.pendingTransactions
       EnhancedBlockchain.mempool EnhancedBlockchain.nonces EnhancedBlockchain.difficulty
       EnhancedBlockchain.maxTransactionsPerBlock].
  rewrite C3, N3, D3, X3, C2, N2, D2, X2, P4, M4. repeat split.
Qed.

(** [mineBlock] keeps a valid chain valid: the block it appends links to the
    latest block and passes the three checks of [isChainValid]. *)
Lemma enhanced_mineBlock_valid_core
  (now : Z) (bc bc' : EnhancedBlockchain.t) (minerAddress : string) (b : EnhancedBlock.t) :
  EnhancedBlockchain.isChainValid bc = true ->
  EnhancedBlockchain.mineBlock now bc minerAddress = Returned (Some b) bc' ->
  EnhancedBlockchain.isChainValid bc' = true.
Proof.
  intros Hvalid Hret.
  destruct (enhanced_mineBlock_returns now bc bc' minerAddress b Hret)
    as (latest & Hlatest & Hmine & Hchain & _).
  unfold EnhancedBlockchain.isChainValid in *. rewrite Hchain.
  unfold EnhancedBlockchain.getLatestBlock in Hlatest.
  destruct (EnhancedBlockchain.chain bc) as [|first rest]; [discriminate|].
  cbn [app]. rewrite (last_default rest first first) in Hlatest. injection Hlatest as Hlatest.
  pose proof (enhanced_mine_success _ _ Hmine) as (Hprev & _).
  destruct (enhanced_mine_verifies _ _ Hmine) as (Hh & Hp & Hr).
  { rewrite enhanced_candidateBlock_difficulty.
    destruct (N.eqb_spec (EnhancedBlockchain.difficulty bc) 0); [discriminate | assumption]. }
  { apply enhanced_new_verifyMerkleRoots. }
  apply enhanced_validFrom_snoc; try assumption.
  rewrite Hprev, Hlatest. reflexivity.
Qed.

(** Whatever transactions are submitted and whatever blocks are mined, the
    chain of the enhanced ledger passes [isChainValid]. *)
Theorem enhanced_chain_stays_valid
  (now : Z) (c : EnhancedBlockchain.config) (seed : list EnhancedTransaction.params)
  (calls : list call) :
  EnhancedBlockchain.isChainValid (fold_left step calls (EnhancedBlockchain.new now c seed))
  = true.
Proof.
  assert (Hadd : forall bc tx,
             EnhancedBlockchain.chain (snd (EnhancedBlockchain.addTransaction bc tx))
             = EnhancedBlockchain.chain bc).
  { intros bc tx. unfold EnhancedBlockchain.addTransaction.
    destruct (negb (EnhancedTransaction.isValid tx _)); [reflexivity|].
    destruct (negb (_ =? _)); reflexivity. }
  assert (Hstart : EnhancedBlockchain.isChainValid (EnhancedBlockchain.new now c seed) = true).
  { unfold EnhancedBlockchain.new, EnhancedBlockchain._loadInitialTransactions.
    set (bc0 := EnhancedBlockchain._createGenesisBlock _ _).
    assert (H0 : EnhancedBlockchain.isChainValid bc0 = true) by reflexivity.
    clearbody bc0. revert bc0 H0.
    induction seed as [|p seed IH]; intros bc0 H0; [exact H0|].
    cbn [fold_left]. apply IH. unfold EnhancedBlockchain.isChainValid in *.
    now rewrite Hadd. }
  set (bc0 := EnhancedBlockchain.new now c seed) in *. clearbody bc0.
  revert bc0 Hstart. induction calls as [|cl calls IH]; intros bc0 Hstart; [exact Hstart|].
  cbn [fold_left]. apply IH. destruct cl as [p|now' miner]; cbn [step].
  - unfold EnhancedBlockchain.isChainValid in *. now rewrite Hadd.
  - destruct (EnhancedBlockchain.mineBlock now' bc0 miner) as [[b|] bc'|bc'] eqn:Hm;
      cbn [stateOf].
    + exact (enhanced_mineBlock_valid_core _ _ _ _ _ Hstart Hm).
    + unfold EnhancedBlockchain.mineBlock in Hm.
      destruct (EnhancedBlockchain.getLatestBlock bc0); [|discriminate].
      destruct (EnhancedBlock.mine _) as [[|] ?]; [discriminate|].
      injection Hm as <-. exact Hstart.
    + unfold EnhancedBlockchain.mineBlock in Hm.
      destruct (EnhancedBlockchain.getLatestBlock bc0); [|injection Hm as <-; exact Hstart].
      destruct (EnhancedBlock.mine _) as [[|] ?]; discriminate.
Qed.

End EnhancedMining.

Lemma mine_returns_the_first_nonce_witness :
  exists k : nat,
    (k < Block.defaultMaxAttempts)%nat
    /\ Block.nonce Run.genesis = Z.of_nat k
    /\ Block.verifyHash (crypto := nodeCrypto) Run.genesis = true
    /\ Block.verifyProofOfWork Run.genesis = true.
Proof.
  assert (Hm : Block.mine (crypto := nodeCrypto)
                 (Block.new (crypto := nodeCrypto) 1700000000060
                    (Block.Params 0 (Some (repeat0 64)) (Some []) (Some 1700000000060)
                                  (Some 1%N) (Some 0)))
               = (true, Run.genesis))
    by (vm_compute; reflexivity).
  destruct (mine_returns_the_first_nonce (crypto := nodeCrypto) _ _ Hm)
    as (k & Hk & Hb & _ & _ & Hv & Hp).
  exists k. split; [exact Hk|]. split; [rewrite Hb; reflexivity|].
  split; [exact Hv|]. apply Hp. discriminate.
Defined.

Lemma mine_failure_leaves_a_stale_hash_witness :
  let b' := snd (Block.mine (crypto := nodeCrypto) hardBlock) in
  Block.nonce b' = 1000000
  /\ Block.hash b' = Some (digestAt (crypto := nodeCrypto) hardBlock 999999).
Proof.
  intros b'.
  assert (Hf : fst (Block.mine (crypto := nodeCrypto) hardBlock) = false).
  { unfold Block.mine. apply mineLoop_fails. intros s.
    change (CryptoUtils.doubleSha256 s) with (SHA256.digest (SHA256.digest s)).
    apply node_digest_never_meets. reflexivity. }
  assert (Hm : Block.mine (crypto := nodeCrypto) hardBlock = (false, b')).
  { unfold b'. destruct (Block.mine (crypto := nodeCrypto) hardBlock) as [m r].
    cbn [fst snd] in *. rewrite Hf. reflexivity. }
  destruct (mine_failure_leaves_a_stale_hash (crypto := nodeCrypto) _ _ Hm) as (_ & Hn & Hh).
  split; [exact Hn | exact Hh].
Defined.

(** ** The chain and the pool of the basic ledger *)

Section JsMapFacts.
Context {K V : Type} `{EqDecision K}.

Lemma mapHas_mapSet (k : K) (x : V) (m : list (K * V)) : mapHas k (mapSet k x m) = true.
Proof.
  unfold mapHas. induction m as [|[k' y] r IH]; cbn [mapSet existsb fst].
  - rewrite bool_decide_eq_true_2 by reflexivity. reflexivity.
  - destruct (decide (k' = k)) as [->|Hne]; cbn [existsb fst].
    + rewrite bool_decide_eq_true_2 by reflexivity. reflexivity.
    + rewrite bool_decide_eq_false_2 by exact Hne. exact IH.
Qed.

Lemma mapGet_mapSet (k : K) (x : V) (m : list (K * V)) : mapGet k (mapSet k x m) = Some x.
Proof.
  unfold mapGet. induction m as [|[k' y] r IH]; cbn [mapSet find fst].
  - rewrite bool_decide_eq_true_2 by reflexivity. reflexivity.
  - destruct (decide (k' = k)) as [->|Hne]; cbn [find fst].
    + rewrite bool_decide_eq_true_2 by reflexivity. reflexivity.
    + rewrite bool_decide_eq_false_2 by exact Hne. exact IH.
Qed.

End JsMapFacts.

Section BasicChain.
Context {crypto : Crypto}.

Lemma validFrom_snoc (first : Block.t) (rest : list Block.t) (b : Block.t) :
  Blockchain.validFrom first rest = true ->
  Block.previousHash b = Block.hash (List.last rest first) ->
  Block.verifyHash b = true ->
  Block.verifyProofOfWork b = true ->
  Blockchain.validFrom first (rest ++ [b]) = true.
Proof.
  revert first. induction rest as [|c rest IH]; intros first Hv Hprev Hh Hp.
  - cbn [app Blockchain.validFrom]. cbn [List.last] in Hprev.
    rewrite bool_decide_eq_true_2 by exact Hprev. rewrite Hh, Hp. reflexivity.
  - cbn [app Blockchain.validFrom] in Hv |- *.
    destruct (negb (bool_decide _)); [discriminate|].
    destruct (negb (Block.verifyHash c)); [discriminate|].
    destruct (negb (Block.verifyProofOfWork c)); [discriminate|].
    apply IH; try assumption.
    rewrite <- (list_last_cons rest c first). exact Hprev.
Qed.

(** [addBlock] keeps a valid chain valid.  A block it accepts is appended,
    follows the latest block by index and by hash and carries the Merkle root
    of its transactions; a block it refuses leaves the ledger as it was. *)
Theorem addBlock_keeps_the_chain_valid (bc : Blockchain.t) (latest block : Block.t) :
  Blockchain.isChainValid bc = true ->
  Blockchain.getLatestBlock bc = Some latest ->
  Blockchain.isChainValid (snd (Blockchain.addBlock bc latest block)) = true
  /\ (fst (Blockchain.addBlock bc latest block) = true ->
      Blockchain.chain (snd (Blockchain.addBlock bc latest block))
      = (Blockchain.chain bc ++ [block])%list
      /\ Block.index block = Block.index latest + 1
      /\ Block.previousHash block = Block.hash latest
      /\ Block.verifyMerkleRoot block = true)
  /\ (fst (Blockchain.addBlock bc latest block) = false ->
      snd (Blockchain.addBlock bc latest block) = bc).
Proof.
  intros Hvalid Hlatest. unfold Blockchain.addBlock, Blockchain._validateBlock.
  destruct (Z.eqb_spec (Block.index block) (Block.index latest + 1)) as [Hidx|_];
    cbn [negb]; [|split; [exact Hvalid | split; [discriminate | reflexivity]]].
  destruct (bool_decide (Block.previousHash block = Block.hash latest)) eqn:Hprev;
    cbn [negb]; [|split; [exact Hvalid | split; [discriminate | reflexivity]]].
  destruct (Block.verifyProofOfWork block) eqn:Hp;
    cbn [negb]; [|split; [exact Hvalid | split; [discriminate | reflexivity]]].
  destruct (Block.verifyHash block) eqn:Hh;
    cbn [negb]; [|split; [exact Hvalid | split; [discriminate | reflexivity]]].
  destruct (Block.verifyMerkleRoot block) eqn:Hr;
    cbn [negb]; [|split; [exact Hvalid | split; [discriminate | reflexivity]]].
  cbn [fst snd]. apply bool_decide_eq_true in Hprev.
  split; [|split; [intros _; repeat split; assumption | discriminate]].
  unfold Blockchain.isChainValid in *. cbn [Blockchain.chain Blockchain.withChain].
  unfold Blockchain.getLatestBlock in Hlatest.
  destruct (Blockchain.chain bc) as [|first rest]; [discriminate|].
  cbn [app]. rewrite (last_default rest first first) in Hlatest. injection Hlatest as Hlatest.
  apply validFrom_snoc; try assumption. rewrite Hlatest. exact Hprev.
Qed.

(** A transaction that passes validation and is not in the mempool is pooled:
    it is the last pending transaction, [getTransaction] finds it under its
    hash and the Bloom filter reports the hash; balances and chain are
    untouched.  With a [null] hash the call throws in its last statement,
    after the pool has been updated. *)
Theorem addTransaction_pools_the_transaction (bc : Blockchain.t) (tx : Transaction.t) :
  Blockchain._validateTransaction bc tx = true ->
  mapHas (Transaction.hash tx) (Blockchain.mempool bc) = false ->
  exists bc',
    Blockchain.addTransaction bc tx
    = match Transaction.hash tx with
      | Some _ => Returned true bc'
      | None => Threw bc'
      end
    /\ Blockchain.pendingTransactions bc' = (Blockchain.pendingTransactions bc ++ [tx])%list
    /\ Blockchain.getTransaction bc' (Transaction.hash tx) = Some tx
    /\ Blockchain.mightContainTransaction bc' (Transaction.hash tx) = true
    /\ Blockchain.utxoSet bc' = Blockchain.utxoSet bc
    /\ Blockchain.chain bc' = Blockchain.chain bc.
Proof.
  intros Hvalid Hfresh. unfold Blockchain.addTransaction. rewrite Hvalid, Hfresh.
  cbn [negb].
  exists (Blockchain.withPool bc
            (Blockchain.pendingTransactions bc ++ [tx])
            (mapSet (Transaction.hash tx) tx (Blockchain.mempool bc))
            (BloomFilter.add (Blockchain.bloomFilter bc) (Transaction.hash tx))).
  split.
  - destruct (Transaction.hash tx); reflexivity.
  - split; [reflexivity|]. split.
    + unfold Blockchain.getTransaction.
      cbn [Blockchain.mempool Blockchain.withPool].
      rewrite mapHas_mapSet. apply mapGet_mapSet.
    + split; [|split; reflexivity].
      unfold Blockchain.mightContainTransaction.
      cbn [Blockchain.bloomFilter Blockchain.withPool].
      apply mightContain_of_bits. intros k Hk. rewrite add_getHashes in Hk.
      now apply add_sets_bits.
Qed.

(** A transaction whose hash is already in the mempool, or that fails
    validation, is refused and the ledger is left as it was. *)
Theorem addTransaction_refusal_leaves_the_ledger (bc bc' : Blockchain.t) (tx : Transaction.t) :
  Blockchain.addTransaction bc tx = Returned false bc' ->
  bc' = bc
  /\ (Blockchain._validateTransaction bc tx = false
      \/ mapHas (Transaction.hash tx) (Blockchain.mempool bc) = true).
Proof.
  unfold Blockchain.addTransaction.
  destruct (Blockchain._validateTransaction bc tx); cbn [negb].
  - destruct (mapHas (Transaction.hash tx) (Blockchain.mempool bc)).
    + intros [= <-]. split; [reflexivity | now right].
    + destruct (Transaction.hash tx); discriminate.
  - intros [= <-]. split; [reflexivity | now left].
Qed.

End BasicChain.

Lemma addBlock_keeps_the_chain_valid_witness :
  Blockchain.isChainValid (crypto := nodeCrypto)
    (snd (Blockchain.addBlock (crypto := nodeCrypto) Run.ledger2 Run.genesis Run.minedSecond))
  = true
  /\ fst (Blockchain.addBlock (crypto := nodeCrypto) Run.ledger2 Run.genesis Run.minedSecond)
     = true
  /\ Blockchain.chain
       (snd (Blockchain.addBlock (crypto := nodeCrypto) Run.ledger2 Run.genesis
               Run.minedSecond))
     = (Blockchain.chain Run.ledger2 ++ [Run.minedSecond])%list.
Proof.
  assert (Hv : Blockchain.isChainValid (crypto := nodeCrypto) Run.ledger2 = true)
    by (vm_compute; reflexivity).
  assert (Hl : Blockchain.getLatestBlock Run.ledger2 = Some Run.genesis)
    by (vm_compute; reflexivity).
  assert (Ha : fst (Blockchain.addBlock (crypto := nodeCrypto) Run.ledger2 Run.genesis
                      Run.minedSecond) = true)
    by (vm_compute; reflexivity).
  destruct (addBlock_keeps_the_chain_valid (crypto := nodeCrypto) Run.ledger2 Run.genesis
              Run.minedSecond Hv Hl) as (Hvalid & Hacc & _).
  split; [exact Hvalid|]. split; [exact Ha|]. exact (proj1 (Hacc Ha)).
Defined.

Lemma addTransaction_pools_the_transaction_witness :
  exists bc',
    Blockchain.addTransaction (crypto := nodeCrypto) Run.ledger1 Run.aliceToBob
    = Returned true bc'
    /\ Blockchain.getTransaction bc' (Transaction.hash Run.aliceToBob) = Some Run.aliceToBob
    /\ Blockchain.mightContainTransaction (crypto := nodeCrypto) bc'
         (Transaction.hash Run.aliceToBob) = true.
Proof.
  assert (Hv : Blockchain._validateTransaction Run.ledger1 Run.aliceToBob = true)
    by (vm_compute; reflexivity).
  assert (Hf : mapHas (Transaction.hash Run.aliceToBob) (Blockchain.mempool Run.ledger1) = false)
    by (vm_compute; reflexivity).
  destruct (addTransaction_pools_the_transaction (crypto := nodeCrypto) Run.ledger1
              Run.aliceToBob Hv Hf) as (bc' & Hadd & _ & Hget & Hmight & _).
  exists bc'. split; [exact Hadd|]. split; [exact Hget | exact Hmight].
Defined.

Lemma addTransaction_refusal_leaves_the_ledger_witness :
  stateOf (Blockchain.addTransaction (crypto := nodeCrypto) Run.ledger2 Run.aliceToBob)
  = Run.ledger2
  /\ (Blockchain._validateTransaction Run.ledger2 Run.aliceToBob = false
      \/ mapHas (Transaction.hash Run.aliceToBob) (Blockchain.mempool Run.ledger2) = true).
Proof.
  apply (addTransaction_refusal_leaves_the_ledger (crypto := nodeCrypto)).
  apply outcome_returned. vm_compute. reflexivity.
Defined.

(** ** What the enhanced ledger records of a mined block *)

Section EnhancedBloomFacts.
Context {crypto : Crypto}.

Lemma enhanced_add_getHashes (f : EnhancedBloomFilter.t) (x : option string) (s : string) :
  EnhancedBloomFilter._getHashes (snd (EnhancedBloomFilter.add f x)) s
  = EnhancedBloomFilter._getHashes f s.
Proof. destruct x as [[|a r]|]; reflexivity. Qed.

Lemma enhanced_add_keeps_bit (f : EnhancedBloomFilter.t) (x : option string) (k : option N) :
  EnhancedBloomFilter.bitArray f !! k = Some 1 ->
  EnhancedBloomFilter.bitArray (snd (EnhancedBloomFilter.add f x)) !! k = Some 1.
Proof.
  intros H. destruct x as [[|a r]|]; cbn [EnhancedBloomFilter.add snd]; try exact H.
  cbn [EnhancedBloomFilter.bitArray]. rewrite setBits_lookup. now case_decide.
Qed.

Lemma enhanced_add_sets_bits (f : EnhancedBloomFilter.t) (a : ascii) (r : string)
  (k : option N) :
  k ∈ EnhancedBloomFilter._getHashes f (String a r) ->
  EnhancedBloomFilter.bitArray (snd (EnhancedBloomFilter.add f (Some (String a r)))) !! k
  = Some 1.
Proof.
  intros H. cbn [EnhancedBloomFilter.add snd EnhancedBloomFilter.bitArray].
  rewrite setBits_lookup. now rewrite decide_True.
Qed.

Lemma enhanced_addAll_getHashes (items : list (option string)) (f : EnhancedBloomFilter.t)
  (s : string) :
  EnhancedBloomFilter._getHashes
    (fold_left (fun g i => snd (EnhancedBloomFilter.add g i)) items f) s
  = EnhancedBloomFilter._getHashes f s.
Proof.
  revert f. induction items as [|i items IH]; intros f; cbn [fold_left]; [reflexivity|].
  now rewrite IH, enhanced_add_getHashes.
Qed.

Lemma enhanced_addAll_keeps_bit (items : list (option string)) (f : EnhancedBloomFilter.t)
  (k : option N) :
  EnhancedBloomFilter.bitArray f !! k = Some 1 ->
  EnhancedBloomFilter.bitArray
    (fold_left (fun g i => snd (EnhancedBloomFilter.add g i)) items f) !! k = Some 1.
Proof.
  revert f. induction items as [|i items IH]; intros f H; cbn [fold_left]; [exact H|].
  apply IH. now apply enhanced_add_keeps_bit.
Qed.

Lemma enhanced_mightContain_of_bits (f : EnhancedBloomFilter.t) (a : ascii) (r : string) :
  (forall k, k ∈ EnhancedBloomFilter._getHashes f (String a r) ->
             EnhancedBloomFilter.bitArray f !! k = Some 1) ->
  EnhancedBloomFilter.mightContain f (Some (String a r)) = true.
Proof.
  intros H. cbn [EnhancedBloomFilter.mightContain]. apply forallb_forall.
  intros k Hin. apply list_elem_of_In in Hin. rewrite (H k Hin). reflexivity.
Qed.

Lemma enhanced_addAll_contains (items : list (option string)) (f : EnhancedBloomFilter.t)
  (a : ascii) (r : string) :
  Some (String a r) ∈ items ->
  EnhancedBloomFilter.mightContain
    (fold_left (fun g i => snd (EnhancedBloomFilter.add g i)) items f) (Some (String a r))
  = true.
Proof.
  intros Hin. apply list_elem_of_split in Hin as (l1 & l2 & ->).
  rewrite fold_left_app. cbn [fold_left].
  apply enhanced_mightContain_of_bits. intros k Hk.
  rewrite enhanced_addAll_getHashes, enhanced_add_getHashes in Hk.
  apply enhanced_addAll_keeps_bit. now apply enhanced_add_sets_bits.
Qed.

(** The enhanced filter takes every non-empty string and never forgets it:
    [add] returns [true] and [mightContain] returns [true] for the item from
    then on.  The empty string and [null] are refused: [add] returns [false]
    and [mightContain] returns [false] for them even right after the call. *)
Theorem enhanced_bloom_no_false_negative
  (f : EnhancedBloomFilter.t) (a : ascii) (r : string) (others : list (option string)) :
  fst (EnhancedBloomFilter.add f (Some (String a r))) = true
  /\ EnhancedBloomFilter.mightContain
       (fold_left (fun g i => snd (EnhancedBloomFilter.add g i)) others
          (snd (EnhancedBloomFilter.add f (Some (String a r)))))
       (Some (String a r)) = true
  /\ EnhancedBloomFilter.add f (Some EmptyString) = (false, f)
  /\ EnhancedBloomFilter.add f None = (false, f)
  /\ EnhancedBloomFilter.mightContain f (Some EmptyString) = false
  /\ EnhancedBloomFilter.mightContain f None = false.
Proof.
  split; [reflexivity|]. split; [|repeat split].
  apply (enhanced_addAll_contains (Some (String a r) :: others) f a r). now left.
Qed.

End EnhancedBloomFacts.

Section FilterFacts.
Context {A : Type} (P Q : A -> Prop) `{forall x, Decision (P x)} `{forall x, Decision (Q x)}.

Lemma filter_keeps_all (l : list A) : (forall x, x ∈ l -> P x) -> filter P l = l.
Proof.
  induction l as [|a l IH]; intros Hall; [reflexivity|].
  rewrite filter_cons_True by (apply Hall; now left).
  rewrite IH; [reflexivity|]. intros x Hx. apply Hall. now right.
Qed.

Lemma filter_drops_all (l : list A) : (forall x, x ∈ l -> ~ P x) -> filter P l = [].
Proof.
  induction l as [|a l IH]; intros Hall; [reflexivity|].
  rewrite filter_cons_False by (apply Hall; now left).
  apply IH. intros x Hx. apply Hall. now right.
Qed.

Lemma filter_same (l : list A) : (forall x, P x <-> Q x) -> filter P l = filter Q l.
Proof.
  intros Hiff. induction l as [|a l IH]; [reflexivity|].
  destruct (decide (P a)) as [Hp|Hp].
  - rewrite (filter_cons_True P) by exact Hp.
    rewrite (filter_cons_True Q) by (apply Hiff; exact Hp). now rewrite IH.
  - rewrite (filter_cons_False P) by exact Hp.
    rewrite (filter_cons_False Q) by (rewrite <- Hiff; exact Hp). exact IH.
Qed.

End FilterFacts.

Section EnhancedRecords.
Context {crypto : Crypto}.

Lemma treeAdd_all (hs : list (option string)) (m : EnhancedMerkleTree.t) :
  hs <> [] ->
  fold_left EnhancedBlockchain.treeAdd hs m
  = EnhancedMerkleTree.new (EnhancedMerkleTree.transactions m ++ hs)
                           (EnhancedMerkleTree.name m).
Proof.
  revert m. induction hs as [|h hs IH]; intros m Hne; [now contradiction Hne|].
  cbn [fold_left]. destruct hs as [|h' hs'].
  - reflexivity.
  - rewrite IH by discriminate. unfold EnhancedBlockchain.treeAdd.
    cbn [EnhancedMerkleTree.transactions EnhancedMerkleTree.name EnhancedMerkleTree.new].
    rewrite <- app_assoc. reflexivity.
Qed.

(** A leaf of a tree built by the constructor is found by
    [verifyTransactionInclusion]. *)
Lemma inclusion_found (txs : list (option string)) (nm h : string) :
  h ∈ map (MerkleCore.leafOf sha256) txs ->
  fst (EnhancedMerkleTree.verifyTransactionInclusion (EnhancedMerkleTree.new txs nm) h) = true.
Proof.
  intros Hin. unfold EnhancedMerkleTree.verifyTransactionInclusion, EnhancedMerkleTree.getProof.
  cbn [EnhancedMerkleTree.tree EnhancedMerkleTree.new EnhancedMerkleTree.root].
  unfold EnhancedMerkleTree._buildTree.
  destruct (getProof_present sha256 txs h Hin) as [p Hp]. rewrite Hp.
  unfold MerkleCore.getProof in Hp.
  destruct (MerkleCore._buildTree sha256 txs) as [|leaves upper]; [discriminate|].
  destruct (MerkleCore.findIndex h leaves); [reflexivity | discriminate].
Qed.

(** What a successful [mineBlock] did to the Bloom filter and the Merkle
    tree of the ledger. *)
Lemma enhanced_mineBlock_features
  (now : Z) (bc bc' : EnhancedBlockchain.t) (minerAddress : string) (b : EnhancedBlock.t) :
  EnhancedBlockchain.mineBlock now bc minerAddress = Returned (Some b) bc' ->
  let hashes := map EnhancedTransaction.hash (EnhancedBlock.transactions b) in
  EnhancedBlockchain.bloomFilter bc'
  = fold_left (fun f h => snd (EnhancedBloomFilter.add f h)) hashes
              (EnhancedBlockchain.bloomFilter bc)
  /\ EnhancedBlockchain.merkleTree bc'
     = fold_left EnhancedBlockchain.treeAdd hashes (EnhancedBlockchain.merkleTree bc).
Proof.
  unfold EnhancedBlockchain.mineBlock.
  destruct (EnhancedBlockchain.getLatestBlock bc) as [latest|]; [|discriminate].
  destruct (EnhancedBlock.mine _) as [mined b0].
  destruct mined; [|discriminate]. intros [= <- <-]. cbv zeta.
  set (bc1 := EnhancedBlockchain.withChain bc _).
  set (bc2 := EnhancedBlockchain._updateBalances bc1 b0).
  match goal with
  | |- context [EnhancedBlockchain.removeMined bc2 ?l] =>
      destruct (removeMined_frame_enhanced l bc2) as (_ & _ & _ & _ & _ & _ & R5 & R6 & _)
  end.
  cbv zeta in R5, R6.
  unfold EnhancedBlockchain._updateEnhancedFeatures.
  cbn [EnhancedBlockchain.bloomFilter EnhancedBlockchain.merkleTree].
  rewrite R5, R6.
  assert (Hb2 : EnhancedBlockchain.bloomFilter bc2 = EnhancedBlockchain.bloomFilter bc
                /\ EnhancedBlockchain.merkleTree bc2 = EnhancedBlockchain.merkleTree bc).
  { unfold bc2, EnhancedBlockchain._updateBalances.
    destruct (fold_left EnhancedBlockchain.applyTransaction _ _) as [bal w].
    split; reflexivity. }
  destruct Hb2 as [-> ->]. split; reflexivity.
Qed.

(** A transaction of a mined block is recorded by the ledger: its hash, a
    non-empty string, is reported by the Bloom filter and found as a leaf of
    the Merkle tree. *)
Theorem enhanced_mined_transaction_is_recorded
  (now : Z) (bc bc' : EnhancedBlockchain.t) (minerAddress : string) (b : EnhancedBlock.t)
  (tx : EnhancedTransaction.t) (a : ascii) (r : string) :
  EnhancedBlockchain.mineBlock now bc minerAddress = Returned (Some b) bc' ->
  tx ∈ EnhancedBlock.transactions b ->
  EnhancedTransaction.hash tx = Some (String a r) ->
  EnhancedBlockchain.mightContainTransaction bc' (Some (String a r)) = true
  /\ fst (EnhancedBlockchain.verifyTransactionInclusion bc' (String a r)) = true.
Proof.
  intros Hret Hin Hhash.
  destruct (enhanced_mineBlock_features now bc bc' minerAddress b Hret) as (Hf & Hm).
  cbv zeta in Hf, Hm.
  assert (Hh : Some (String a r) ∈ map EnhancedTransaction.hash (EnhancedBlock.transactions b)).
  { rewrite <- Hhash. apply list_elem_of_In, in_map, list_elem_of_In. exact Hin. }
  split.
  - unfold EnhancedBlockchain.mightContainTransaction. rewrite Hf.
    apply enhanced_addAll_contains. exact Hh.
  - unfold EnhancedBlockchain.verifyTransactionInclusion. rewrite Hm.
    rewrite treeAdd_all by (intros He; rewrite He in Hh; now apply not_elem_of_nil in Hh).
    apply inclusion_found. rewrite map_app.
    apply elem_of_app. right.
    change (String a r) with (MerkleCore.leafOf sha256 (Some (String a r))).
    apply list_elem_of_In, in_map, list_elem_of_In. exact Hh.
Qed.

Lemma removeMined_pending (l : list EnhancedTransaction.t) (s : EnhancedBlockchain.t) :
  EnhancedBlockchain.pendingTransactions (EnhancedBlockchain.removeMined s l)
  = filter (fun p => EnhancedTransaction.hash p ∉ map EnhancedTransaction.hash l)
           (EnhancedBlockchain.pendingTransactions s).
Proof.
  revert s. induction l as [|tx l IH]; intros s.
  - cbn [EnhancedBlockchain.removeMined fold_left map].
    symmetry. apply filter_keeps_all. intros x _. apply not_elem_of_nil.
  - unfold EnhancedBlockchain.removeMined in *. cbn [fold_left map]. rewrite IH.
    cbn [EnhancedBlockchain.pendingTransactions].
    rewrite list_filter_filter. apply filter_same. intros x.
    rewrite not_elem_of_cons. tauto.
Qed.

Lemma filter_prefix_out (l1 l2 : list EnhancedTransaction.t) :
  NoDup (map EnhancedTransaction.hash (l1 ++ l2)%list) ->
  filter (fun p => EnhancedTransaction.hash p ∉ map EnhancedTransaction.hash l1)
         (l1 ++ l2)%list
  = l2.
Proof.
  intros Hnd. rewrite map_app in Hnd. apply NoDup_app in Hnd as (_ & Hdisj & _).
  rewrite filter_app, filter_drops_all, filter_keeps_all; [reflexivity| |].
  - intros x Hx Hin. apply (Hdisj (EnhancedTransaction.hash x)); [exact Hin|].
    apply list_elem_of_In, in_map, list_elem_of_In. exact Hx.
  - intros x Hx Hnot. apply Hnot.
    apply list_elem_of_In, in_map, list_elem_of_In. exact Hx.
Qed.

Lemma filter_head_out (l : list EnhancedTransaction.t) (n : nat) :
  NoDup (map EnhancedTransaction.hash l) ->
  filter (fun p => EnhancedTransaction.hash p ∉ map EnhancedTransaction.hash (firstn n l)) l
  = skipn n l.
Proof.
  intros Hnd. rewrite <- (firstn_skipn n l) in Hnd.
  pose proof (filter_prefix_out (firstn n l) (skipn n l) Hnd) as Hf.
  rewrite (firstn_skipn n l) in Hf. exact Hf.
Qed.

(** The pool is served first come, first served.  With pairwise distinct
    hashes in the pool and the block limit of the constructor, [mineBlock]
    puts the first pending transactions into the block, in their order, and
    leaves the others pending, in their order. *)
Theorem enhanced_mineBlock_takes_the_head_of_the_pool
  (now : Z) (bc bc' : EnhancedBlockchain.t) (minerAddress : string) (b : EnhancedBlock.t) :
  EnhancedBlockchain.mineBlock now bc minerAddress = Returned (Some b) bc' ->
  NoDup (map EnhancedTransaction.hash (EnhancedBlockchain.pendingTransactions bc)) ->
  (EnhancedBlockchain.maxTransactionsPerBlock bc <= 4)%nat ->
  let n := EnhancedBlockchain.maxTransactionsPerBlock bc in
  EnhancedBlock.transactions b = firstn n (EnhancedBlockchain.pendingTransactions bc)
  /\ EnhancedBlockchain.pendingTransactions bc'
     = skipn n (EnhancedBlockchain.pendingTransactions bc)
  /\ EnhancedBlockchain.chain bc' = (EnhancedBlockchain.chain bc ++ [b])%list
  /\ EnhancedBlock.minerAddress b = minerAddress.
Proof.
  intros Hret Hnd Hmax n.
  destruct (enhanced_mineBlock_returns now bc bc' minerAddress b Hret)
    as (latest & _ & Hmine & Hchain & Hpend & _).
  cbv zeta in Hpend. fold n in Hpend.
  destruct (enhanced_mine_success _ _ Hmine) as (_ & _ & Htx & Hminer & _).
  split; [|split; [|split]].
  - rewrite Htx. unfold EnhancedBlockchain.candidateBlock, EnhancedBlock.new,
      EnhancedBlock._calculateMerkleRoots, EnhancedBlock._processTransactions.
    cbn [EnhancedBlock.transactions EnhancedBlock.p_transactions default id]. fold n.
    replace (4 <? length (firstn n (EnhancedBlockchain.pendingTransactions bc)))%nat
      with false; [reflexivity|].
    symmetry. apply Nat.ltb_ge. rewrite length_take. lia.
  - rewrite Hpend, removeMined_pending. apply filter_head_out. exact Hnd.
  - exact Hchain.
  - rewrite Hminer. reflexivity.
Qed.

End EnhancedRecords.

Lemma run_enhanced_block :
  exists b,
    EnhancedBlockchain.mineBlock (crypto := nodeCrypto) 1700000001000 EnhancedRun.ledger1
      EnhancedRun.wallet2
    = Returned (Some b) EnhancedRun.ledger2
    /\ EnhancedBlock.transactions b = [EnhancedRun.payment]
    /\ EnhancedBlock.totalBaseFees b = 2.
Proof.
  eexists. split; [unfold EnhancedRun.ledger2; run_step|].
  split; vm_compute; reflexivity.
Qed.

Lemma run_enhanced_pool :
  EnhancedBlockchain.pendingTransactions EnhancedRun.ledger1 = [EnhancedRun.payment]
  /\ EnhancedBlockchain.maxTransactionsPerBlock EnhancedRun.ledger1 = 4%nat
  /\ sumBalances (EnhancedBlockchain.balances EnhancedRun.ledger1) = 3000.
Proof. repeat split; vm_compute; reflexivity. Qed.


Lemma enhanced_mined_transaction_is_recorded_witness :
  exists (a : ascii) (r : string),
    EnhancedTransaction.hash EnhancedRun.payment = Some (String a r)
    /\ EnhancedBlockchain.mightContainTransaction (crypto := nodeCrypto) EnhancedRun.ledger2
         (Some (String a r)) = true
    /\ fst (EnhancedBlockchain.verifyTransactionInclusion (crypto := nodeCrypto)
              EnhancedRun.ledger2 (String a r)) = true.
Proof.
  destruct run_enhanced_block as (b & Hret & Htxs & _).
  destruct (EnhancedTransaction.hash EnhancedRun.payment) as [[|a r]|] eqn:Hh;
    [vm_compute in Hh; discriminate | | vm_compute in Hh; discriminate].
  exists a, r. split; [reflexivity|].
  apply (enhanced_mined_transaction_is_recorded (crypto := nodeCrypto) _ _ _ _ _
           EnhancedRun.payment a r Hret); [|exact Hh].
  rewrite Htxs. apply list_elem_of_here.
Defined.

Lemma enhanced_mineBlock_takes_the_head_of_the_pool_witness :
  exists b,
    EnhancedBlock.transactions b = [EnhancedRun.payment]
    /\ EnhancedBlockchain.pendingTransactions EnhancedRun.ledger2 = []
    /\ EnhancedBlockchain.chain EnhancedRun.ledger2
       = (EnhancedBlockchain.chain EnhancedRun.ledger1 ++ [b])%list.
Proof.
  destruct run_enhanced_block as (b & Hret & _).
  destruct run_enhanced_pool as (Hpool & Hmax & _).
  assert (Hnd : NoDup (map EnhancedTransaction.hash
                         (EnhancedBlockchain.pendingTransactions EnhancedRun.ledger1))).
  { rewrite Hpool. apply NoDup_singleton. }
  assert (Hle : (EnhancedBlockchain.maxTransactionsPerBlock EnhancedRun.ledger1 <= 4)%nat).
  { rewrite Hmax. apply le_n. }
  destruct (enhanced_mineBlock_takes_the_head_of_the_pool (crypto := nodeCrypto)
              _ _ _ _ _ Hret Hnd Hle) as (Htx & Hpend & Hchain & _).
  cbv zeta in Htx, Hpend. rewrite Hmax, Hpool in Htx, Hpend.
  exists b. split; [exact Htx|]. split; [exact Hpend | exact Hchain].
Defined.

(** ** Fee checks and the selection of transactions *)

Lemma isValidForBaseFee_spec (tx : Transaction.t) (baseFeePerGas : Z) :
  Transaction.isValidForBaseFee tx baseFeePerGas = true
  <-> 0 <= Transaction.maxPriorityFeePerGas tx /\ baseFeePerGas <= Transaction.maxFeePerGas tx.
Proof.
  unfold Transaction.isValidForBaseFee, Transaction.getEffectiveGasPrice. cbv zeta.
  rewrite andb_true_iff, Z.leb_le, Z.geb_le. lia.
Qed.

(** [isValidForBaseFee] holds exactly when the priority fee offered is not
    negative and the fee cap is at least the base fee, as long as the fees
    are in the range of the exact integers.  In that range the first
    comparison of the source, the effective price against the cap, never
    fails. *)
Theorem isValidForBaseFee_iff (tx : Transaction.t) (baseFeePerGas : Z) :
  exactFees tx baseFeePerGas ->
  (DoubleTransaction.isValidForBaseFee tx (Double.ofZ baseFeePerGas) = true
   <-> 0 <= Transaction.maxPriorityFeePerGas tx
       /\ baseFeePerGas <= Transaction.maxFeePerGas tx)
  /\ (DoubleTransaction.getEffectiveGasPrice tx (Double.ofZ baseFeePerGas)
      <=? Double.ofZ (Transaction.maxFeePerGas tx))%double = true.
Proof.
  intros Hf. pose proof Hf as (Ht & Hc & Hb & Hd & He). split.
  - rewrite isValidForBaseFee_exact by exact Hf. apply isValidForBaseFee_spec.
  - rewrite getEffectiveGasPrice_exact by exact Hf. rewrite leb_ofZ by assumption.
    unfold Transaction.getEffectiveGasPrice. cbv zeta. apply Z.leb_le. lia.
Qed.

Lemma isValidForBaseFee_iff_witness :
  exactFees cappedTransaction 5
  /\ DoubleTransaction.isValidForBaseFee cappedTransaction (Double.ofZ 5) = true
  /\ exactFees negativeTipTransaction 5
  /\ DoubleTransaction.isValidForBaseFee negativeTipTransaction (Double.ofZ 5) <> true.
Proof.
  assert (E : exactFees cappedTransaction 5) by (repeat split; vm_compute; discriminate).
  assert (F : exactFees negativeTipTransaction 5) by (repeat split; vm_compute; discriminate).
  split; [exact E|]. split.
  - apply (proj1 (isValidForBaseFee_iff cappedTransaction 5 E)). simpl. lia.
  - split; [exact F|]. intros H.
    apply (proj1 (isValidForBaseFee_iff negativeTipTransaction 5 F)) in H.
    simpl in H. lia.
Defined.

Section Validation.
Context {crypto : Crypto}.

(** The reading of [_validateTransaction] on integers. *)
Lemma validateTransaction_spec (bc : Blockchain.t) (tx : Transaction.t) :
  Blockchain._validateTransaction bc tx = true
  <-> falsyStr (Transaction.signature tx) = false
      /\ Transaction.value tx + Transaction.getGasCost tx (Blockchain.baseFeePerGas bc)
         <= Blockchain.getBalance bc (Transaction.from tx)
      /\ (0 < Blockchain.baseFeePerGas bc ->
          0 <= Transaction.maxPriorityFeePerGas tx
          /\ Blockchain.baseFeePerGas bc <= Transaction.maxFeePerGas tx).
Proof.
  unfold Blockchain._validateTransaction. cbv zeta.
  destruct (falsyStr (Transaction.signature tx)); [split; [discriminate | intros [? _]; discriminate]|].
  destruct (Z.ltb_spec (Blockchain.getBalance bc (Transaction.from tx))
              (Transaction.value tx + Transaction.getGasCost tx (Blockchain.baseFeePerGas bc)))
    as [Hlt|Hge]; [split; [discriminate | intros (_ & ? & _); lia]|].
  destruct (Z.ltb_spec 0 (Blockchain.baseFeePerGas bc)) as [Hpos|Hnpos]; cbn [andb].
  - destruct (Transaction.isValidForBaseFee tx (Blockchain.baseFeePerGas bc)) eqn:Hv; cbn [negb].
    + apply isValidForBaseFee_spec in Hv. split; [intros _; repeat split; tauto || assumption | reflexivity].
    + split; [discriminate|]. intros (_ & _ & Hfee).
      apply Hfee, isValidForBaseFee_spec in Hpos. congruence.
  - split; [intros _; repeat split; [assumption | lia | lia] | reflexivity].
Qed.

(** What [_validateTransaction] asks of a transaction: a signature, a balance
    that covers the value and the gas cost and, only when the base fee of the
    ledger is above zero, a priority fee that is not negative and a fee cap
    at or above the base fee.  The fees, the cost and the balance are taken
    in the range of the exact integers. *)
Theorem validateTransaction_iff (bc : Blockchain.t) (tx : Transaction.t) :
  exactCost bc tx ->
  DoubleBlockchain._validateTransaction bc tx = true
  <-> falsyStr (Transaction.signature tx) = false
      /\ Transaction.value tx + Transaction.getGasCost tx (Blockchain.baseFeePerGas bc)
         <= Blockchain.getBalance bc (Transaction.from tx)
      /\ (0 < Blockchain.baseFeePerGas bc ->
          0 <= Transaction.maxPriorityFeePerGas tx
          /\ Blockchain.baseFeePerGas bc <= Transaction.maxFeePerGas tx).
Proof.
  intros (Hf & Hg & Hc & Hv & Ht & Hbal). pose proof Hf as (_ & _ & Hb & _ & _).
  assert (E : DoubleBlockchain._validateTransaction bc tx
              = Blockchain._validateTransaction bc tx).
  { unfold DoubleBlockchain._validateTransaction, Blockchain._validateTransaction. cbv zeta.
    rewrite getGasCost_exact, isValidForBaseFee_exact by assumption.
    rewrite add_ofZ by assumption. unfold Double.gtb.
    rewrite !ltb_ofZ by (assumption || apply exact_range; lia). reflexivity. }
  rewrite E. apply validateTransaction_spec.
Qed.

End Validation.

Lemma validateTransaction_iff_witness :
  exactCost Run.ledger1 Run.aliceToBob
  /\ (DoubleBlockchain._validateTransaction Run.ledger1 Run.aliceToBob = true
      <-> falsyStr (Transaction.signature Run.aliceToBob) = false
          /\ Transaction.value Run.aliceToBob
             + Transaction.getGasCost Run.aliceToBob (Blockchain.baseFeePerGas Run.ledger1)
             <= Blockchain.getBalance Run.ledger1 (Transaction.from Run.aliceToBob)
          /\ (0 < Blockchain.baseFeePerGas Run.ledger1 ->
              0 <= Transaction.maxPriorityFeePerGas Run.aliceToBob
              /\ Blockchain.baseFeePerGas Run.ledger1
                 <= Transaction.maxFeePerGas Run.aliceToBob)).
Proof.
  assert (E : exactCost Run.ledger1 Run.aliceToBob)
    by (repeat split; vm_compute; discriminate).
  split; [exact E|].
  exact (validateTransaction_iff Run.ledger1 Run.aliceToBob E).
Defined.

Section Selection.

Lemma insertByPriority_perm (base : Z) (tx : Transaction.t) (l : list Transaction.t) :
  Blockchain.insertByPriority base tx l ≡ₚ tx :: l.
Proof.
  induction l as [|a l IH]; cbn [Blockchain.insertByPriority]; [reflexivity|].
  destruct (_ <? _); [reflexivity|]. rewrite IH. apply Permutation_swap.
Qed.

Lemma insertByPriority_sorted (base : Z) (tx : Transaction.t) (l : list Transaction.t) :
  StronglySorted (byPriority base) l ->
  StronglySorted (byPriority base) (Blockchain.insertByPriority base tx l).
Proof.
  induction l as [|a l IH]; intros Hs; cbn [Blockchain.insertByPriority].
  - repeat constructor.
  - apply StronglySorted_inv in Hs as [Hl Ha].
    destruct (Z.ltb_spec (Transaction.getPriority a base) (Transaction.getPriority tx base))
      as [Hlt|Hge].
    + constructor; [constructor; assumption|].
      constructor; [unfold byPriority; lia|].
      eapply Forall_impl; [exact Ha|]. unfold byPriority. intros x Hx. lia.
    + constructor; [apply IH; exact Hl|].
      rewrite insertByPriority_perm. constructor; [exact Hge | exact Ha].
Qed.

Lemma sortByPriority_spec (base : Z) (txs : list Transaction.t) :
  Blockchain.sortByPriority base txs ≡ₚ txs
  /\ StronglySorted (byPriority base) (Blockchain.sortByPriority base txs).
Proof.
  unfold Blockchain.sortByPriority.
  enough (G : forall acc,
             StronglySorted (byPriority base) acc ->
             fold_left (fun sorted tx => Blockchain.insertByPriority base tx sorted) txs acc
             ≡ₚ (acc ++ txs)%list
             /\ StronglySorted (byPriority base)
                  (fold_left (fun sorted tx => Blockchain.insertByPriority base tx sorted)
                             txs acc)).
  { apply (G []). constructor. }
  induction txs as [|tx txs IH]; intros acc Hacc; cbn [fold_left].
  - rewrite app_nil_r. split; [reflexivity | exact Hacc].
  - destruct (IH (Blockchain.insertByPriority base tx acc)
                 (insertByPriority_sorted base tx acc Hacc)) as [Hp Hs].
    split; [|exact Hs]. rewrite Hp, insertByPriority_perm.
    rewrite <- Permutation_middle. reflexivity.
Qed.

Lemma selectLoop_sublist (bc : Blockchain.t) (txs : list Transaction.t) :
  forall (selected : list Transaction.t) (totalSize totalGas : Z),
    exists chosen,
      Blockchain.selectLoop bc txs selected totalSize totalGas = (selected ++ chosen)%list
      /\ sublist chosen txs.
Proof.
  induction txs as [|tx txs IH]; intros selected totalSize totalGas;
    cbn [Blockchain.selectLoop].
  - exists []. rewrite app_nil_r. split; [reflexivity | constructor].
  - cbv zeta. destruct (_ && _).
    + destruct (IH (selected ++ [tx])%list (totalSize + Blockchain.txSize tx)
                   (totalGas + Transaction.gasLimit tx)) as (chosen & -> & Hsub).
      exists (tx :: chosen). rewrite <- app_assoc. split; [reflexivity|].
      now apply sublist_skip.
    + destruct (IH selected totalSize totalGas) as (chosen & -> & Hsub).
      exists chosen. split; [reflexivity|]. now apply sublist_cons.
Qed.

Lemma StronglySorted_sublist_of {A : Type} (R : A -> A -> Prop) (l k : list A) :
  sublist l k -> StronglySorted R k -> StronglySorted R l.
Proof.
  intros Hsub. induction Hsub as [|x l k Hsub IH|x l k Hsub IH]; intros Hs.
  - constructor.
  - apply StronglySorted_inv in Hs as [Hk Hx]. constructor; [now apply IH|].
    apply Forall_forall. intros y Hy. rewrite Forall_forall in Hx. apply Hx.
    eapply elem_of_sublist; eassumption.
  - apply StronglySorted_inv in Hs as [Hk _]. now apply IH.
Qed.

(** [_selectTransactionsForBlock] picks from the mempool in priority order:
    the sorted mempool is a rearrangement of the mempool in which priority
    never increases, and the selection is a subsequence of it; so every
    selected transaction is in the mempool, none is selected twice over its
    occurrences there, and a selected transaction never has a higher priority
    than one selected before it. *)
Theorem selection_follows_priority (bc : Blockchain.t) :
  let base := Blockchain.baseFeePerGas bc in
  let sorted := Blockchain.sortByPriority base (mapValues (Blockchain.mempool bc)) in
  let selected := Blockchain._selectTransactionsForBlock bc in
  sorted ≡ₚ mapValues (Blockchain.mempool bc)
  /\ StronglySorted (byPriority base) sorted
  /\ sublist selected sorted
  /\ StronglySorted (byPriority base) selected
  /\ (forall tx, tx ∈ selected -> tx ∈ mapValues (Blockchain.mempool bc)).
Proof.
  intros base sorted selected.
  destruct (sortByPriority_spec base (mapValues (Blockchain.mempool bc))) as [Hp Hs].
  fold sorted in Hp, Hs.
  assert (Hsub : sublist selected sorted).
  { unfold selected, Blockchain._selectTransactionsForBlock. cbv zeta. fold base. fold sorted.
    destruct (selectLoop_sublist bc sorted [] 0 0) as (chosen & -> & Hsub). exact Hsub. }
  split; [exact Hp|]. split; [exact Hs|]. split; [exact Hsub|].
  split; [exact (StronglySorted_sublist_of _ _ _ Hsub Hs)|].
  intros tx Htx. rewrite <- Hp. eapply elem_of_sublist; eassumption.
Qed.

End Selection.

(** ** A filter fresh from the constructor *)

Lemma zeroArray_lookup (size i : N) : (i < size)%N -> zeroArray size !! Some i = Some 0.
Proof.
  intros Hi. unfold zeroArray. apply elem_of_list_to_map_1'.
  - intros y Hy. apply list_elem_of_In, in_map_iff in Hy as (j & [= _ <-] & _). reflexivity.
  - apply list_elem_of_In, in_map_iff. exists (N.to_nat i).
    split; [now rewrite N2Nat.id|]. apply in_seq. lia.
Qed.

Lemma hexValue_hexDigit (n : N) : (n < 16)%N -> hexValue (hexDigit n) = Some n.
Proof.
  intros Hn. rewrite <- (N2Nat.id n).
  assert (Hk : (N.to_nat n < 16)%nat) by lia.
  clear Hn. revert Hk. generalize (N.to_nat n). clear n. intros k Hk.
  do 16 (destruct k as [|k]; [reflexivity|]). lia.
Qed.

Lemma parseHex_Some (s : string) (acc : option N) : is_Some acc -> is_Some (parseHex s acc).
Proof.
  revert acc. induction s as [|a r IH]; intros acc Hacc; cbn [parseHex]; [exact Hacc|].
  destruct (hexValue a); [apply IH; eexists; reflexivity | exact Hacc].
Qed.

Lemma nibble_bound (x : Z) : (Z.to_N (Z.land x 15) < 16)%N.
Proof.
  change 15 with (Z.ones 4). rewrite Z.land_ones by lia.
  pose proof (Z.mod_pos_bound x (2 ^ 4) ltac:(lia)) as H. change (2 ^ 4) with 16 in *. lia.
Qed.

(** The digest printed by node starts with a hexadecimal digit, so
    [parseInt(..., 16)] of its first eight characters is a number. *)
Lemma digest_head (s : string) :
  exists (n : N) (rest : string), (n < 16)%N /\ SHA256.digest s = String (hexDigit n) rest.
Proof.
  unfold SHA256.digest. cbv zeta.
  destruct (SHA256.blocks _ _ _) as [a b c d e f g h].
  eexists _, _. split; [apply (nibble_bound (Z.shiftr a (4 * (7 - Z.of_nat 0))))|].
  reflexivity.
Qed.

Lemma digest_parses (s : string) : is_Some (parseInt16 (substring0 8 (SHA256.digest s))).
Proof.
  destruct (digest_head s) as (n & rest & Hn & ->).
  unfold parseInt16. cbn [substring0 parseHex]. rewrite hexValue_hexDigit by exact Hn.
  apply parseHex_Some. eexists; reflexivity.
Qed.

Lemma jsRem_position (x : option N) (size : N) :
  is_Some x -> size <> 0%N -> exists i, jsRem x size = Some i /\ (i < size)%N.
Proof.
  intros [n ->] Hsize. unfold jsRem.
  destruct (N.eqb_spec size 0) as [->|_]; [now contradiction Hsize|].
  eexists. split; [reflexivity|]. now apply N.mod_lt.
Qed.

(** A filter fresh from the constructor, with a size and a number of hash
    functions above zero, reports no item, in the basic and in the enhanced
    class: the first position looked at holds [0]. *)
Theorem fresh_bloom_filter_reports_nothing
  (size : N) (hashCount : nat) (name : string) (item : option string) :
  size <> 0%N -> hashCount <> O ->
  BloomFilter.mightContain (crypto := nodeCrypto) (BloomFilter.new size hashCount) item = false
  /\ EnhancedBloomFilter.mightContain (crypto := nodeCrypto)
       (EnhancedBloomFilter.new size hashCount name) item = false.
Proof.
  intros Hsize Hcount. destruct hashCount as [|k]; [now contradiction Hcount|]. split.
  - unfold BloomFilter.mightContain, BloomFilter._getHashes, BloomFilter.new.
    cbn [BloomFilter.size BloomFilter.hashCount BloomFilter.bitArray seq map forallb].
    cbv zeta.
    destruct (jsRem_position
                (parseInt16 (substring0 8 (sha256 (Crypto := nodeCrypto)
                                             (strOfNull item +:+ showN (N.of_nat 0)))))
                size (digest_parses _) Hsize) as (i & -> & Hi).
    rewrite (zeroArray_lookup size i Hi).
    rewrite bool_decide_eq_true_2 by reflexivity. reflexivity.
  - destruct item as [[|a r]|]; [reflexivity | | reflexivity].
    unfold EnhancedBloomFilter.mightContain, EnhancedBloomFilter._getHashes,
      EnhancedBloomFilter.new.
    cbn [EnhancedBloomFilter.size EnhancedBloomFilter.hashCount EnhancedBloomFilter.bitArray
         EnhancedBloomFilter.name seq map forallb].
    cbv zeta.
    destruct (jsRem_position
                (parseInt16 (substring0 8 (sha256 (Crypto := nodeCrypto)
                                             (String a r +:+ showN (N.of_nat 0) +:+ name))))
                size (digest_parses _) Hsize) as (i & -> & Hi).
    rewrite (zeroArray_lookup size i Hi).
    rewrite bool_decide_eq_true_2 by reflexivity. reflexivity.
Qed.

Lemma fresh_bloom_filter_reports_nothing_witness :
  BloomFilter.mightContain (crypto := nodeCrypto) (BloomFilter.new 1024 3) (Some "kiki") = false
  /\ EnhancedBloomFilter.mightContain (crypto := nodeCrypto)
       (EnhancedBloomFilter.new 1024 3 "TransactionFilter") (Some "kiki") = false.
Proof.
  apply (fresh_bloom_filter_reports_nothing 1024 3 "TransactionFilter" (Some "kiki"));
    discriminate.
Defined.

(** ** The light wallet *)

Section WalletFacts.
Context {crypto : Crypto}.

Lemma walletHolds_new (addr nm : string) : walletHolds (LightWallet.new addr nm) [] [].
Proof.
  split; [|split; [|split]].
  - intros x. cbn. set_solver.
  - intros s. cbn. split; [set_solver|]. intros [_ H]. now apply not_elem_of_nil in H.
  - intros s k Hs. cbn in Hs. set_solver.
  - exists [], (nm +:+ "_MerkleTree"). split; [reflexivity|]. intros x. reflexivity.
Qed.

Lemma updateBloomFilter_holds (l : list (option string)) :
  forall (w : LightWallet.t) (B M : list (option string)),
    walletHolds w B M -> walletHolds (LightWallet.updateBloomFilter w l) (B ++ l)%list M.
Proof.
  unfold LightWallet.updateBloomFilter.
  induction l as [|x l IH]; intros w B M Hw; cbn [fold_left].
  - rewrite app_nil_r. exact Hw.
  - replace (B ++ x :: l)%list with ((B ++ [x]) ++ l)%list
      by (rewrite <- app_assoc; reflexivity).
    apply IH. destruct Hw as (Hk & Hi & Hb & Hm).
    destruct (bool_decide_reflect (x ∈ LightWallet.knownTransactions w)) as [Hin|Hnin].
    + apply Hk in Hin. split; [|split; [|split]].
      * intros y. rewrite Hk, elem_of_app, list_elem_of_singleton.
        split; [tauto | intros [?| ->]; assumption].
      * intros s. rewrite Hi, elem_of_app, list_elem_of_singleton.
        split; [tauto | intros [? [?|<-]]; tauto].
      * exact Hb.
      * exact Hm.
    + split; [|split; [|split]].
      * intros y. cbn [LightWallet.knownTransactions].
        rewrite elem_of_union, elem_of_singleton, Hk, elem_of_app, list_elem_of_singleton.
        tauto.
      * intros s. cbn [LightWallet.bloomFilter].
        rewrite elem_of_app, list_elem_of_singleton.
        destruct x as [[|a r]|]; cbn [EnhancedBloomFilter.add snd].
        -- rewrite Hi. split; [tauto | intros [? [?|[= ->]]]; [tauto | congruence]].
        -- cbn [EnhancedBloomFilter.insertedItems].
           rewrite elem_of_union, elem_of_singleton, Hi.
           split; [intros [->| [? ?]]; [split; [discriminate | now right] | tauto]|].
           intros [Hne [?|[= ->]]]; [right; tauto | now left].
        -- rewrite Hi. split; [tauto | intros [? [?|?]]; [tauto | discriminate]].
      * intros s k. cbn [LightWallet.bloomFilter].
        rewrite enhanced_add_getHashes.
        destruct x as [[|a r]|]; cbn [EnhancedBloomFilter.add snd]; try apply Hb.
        cbn [EnhancedBloomFilter.insertedItems EnhancedBloomFilter.bitArray].
        rewrite elem_of_union, elem_of_singleton. intros [->|Hs] Hkk.
        -- rewrite setBits_lookup. now rewrite decide_True.
        -- rewrite setBits_lookup. case_decide; [reflexivity|]. now apply (Hb s).
      * exact Hm.
Qed.

Lemma updateMerkleTree_holds (now : Z) (blockHash : string) (root : option string)
  (l : list (option string)) :
  forall (w : LightWallet.t) (B M : list (option string)),
    walletHolds w B M ->
    walletHolds (LightWallet.updateMerkleTree now w blockHash l root) B (M ++ l)%list.
Proof.
  intros w B M Hw. unfold LightWallet.updateMerkleTree. cbv zeta.
  set (w1 := LightWallet.Make _ _ _ _ _ _ _ _).
  assert (Hw1 : walletHolds w1 B M) by exact Hw.
  clearbody w1. clear Hw w. revert w1 M Hw1.
  induction l as [|x l IH]; intros w M Hw; cbn [fold_left].
  - rewrite app_nil_r. exact Hw.
  - replace (M ++ x :: l)%list with ((M ++ [x]) ++ l)%list
      by (rewrite <- app_assoc; reflexivity).
    apply IH. destruct Hw as (Hk & Hi & Hb & (txs & nm & Htree & Hm)).
    destruct (bool_decide_reflect
                (x ∈ EnhancedMerkleTree.transactions (LightWallet.merkleTree w)))
      as [Hin|Hnin].
    + split; [exact Hk|]. split; [exact Hi|]. split; [exact Hb|].
      exists txs, nm. split; [exact Htree|]. intros y.
      rewrite Htree in Hin. cbn [EnhancedMerkleTree.transactions EnhancedMerkleTree.new] in Hin.
      rewrite Hm, elem_of_app, list_elem_of_singleton.
      split; [tauto | intros [?| ->]; [assumption | now apply Hm]].
    + split; [exact Hk|]. split; [exact Hi|]. split; [exact Hb|].
      exists (txs ++ [x])%list, nm. split.
      * cbn [LightWallet.merkleTree]. rewrite Htree. reflexivity.
      * intros y. rewrite !elem_of_app, Hm. reflexivity.
Qed.

Lemma walletHolds_run (addr nm : string) (calls : list walletCall) :
  walletHolds (fold_left walletStep calls (LightWallet.new addr nm))
              (bloomHashes calls) (merkleHashes calls).
Proof.
  induction calls as [|c calls IH] using rev_ind; [apply walletHolds_new|].
  rewrite fold_left_app. cbn [fold_left].
  unfold bloomHashes, merkleHashes in *. rewrite !flat_map_app. cbn [flat_map].
  rewrite !app_nil_r.
  destruct c as [l|now bh l root]; cbn [walletStep].
  - rewrite app_nil_r. now apply updateBloomFilter_holds.
  - rewrite app_nil_r. now apply updateMerkleTree_holds.
Qed.

Lemma inclusion_found_iff (txs : list (option string)) (nm h : string) :
  fst (EnhancedMerkleTree.verifyTransactionInclusion (EnhancedMerkleTree.new txs nm) h) = true
  <-> h ∈ map (MerkleCore.leafOf sha256) txs.
Proof.
  split; [|apply inclusion_found].
  intros Hfound. destruct (decide (h ∈ map (MerkleCore.leafOf sha256) txs)) as [|Hnin];
    [assumption|].
  unfold EnhancedMerkleTree.verifyTransactionInclusion, EnhancedMerkleTree.getProof in Hfound.
  cbn [EnhancedMerkleTree.tree EnhancedMerkleTree.new] in Hfound.
  unfold EnhancedMerkleTree._buildTree in Hfound.
  rewrite (getProof_absent sha256 txs h Hnin) in Hfound. discriminate.
Qed.

Lemma leaves_same (l1 l2 : list (option string)) (h : string) :
  (forall x, x ∈ l1 <-> x ∈ l2) ->
  h ∈ map (MerkleCore.leafOf sha256) l1 <-> h ∈ map (MerkleCore.leafOf sha256) l2.
Proof.
  intros Hsame. split; intros Hin; apply list_elem_of_In, in_map_iff in Hin as (x & <- & Hx);
    apply list_elem_of_In, in_map, list_elem_of_In, Hsame, list_elem_of_In; exact Hx.
Qed.

(** A light wallet answers that a transaction exists exactly for the hashes
    it was told about on both channels: a non-empty hash that was handed to
    [updateBloomFilter] and is a leaf of the tree grown by
    [updateMerkleTree].  Whether the Merkle proof verifies plays no part in
    the answer. *)
Theorem light_wallet_existence_iff (addr nm : string) (calls : list walletCall) (h : string) :
  let w := fold_left walletStep calls (LightWallet.new addr nm) in
  LightWallet.e_exists (LightWallet.verifyTransactionExistence w h) = true
  <-> h <> EmptyString
      /\ Some h ∈ bloomHashes calls
      /\ h ∈ map (MerkleCore.leafOf sha256) (merkleHashes calls).
Proof.
  intros w. destruct (walletHolds_run addr nm calls) as (_ & Hi & Hb & (txs & tn & Htree & Hm)).
  fold w in Hi, Hb, Htree.
  unfold LightWallet.verifyTransactionExistence, EnhancedBloomFilter.search. cbv zeta.
  cbn [EnhancedBloomFilter.r_mightContain EnhancedBloomFilter.r_isFalsePositive].
  rewrite <- (leaves_same txs (merkleHashes calls) h Hm), <- inclusion_found_iff.
  rewrite <- Htree.
  destruct (bool_decide_reflect
              (h ∈ EnhancedBloomFilter.insertedItems (LightWallet.bloomFilter w)))
    as [Hin|Hnin].
  - pose proof (proj1 (Hi h) Hin) as [Hne HB].
    destruct h as [|a r]; [now contradiction Hne|].
    rewrite (enhanced_mightContain_of_bits _ a r (fun k => Hb (String a r) k Hin)). cbn [negb andb].
    destruct (fst (EnhancedMerkleTree.verifyTransactionInclusion _ _)); cbn [LightWallet.e_exists].
    + split; [intros _; repeat split; assumption | reflexivity].
    + split; [discriminate | intros (_ & _ & ?); discriminate].
  - assert (Hno : ~ (h <> EmptyString /\ Some h ∈ bloomHashes calls))
      by (intros H; apply Hnin, Hi; exact H).
    destruct (EnhancedBloomFilter.mightContain _ _); cbn [negb andb LightWallet.e_exists];
      (split; [discriminate | intros (? & ? & _); tauto]).
Qed.

End WalletFacts.

(** The wallet's own bookkeeping agrees with the ledger's.  For a
    transaction whose total cost is its value plus its fees, [updateBalance]
    moves the balance of the wallet exactly as the loop of [_updateBalances]
    moves the balance the ledger keeps for the wallet's address, whether the
    wallet is the sender, the recipient, both or neither; the nonce goes up
    by one when it is the sender. *)
Theorem wallet_balance_follows_the_ledger
  (w : LightWallet.t) (tx : EnhancedTransaction.t) (balances wallets : gmap string Z) :
  wellFormed tx ->
  LightWallet.balance w = orDefault (balances !! LightWallet.address w) 0 ->
  let balances' := fst (EnhancedBlockchain.applyTransaction (balances, wallets) tx) in
  let w' := LightWallet.updateBalance w tx in
  LightWallet.balance w' = orDefault (balances' !! LightWallet.address w) 0
  /\ LightWallet.address w' = LightWallet.address w
  /\ LightWallet.nonce w'
     = LightWallet.nonce w
       + (if bool_decide (EnhancedTransaction.from tx = LightWallet.address w) then 1 else 0).
Proof.
  intros Hwf Hbal balances' w'. subst balances' w'.
  unfold EnhancedBlockchain.applyTransaction, LightWallet.updateBalance. cbv zeta.
  cbn [fst]. unfold wellFormed in Hwf.
  destruct (bool_decide_reflect (EnhancedTransaction.from tx = LightWallet.address w))
    as [Hf|Hf];
    cbn [LightWallet.address LightWallet.balance LightWallet.nonce];
    destruct (bool_decide_reflect (EnhancedTransaction.to tx = LightWallet.address w))
      as [Ht|Ht];
    cbn [LightWallet.address LightWallet.balance LightWallet.nonce].
  - rewrite Hf, Ht, !lookup_insert_eq, !orDefault_Some_zero. split; [lia | split; [reflexivity | lia]].
  - rewrite lookup_insert_ne by exact Ht. rewrite Hf, lookup_insert_eq, orDefault_Some_zero.
    split; [lia | split; [reflexivity | lia]].
  - rewrite <- Ht. rewrite lookup_insert_eq, orDefault_Some_zero.
    rewrite lookup_insert_ne by (rewrite Ht; exact Hf). rewrite Ht.
    split; [lia | split; [reflexivity | lia]].
  - rewrite !lookup_insert_ne by assumption. split; [lia | split; [reflexivity | lia]].
Qed.

Lemma wallet_balance_follows_the_ledger_witness :
  let w := LightWallet.new (crypto := nodeCrypto) EnhancedRun.wallet1 "Alice" in
  LightWallet.balance (LightWallet.updateBalance w EnhancedRun.payment) = -15
  /\ LightWallet.nonce (LightWallet.updateBalance w EnhancedRun.payment) = 1
  /\ orDefault (fst (EnhancedBlockchain.applyTransaction (∅, ∅) EnhancedRun.payment)
                !! EnhancedRun.wallet1) 0 = -15.
Proof.
  intros w.
  destruct (wallet_balance_follows_the_ledger w EnhancedRun.payment ∅ ∅)
    as (Hb & _ & Hn); [reflexivity | reflexivity |].
  cbv zeta in Hb, Hn.
  split; [|split].
  - rewrite Hb. vm_compute. reflexivity.
  - rewrite Hn. vm_compute. reflexivity.
  - vm_compute. reflexivity.
Defined.

(** ** The totals of an enhanced block *)

Section EnhancedBlockTotals.
Context {crypto : Crypto}.



End EnhancedBlockTotals.

(** ** Transactions of a refused block *)

Section LostTransactions.
Context {crypto : Crypto}.

Lemma mapHas_mapDelete_other {K V : Type} `{EqDecision K} (k k' : K) (m : list (K * V)) :
  mapHas k m = false -> mapHas k (mapDelete k' m) = false.
Proof.
  unfold mapHas, mapDelete. induction m as [|[a v] m IH]; [reflexivity|].
  cbn [existsb fst]. intros Hm. apply orb_false_iff in Hm as [Ha Hm].
  destruct (decide (a ≠ k')) as [Hne|He].
  - rewrite filter_cons_True by exact Hne. cbn [existsb fst]. rewrite Ha. now apply IH.
  - rewrite filter_cons_False by exact He. now apply IH.
Qed.

Lemma mapHas_mapDelete_same {K V : Type} `{EqDecision K} (k : K) (m : list (K * V)) :
  mapHas k (mapDelete k m) = false.
Proof.
  unfold mapHas, mapDelete. induction m as [|[a v] m IH]; [reflexivity|].
  destruct (decide (a ≠ k)) as [Hne|He].
  - rewrite filter_cons_True by exact Hne. cbn [existsb fst].
    rewrite bool_decide_eq_false_2 by exact Hne. exact IH.
  - rewrite filter_cons_False by exact He. exact IH.
Qed.

Lemma removeMined_forgets (l : list Transaction.t) :
  forall (s : Blockchain.t) (h : option string),
    (h ∈ map Transaction.hash l \/ mapHas h (Blockchain.mempool s) = false) ->
    mapHas h (Blockchain.mempool (Blockchain._removeMinedTransactions s l)) = false.
Proof.
  unfold Blockchain._removeMinedTransactions.
  induction l as [|tx l IH]; intros s h Hh; cbn [fold_left].
  - destruct Hh as [Hin|Hm]; [now apply not_elem_of_nil in Hin | exact Hm].
  - apply IH. cbn [Blockchain.mempool Blockchain.withPool].
    destruct Hh as [Hin|Hm].
    + cbn [map] in Hin. apply elem_of_cons in Hin as [->|Hin]; [|now left].
      right. apply mapHas_mapDelete_same.
    + right. now apply mapHas_mapDelete_other.
Qed.

(** A block that [addBlock] refuses takes its transactions with it.  When
    [mineBlock] returns a block and the chain has not grown, a selected
    transaction that no earlier block holds can no longer be looked up with
    [getTransaction]: it has left the mempool and is in no block of the
    chain, while the balances are those [_updateUTXOSet] computed from the
    block. *)
Theorem refused_block_loses_its_transactions
  (now : Z) (bc bc' : Blockchain.t) (minerAddress : string) (b : Block.t)
  (tx : Transaction.t) :
  Blockchain.mineBlock now bc minerAddress = Returned (Some b) bc' ->
  Blockchain.chain bc' = Blockchain.chain bc ->
  Blockchain.pendingTransactions bc <> [] ->
  tx ∈ Blockchain._selectTransactionsForBlock bc ->
  find (fun t => bool_decide (Transaction.hash t = Transaction.hash tx))
       (flat_map Blockchain.objectsOf (Blockchain.chain bc)) = None ->
  Blockchain.getTransaction bc' (Transaction.hash tx) = None
  /\ Block.TxObj tx ∈ Block.transactions b
  /\ Blockchain.utxoSet bc'
     = fst (Blockchain.updateLoop (Block.baseFeePerGas b) (Block.transactions b)
                                  (Blockchain.utxoSet bc)).
Proof.
  intros Hret Hchain Hpending Hsel Hold.
  destruct (basic_mineBlock_returns now bc bc' minerAddress b Hret)
    as (latest & b0 & _ & _ & _ & Htxs & Hu & _).
  assert (Hhas : (0 <? length (Blockchain.pendingTransactions bc))%nat = true).
  { apply Nat.ltb_lt. destruct (Blockchain.pendingTransactions bc); [congruence | simpl; lia]. }
  rewrite Hhas in Htxs.
  split; [|split; [|exact Hu]].
  - unfold Blockchain.getTransaction. rewrite Hchain, Hold.
    replace (mapHas (Transaction.hash tx) (Blockchain.mempool bc')) with false; [reflexivity|].
    symmetry. revert Hret. unfold Blockchain.mineBlock.
    destruct (Blockchain.getLatestBlock bc) as [lb|]; [|discriminate].
    destruct (Block.mine _) as [[|] nb]; [|discriminate].
    destruct (Blockchain._updateUTXOSet _ _) as [bc2 [|]]; [|discriminate].
    rewrite Hhas. intros [= _ <-].
    apply removeMined_forgets. left.
    rewrite map_app. apply elem_of_app. left.
    apply list_elem_of_In, in_map, list_elem_of_In. exact Hsel.
  - rewrite Htxs, map_app. apply elem_of_app. left.
    apply list_elem_of_In, in_map, list_elem_of_In. exact Hsel.
Qed.

End LostTransactions.

Lemma refused_block_loses_its_transactions_witness :
  Blockchain.getTransaction Run.ledger2 (Transaction.hash Run.aliceToBob)
  = Some Run.aliceToBob
  /\ Blockchain.getTransaction Run.ledger3 (Transaction.hash Run.aliceToBob) = None
  /\ Blockchain.getBalance Run.ledger3 "bob" = 10.
Proof.
  assert (Hret : Blockchain.mineBlock (crypto := nodeCrypto) 1700000002001 Run.ledger2 "carol"
                 = Returned (Some (Block.addTransaction (crypto := nodeCrypto) Run.minedSecond
                                     (Blockchain.rewardTransaction Run.ledger2 "carol")))
                            Run.ledger3).
  { unfold Run.ledger3. run_step. }
  assert (Hchain : Blockchain.chain Run.ledger3 = Blockchain.chain Run.ledger2)
    by (vm_compute; reflexivity).
  assert (Hpend : Blockchain.pendingTransactions Run.ledger2 <> [])
    by (vm_compute; discriminate).
  assert (Hsel : Blockchain._selectTransactionsForBlock Run.ledger2 = [Run.aliceToBob])
    by (vm_compute; reflexivity).
  assert (Hold : find (fun t => bool_decide (Transaction.hash t
                                             = Transaction.hash Run.aliceToBob))
                      (flat_map Blockchain.objectsOf (Blockchain.chain Run.ledger2)) = None)
    by (vm_compute; reflexivity).
  destruct (refused_block_loses_its_transactions (crypto := nodeCrypto) _ _ _ _ _
              Run.aliceToBob Hret Hchain Hpend
              ltac:(rewrite Hsel; apply list_elem_of_here) Hold) as (Hget & _ & _).
  split; [vm_compute; reflexivity|]. split; [exact Hget|]. vm_compute. reflexivity.
Defined.

(** * The balance of an address the ledger has not met *)

Section Unmet.
Context {crypto : Crypto}.

Lemma mapSet_values {K V : Type} `{EqDecision K} (k : K) (v x : V) (m : list (K * V)) :
  x ∈ mapValues (mapSet k v m) -> x = v \/ x ∈ mapValues m.
Proof.
  unfold mapValues. induction m as [|[k' y] r IH]; cbn [mapSet map snd].
  - intros H. apply list_elem_of_singleton in H. now left.
  - destruct (decide (k' = k)); cbn [map snd]; rewrite !elem_of_cons.
    + tauto.
    + intros [H|H]; [tauto|]. destruct (IH H); tauto.
Qed.

Lemma mapDelete_values {K V : Type} `{EqDecision K} (k : K) (x : V) (m : list (K * V)) :
  x ∈ mapValues (mapDelete k m) -> x ∈ mapValues m.
Proof.
  unfold mapValues, mapDelete. rewrite !list_elem_of_In, !in_map_iff.
  intros ([k' y] & E & H). exists (k', y). split; [exact E|].
  apply list_elem_of_In. apply list_elem_of_In in H.
  apply list_elem_of_filter in H. tauto.
Qed.

Lemma updateLoop_absent (base : Z) (txs : list Block.entry) (u : gmap string Z)
  (address : string) :
  u !! address = None ->
  Forall (fun e => match e with
                   | Block.TxObj tx =>
                       Transaction.to tx <> address
                       /\ (Transaction.from tx = address ->
                           Transaction.from tx = Blockchain.systemAddress)
                   | Block.TxHash _ => True
                   end) txs ->
  fst (Blockchain.updateLoop base txs u) !! address = None.
Proof.
  revert u. induction txs as [|e txs IH]; intros u Hu H; cbn [Blockchain.updateLoop];
    [exact Hu|].
  inversion H as [|? ? He Hr]; subst. destruct e as [h|tx]; [exact Hu|].
  destruct He as [Hto Hfrom]. cbv zeta. apply IH; [|exact Hr].
  rewrite lookup_insert_ne by exact Hto.
  destruct (bool_decide_reflect (Transaction.from tx <> Blockchain.systemAddress)) as [N|N];
    [|exact Hu].
  rewrite lookup_insert_ne; [exact Hu|]. intros E. apply N, Hfrom, E.
Qed.

Lemma selected_in_mempool (bc : Blockchain.t) (x : Transaction.t) :
  x ∈ Blockchain._selectTransactionsForBlock bc -> x ∈ mapValues (Blockchain.mempool bc).
Proof.
  unfold Blockchain._selectTransactionsForBlock. cbv zeta.
  destruct (selectLoop_sublist bc
              (Blockchain.sortByPriority (Blockchain.baseFeePerGas bc)
                 (mapValues (Blockchain.mempool bc))) [] 0 0) as (chosen & -> & Hsub).
  cbn [app]. intros H.
  destruct (sortByPriority_spec (Blockchain.baseFeePerGas bc)
              (mapValues (Blockchain.mempool bc))) as [Hp _].
  rewrite <- Hp. eapply elem_of_sublist; eassumption.
Qed.

Lemma removeMined_mempool (l : list Transaction.t) (s : Blockchain.t) (x : Transaction.t) :
  x ∈ mapValues (Blockchain.mempool (Blockchain._removeMinedTransactions s l)) ->
  x ∈ mapValues (Blockchain.mempool s).
Proof.
  revert s. induction l as [|tx l IH]; intros s H; [exact H|].
  unfold Blockchain._removeMinedTransactions in *. cbn [fold_left] in H.
  apply IH in H. cbn [Blockchain.mempool Blockchain.withPool] in H.
  eapply mapDelete_values, H.
Qed.

Lemma basicUnmet_new (now : Z) (c : Blockchain.config) (address : string) :
  basicUnmet address (Blockchain.new now c).
Proof. split; [apply lookup_empty | constructor]. Qed.

Lemma basicUnmet_addTransaction (bc : Blockchain.t) (tx : Transaction.t) (address : string) :
  Transaction.from tx <> address -> Transaction.to tx <> address ->
  basicUnmet address bc ->
  basicUnmet address (stateOf (Blockchain.addTransaction bc tx)).
Proof.
  intros Hf Ht [Hu Hm]. unfold Blockchain.addTransaction.
  destruct (negb _); [split; assumption|].
  destruct (mapHas _ _); [split; assumption|].
  assert (G : basicUnmet address
                (Blockchain.withPool bc (Blockchain.pendingTransactions bc ++ [tx])
                   (mapSet (Transaction.hash tx) tx (Blockchain.mempool bc))
                   (BloomFilter.add (Blockchain.bloomFilter bc) (Transaction.hash tx)))).
  { split; [exact Hu|]. cbn [Blockchain.mempool Blockchain.withPool].
    apply Forall_forall. intros x Hx. apply mapSet_values in Hx as [->|Hx]; [tauto|].
    rewrite Forall_forall in Hm. apply Hm, Hx. }
  destruct (Transaction.hash tx); exact G.
Qed.

Lemma basicUnmet_mineBlock (now : Z) (bc : Blockchain.t) (miner address : string) :
  miner <> address ->
  basicUnmet address bc ->
  basicUnmet address (stateOf (Blockchain.mineBlock now bc miner)).
Proof.
  intros Hminer [Hu Hm]. unfold Blockchain.mineBlock.
  destruct (Blockchain.getLatestBlock bc) as [latest|]; [|split; assumption].
  destruct (Block.mine (Blockchain.candidateBlock now bc latest)) as [mined b0] eqn:Hmine.
  destruct mined; [|split; assumption].
  set (reward := Blockchain.rewardTransaction bc miner).
  set (selected := if (0 <? length (Blockchain.pendingTransactions bc))%nat
                   then Blockchain._selectTransactionsForBlock bc else []).
  set (b1 := Block.addTransaction b0 reward).
  assert (Htxs0 : Block.transactions b0 = map Block.TxObj selected).
  { change b0 with (snd (true, b0)). rewrite <- Hmine. unfold Block.mine.
    rewrite mineLoop_transactions. reflexivity. }
  assert (Htxs : Block.transactions b1 = map Block.TxObj (selected ++ [reward])).
  { unfold b1, Block.addTransaction, Block._calculateMerkleRoot; simpl.
    rewrite Htxs0, map_app. reflexivity. }
  assert (Hsel : forall x, x ∈ selected -> x ∈ mapValues (Blockchain.mempool bc)).
  { intros x. unfold selected. destruct (0 <? _)%nat; [apply selected_in_mempool|].
    intros H. apply elem_of_nil in H. contradiction. }
  unfold Blockchain._updateUTXOSet.
  set (bc1 := snd (Blockchain.addBlock bc latest b1)).
  assert (Hbc1 : Blockchain.utxoSet bc1 = Blockchain.utxoSet bc
                 /\ Blockchain.mempool bc1 = Blockchain.mempool bc).
  { unfold bc1, Blockchain.addBlock.
    destruct (Blockchain._validateBlock bc latest b1); repeat split. }
  destruct Hbc1 as (Hu1 & Hm1).
  destruct (Blockchain.updateLoop (Block.baseFeePerGas b1) (Block.transactions b1)
              (Blockchain.utxoSet bc1)) as [u finished] eqn:Hloop.
  assert (Hu' : u !! address = None).
  { change u with (fst (u, finished)). rewrite <- Hloop, Htxs, Hu1.
    apply updateLoop_absent; [exact Hu|].
    apply Forall_forall. intros e He.
    apply list_elem_of_In, in_map_iff in He as (tx & <- & Hin).
    apply list_elem_of_In, elem_of_app in Hin as [Hin|Hin].
    - rewrite Forall_forall in Hm. destruct (Hm tx (Hsel tx Hin)) as [F T].
      split; [exact T | intros E; contradiction].
    - apply list_elem_of_singleton in Hin. subst tx. split; [exact Hminer | intros _; reflexivity]. }
  assert (G : basicUnmet address (Blockchain.withUtxoSet bc1 u)).
  { split; [exact Hu'|]. cbn [Blockchain.mempool Blockchain.withUtxoSet]. rewrite Hm1. exact Hm. }
  destruct finished; cbn [stateOf]; [|exact G].
  destruct (0 <? length (Blockchain.pendingTransactions bc))%nat; [|exact G].
  destruct G as [G1 G2]. split.
  - destruct (removeMined_frame (selected ++ [reward]) (Blockchain.withUtxoSet bc1 u))
      as (_ & F & _). cbv zeta in F. rewrite F. exact G1.
  - apply Forall_forall. intros x Hx. apply removeMined_mempool in Hx.
    rewrite Forall_forall in G2. apply G2, Hx.
Qed.

Lemma basicUnmet_run (calls : list basicCall) (bc : Blockchain.t) (address : string) :
  address ∉ flat_map basicParties calls ->
  basicUnmet address bc ->
  basicUnmet address (fold_left basicStep calls bc).
Proof.
  revert bc. induction calls as [|c calls IH]; intros bc Hn Hbc; [exact Hbc|].
  cbn [flat_map] in Hn. rewrite elem_of_app in Hn.
  cbn [fold_left]. apply IH; [tauto|].
  destruct c as [tx|now miner]; cbn [basicStep basicParties] in *.
  - apply basicUnmet_addTransaction; [| |exact Hbc]; intros E; apply Hn; left;
      rewrite <- E; set_solver.
  - apply basicUnmet_mineBlock; [|exact Hbc]. intros E; apply Hn; left.
    rewrite <- E. set_solver.
Qed.


Lemma applyTransactions_absent (txs : list EnhancedTransaction.t)
  (bw : gmap string Z * gmap string Z) (address : string) :
  fst bw !! address = None ->
  Forall (fun tx => EnhancedTransaction.from tx <> address
                    /\ EnhancedTransaction.to tx <> address) txs ->
  fst (fold_left EnhancedBlockchain.applyTransaction txs bw) !! address = None.
Proof.
  revert bw. induction txs as [|tx txs IH]; intros [b w] Hb H; cbn [fold_left]; [exact Hb|].
  inversion H as [|? ? [Hf Ht] Hr]; subst. apply IH; [|exact Hr].
  unfold EnhancedBlockchain.applyTransaction. cbn [fst] in *.
  rewrite !lookup_insert_ne by assumption. exact Hb.
Qed.

Lemma unmet_addTransaction (bc : EnhancedBlockchain.t) (tx : EnhancedTransaction.t)
  (address : string) :
  EnhancedTransaction.from tx <> address -> EnhancedTransaction.to tx <> address ->
  unmet address bc ->
  unmet address (snd (EnhancedBlockchain.addTransaction bc tx)).
Proof.
  intros Hf Ht [Hb Hp]. unfold EnhancedBlockchain.addTransaction.
  destruct (negb _); [split; assumption|].
  destruct (negb _); [split; assumption|].
  split; [exact Hb|]. cbn [snd EnhancedBlockchain.pendingTransactions].
  apply Forall_app. split; [exact Hp|]. constructor; [|constructor].
  unfold EnhancedBlockchain.ensureHash. destruct (falsyStr _); split; assumption.
Qed.

Lemma unmet_mineBlock (now : Z) (bc : EnhancedBlockchain.t) (miner address : string) :
  miner <> address ->
  unmet address bc ->
  unmet address (stateOf (EnhancedBlockchain.mineBlock now bc miner)).
Proof.
  intros Hminer [Hb Hp]. unfold EnhancedBlockchain.mineBlock.
  destruct (EnhancedBlockchain.getLatestBlock bc) as [latest|]; [|split; assumption].
  set (cand := EnhancedBlockchain.candidateBlock now bc latest miner).
  destruct (EnhancedBlock.mine cand) as [mined b0] eqn:Hmine.
  destruct mined; [|split; assumption].
  assert (Hb0 : b0 = snd (EnhancedBlock.mineLoop Block.defaultMaxAttempts cand)).
  { change b0 with (snd (true, b0)). rewrite <- Hmine. reflexivity. }
  destruct (enhanced_mineLoop_fees Block.defaultMaxAttempts cand) as (_ & _ & _ & F4).
  pose proof (enhanced_mineLoop_transactions Block.defaultMaxAttempts cand) as F0.
  cbv zeta in F4. rewrite <- Hb0 in F0, F4.
  assert (Htxs : Forall (fun tx => EnhancedTransaction.from tx <> address
                                   /\ EnhancedTransaction.to tx <> address)
                        (EnhancedBlock.transactions b0)).
  { rewrite F0. unfold cand, EnhancedBlockchain.candidateBlock, EnhancedBlock.new,
      EnhancedBlock._calculateMerkleRoots, EnhancedBlock._processTransactions.
    cbn [EnhancedBlock.transactions EnhancedBlock.p_transactions default].
    destruct (4 <? _)%nat; repeat apply Forall_take; exact Hp. }
  assert (Hm : EnhancedBlock.minerAddress b0 = miner) by (rewrite F4; reflexivity).
  cbn [stateOf]. split.
  - unfold EnhancedBlockchain._updateEnhancedFeatures. cbn [EnhancedBlockchain.balances].
    match goal with
    | |- context [EnhancedBlockchain.removeMined ?s ?l] =>
        destruct (removeMined_frame_enhanced l s) as (R1 & _)
    end.
    cbv zeta in R1. rewrite R1.
    unfold EnhancedBlockchain._updateBalances.
    destruct (fold_left EnhancedBlockchain.applyTransaction (EnhancedBlock.transactions b0) _)
      as [b w] eqn:E.
    cbn [EnhancedBlockchain.balances]. rewrite Hm, lookup_insert_ne by exact Hminer.
    change b with (fst (b, w)). rewrite <- E.
    apply applyTransactions_absent; [exact Hb | exact Htxs].
  - unfold EnhancedBlockchain._updateEnhancedFeatures.
    cbn [EnhancedBlockchain.pendingTransactions].
    apply removeMined_pending_sublist.
    destruct (updateBalances_pending
                (EnhancedBlockchain.withChain bc (EnhancedBlockchain.chain bc ++ [b0])) b0)
      as (-> & _).
    exact Hp.
Qed.

Lemma initial_lookup (l : list string) (v : Z) (m : gmap string Z) (address : string) :
  fold_left (fun acc a => <[a := v]> acc) l m !! address
  = if bool_decide (address ∈ l) then Some v else m !! address.
Proof.
  revert m. induction l as [|a l IH]; intros m; cbn [fold_left]; [reflexivity|].
  rewrite IH. destruct (bool_decide_reflect (address ∈ l)) as [H|H].
  - rewrite bool_decide_eq_true_2 by (right; exact H). reflexivity.
  - destruct (decide (a = address)) as [->|N].
    + rewrite lookup_insert_eq, bool_decide_eq_true_2 by left. reflexivity.
    + rewrite lookup_insert_ne by exact N.
      rewrite bool_decide_eq_false_2; [reflexivity|].
      rewrite elem_of_cons. intros [E|E]; [apply N; now symmetry | contradiction].
Qed.

Lemma loadInitialTransactions_balances (seed : list EnhancedTransaction.params)
  (bc : EnhancedBlockchain.t) :
  EnhancedBlockchain.balances (EnhancedBlockchain._loadInitialTransactions seed bc)
  = EnhancedBlockchain.balances bc.
Proof.
  revert bc. unfold EnhancedBlockchain._loadInitialTransactions.
  induction seed as [|p seed IH]; intros bc; cbn [fold_left]; [reflexivity|].
  rewrite IH. unfold EnhancedBlockchain.addTransaction.
  destruct (negb _); [reflexivity|]. destruct (negb _); reflexivity.
Qed.

Lemma new_balances (now : Z) (c : EnhancedBlockchain.config)
  (seed : list EnhancedTransaction.params) (address : string) :
  EnhancedBlockchain.balances (EnhancedBlockchain.new now c seed) !! address
  = if bool_decide (address ∈ EnhancedBlockchain.walletAddresses)
    then Some (orDefault (EnhancedBlockchain.c_initialBalance c) 300)
    else None.
Proof.
  unfold EnhancedBlockchain.new. rewrite loadInitialTransactions_balances.
  unfold EnhancedBlockchain._createGenesisBlock, EnhancedBlockchain.withChain,
    EnhancedBlockchain._initializeWallets.
  cbn [EnhancedBlockchain.balances EnhancedBlockchain.initialBalance].
  rewrite initial_lookup, lookup_empty. reflexivity.
Qed.

Lemma unmet_seed (seed : list EnhancedTransaction.params) (bc : EnhancedBlockchain.t)
  (address : string) :
  address ∉ flat_map parties (map AddTransaction seed) ->
  unmet address bc ->
  unmet address (EnhancedBlockchain._loadInitialTransactions seed bc).
Proof.
  revert bc. unfold EnhancedBlockchain._loadInitialTransactions.
  induction seed as [|p seed IH]; intros bc Hn Hbc; [exact Hbc|].
  cbn [map flat_map] in Hn. rewrite elem_of_app in Hn.
  cbn [fold_left]. apply IH; [tauto|].
  apply unmet_addTransaction; [| |exact Hbc]; intros E; apply Hn; left;
    cbn [parties]; cbn in E; rewrite <- E; set_solver.
Qed.

Lemma unmet_run (calls : list call) (bc : EnhancedBlockchain.t) (address : string) :
  address ∉ flat_map parties calls ->
  unmet address bc ->
  unmet address (fold_left step calls bc).
Proof.
  revert bc. induction calls as [|c calls IH]; intros bc Hn Hbc; [exact Hbc|].
  cbn [flat_map] in Hn. rewrite elem_of_app in Hn.
  cbn [fold_left]. apply IH; [tauto|].
  destruct c as [p|now miner]; cbn [step parties] in *.
  - apply unmet_addTransaction; [| |exact Hbc]; intros E; apply Hn; left;
      cbn in E; rewrite <- E; set_solver.
  - apply unmet_mineBlock; [|exact Hbc]. intros E; apply Hn; left.
    rewrite <- E. set_solver.
Qed.

Lemma orDefault_nonzero (x : option Z) (d : Z) : d <> 0 -> orDefault x d <> 0.
Proof.
  intros Hd. unfold orDefault. destruct x as [v|]; [|exact Hd].
  destruct (Z.eqb_spec v 0); assumption.
Qed.

(** C10 as amended.  An address that no call has named has the balance 0:
    in the basic ledger after any run of [addTransaction] and [mineBlock] on
    a new ledger in which it was neither the sender nor the recipient of a
    transaction submitted nor the miner of a block; in the enhanced ledger
    after any such run, the seed transactions included, provided the address
    is not one of the ten addresses [_initializeWallets] funds.  Those ten
    addresses have the initial balance of the configuration, 300 by default
    and never 0, in a new ledger, before they have sent, received or mined
    anything. *)
Theorem C10_getBalance_of_an_address_never_named (address : string) :
  (forall (now : Z) (c : Blockchain.config) (calls : list basicCall),
      address ∉ flat_map basicParties calls ->
      Blockchain.getBalance (fold_left basicStep calls (Blockchain.new now c)) address = 0)
  /\ (forall (now : Z) (c : EnhancedBlockchain.config)
             (seed : list EnhancedTransaction.params) (calls : list call),
         address ∉ EnhancedBlockchain.walletAddresses ->
         address ∉ flat_map parties (map AddTransaction seed ++ calls) ->
         EnhancedBlockchain.getBalance
           (fold_left step calls (EnhancedBlockchain.new now c seed)) address = 0)
  /\ (forall (now : Z) (c : EnhancedBlockchain.config)
             (seed : list EnhancedTransaction.params),
         address ∈ EnhancedBlockchain.walletAddresses ->
         EnhancedBlockchain.getBalance (EnhancedBlockchain.new now c seed) address
         = orDefault (EnhancedBlockchain.c_initialBalance c) 300
         /\ EnhancedBlockchain.getBalance (EnhancedBlockchain.new now c seed) address <> 0).
Proof.
  split; [|split].
  - intros now c calls Hn.
    destruct (basicUnmet_run calls (Blockchain.new now c) address Hn
                (basicUnmet_new now c address)) as [H _].
    unfold Blockchain.getBalance. rewrite H. reflexivity.
  - intros now c seed calls Hw Hn. rewrite flat_map_app, elem_of_app in Hn.
    assert (H0 : unmet address (EnhancedBlockchain.new now c seed)).
    { unfold EnhancedBlockchain.new. apply unmet_seed; [tauto|].
      split; [|constructor].
      unfold EnhancedBlockchain._createGenesisBlock, EnhancedBlockchain.withChain,
        EnhancedBlockchain._initializeWallets.
      cbn [EnhancedBlockchain.balances EnhancedBlockchain.initialBalance].
      rewrite initial_lookup, lookup_empty, bool_decide_eq_false_2 by exact Hw.
      reflexivity. }
    destruct (unmet_run calls _ address (ltac:(tauto)) H0) as [H _].
    unfold EnhancedBlockchain.getBalance. rewrite H. reflexivity.
  - intros now c seed Hw. unfold EnhancedBlockchain.getBalance.
    rewrite new_balances, bool_decide_eq_true_2 by exact Hw.
    assert (N : orDefault (EnhancedBlockchain.c_initialBalance c) 300 <> 0)
      by (apply orDefault_nonzero; discriminate).
    set (v := orDefault (EnhancedBlockchain.c_initialBalance c) 300) in *.
    change (orDefault (Some v) 0) with (if v =? 0 then 0 else v).
    rewrite (proj2 (Z.eqb_neq _ _) N). split; [reflexivity | exact N].
Qed.

End Unmet.

Lemma C10_getBalance_of_an_address_never_named_witness :
  ("nobody" ∉ flat_map basicParties basicRun)
  /\ Blockchain.getBalance
       (fold_left (basicStep (crypto := nodeCrypto)) basicRun
                  (Blockchain.new (crypto := nodeCrypto) 1700000000060 Run.config))
       "nobody" = 0
  /\ ("nobody" ∉ EnhancedBlockchain.walletAddresses)
  /\ ("nobody" ∉ flat_map parties (map AddTransaction [] ++ enhancedRun))
  /\ EnhancedBlockchain.getBalance
       (fold_left (step (crypto := nodeCrypto)) enhancedRun
                  (EnhancedBlockchain.new (crypto := nodeCrypto) 1700000000000
                     (EnhancedBlockchain.Config (Some 1%N) None None) []))
       "nobody" = 0
  /\ (EnhancedRun.wallet1 ∈ EnhancedBlockchain.walletAddresses)
  /\ EnhancedBlockchain.getBalance EnhancedRun.ledger0 EnhancedRun.wallet1 = 300.
Proof.
  assert (N1 : "nobody" ∉ flat_map basicParties basicRun)
    by (refine (bool_decide_unpack _ _); vm_compute; exact I).
  assert (N2 : "nobody" ∉ EnhancedBlockchain.walletAddresses)
    by (refine (bool_decide_unpack _ _); vm_compute; exact I).
  assert (N3 : "nobody" ∉ flat_map parties (map AddTransaction [] ++ enhancedRun))
    by (refine (bool_decide_unpack _ _); vm_compute; exact I).
  assert (W : EnhancedRun.wallet1 ∈ EnhancedBlockchain.walletAddresses)
    by (refine (bool_decide_unpack _ _); vm_compute; exact I).
  destruct (C10_getBalance_of_an_address_never_named (crypto := nodeCrypto) "nobody")
    as (B & E & _).
  destruct (C10_getBalance_of_an_address_never_named (crypto := nodeCrypto)
              EnhancedRun.wallet1) as (_ & _ & F).
  split; [exact N1|]. split; [apply B; exact N1|]. split; [exact N2|].
  split; [exact N3|]. split; [apply E; [exact N2 | exact N3]|]. split; [exact W|].
  exact (proj1 (F 1700000000000 (EnhancedBlockchain.Config (Some 1%N) None None) [] W)).
Defined.

(** C10, counterexample.  In the new enhanced ledger of the run no block
    carries a transaction, the pool is empty and the one block, the genesis
    block, has the system address as its miner: the first wallet address has
    been neither sender nor recipient nor miner, and its balance is 300. *)
Lemma C10_counterexample :
  flat_map EnhancedBlock.transactions (EnhancedBlockchain.chain EnhancedRun.ledger0) = []
  /\ EnhancedBlockchain.pendingTransactions EnhancedRun.ledger0 = []
  /\ map EnhancedBlock.minerAddress (EnhancedBlockchain.chain EnhancedRun.ledger0)
     = [EnhancedBlockchain.systemAddress]
  /\ EnhancedBlockchain.getBalance EnhancedRun.ledger0 EnhancedRun.wallet1 = 300.
Proof. vm_compute. repeat split; reflexivity. Qed.
